(** * Cross-site input resolution and injection engine (content.js)

    A shallow embedding of the content script of the AI prompt manager:
    the page classifier ([isChatGPTPage] ... [isSupportedAIPage]), the input
    locator ([findAIInput]), the variable template resolver
    ([insertPromptText], [showVariableInputModal]), the insertion cascade
    ([_performInsertion], [insertWithDirectMethod], [setCursorToEnd]) and the
    send cascade ([sendPrompt], [sendViaKeyboard]); further, the prompt list
    of the side menu ([escapeHtml], [createPromptItemHTML],
    [renderPromptsByCategory], [handleSearch], [filterPromptsByCategory]),
    the prompt store ([loadPrompts], [savePromptsToStorage], [addPrompt],
    [updatePrompt], [deletePrompt]), the message listener and the popup's
    page classifier.

    Conventions of the embedding.
    - A JavaScript string is a [string]: a sequence of code units.  Text
      outside ASCII stands as its UTF-8 units; substring tests are not
      affected by that choice, white space outside ASCII is recognised by
      its units ([Str.white_head]), and a length counts units.  Lower-casing
      outside ASCII is left to the browser ([handleSearch] takes it as an
      argument).
    - The page is a forest of [Node]s; every element carries the properties
      the script reads or writes.
    - What the script cannot decide by itself (browser permissions, the host
      page's editor, the user's choice in the modal) is an explicit oracle
      ([Env], [UserAction]).
    - Promises are run to completion: a flow returns its settled [Outcome],
      the page it leaves and the ordered [trace] of the actions it performed.
      A timer whose callback continues the flow is the action [SetTimeout];
      a fire-and-forget timer is the action [Deferred]. *)

From Stdlib Require Import String Ascii List Bool Arith PeanoNat NArith Lia Sorted.
Import ListNotations.
Local Open Scope string_scope.
Local Open Scope list_scope.
Local Open Scope nat_scope.
Set Warnings "-register-all".

(* ================================================================== *)
(** ** Strings *)

Module Str.

(** [s.startsWith(p)] *)
Fixpoint startsWith (s p : string) : bool :=
  match p, s with
  | EmptyString, _ => true
  | String _ _, EmptyString => false
  | String b p', String a s' => if Ascii.eqb a b then startsWith s' p' else false
  end.

(** [s.includes(sub)] *)
Fixpoint includes (s sub : string) : bool :=
  if startsWith s sub then true
  else match s with
       | EmptyString => false
       | String _ s' => includes s' sub
       end.

(** ASCII lower-casing: the folding of ASCII case-insensitive matching in
    selectors, and what [String.prototype.toLowerCase] does on ASCII text.
    Outside ASCII the method follows the Unicode case mappings, which this
    function does not. *)
Definition lower_ascii (c : ascii) : ascii :=
  let n := nat_of_ascii c in
  if (65 <=? n) && (n <=? 90) then ascii_of_nat (n + 32) else c.

Fixpoint toLowerCase (s : string) : string :=
  match s with
  | EmptyString => EmptyString
  | String c s' => String (lower_ascii c) (toLowerCase s')
  end.

(** A unit below 128 is a code point by itself. *)
Definition ascii_unit (c : ascii) : bool := nat_of_ascii c <? 128.


(** ASCII white space: TAB, LF, VT, FF, CR and SPACE. *)
Definition is_space (c : ascii) : bool :=
  let n := nat_of_ascii c in
  ((9 <=? n) && (n <=? 13)) || (n =? 32).

(** The white space of [String.prototype.trim] outside ASCII, by its UTF-8
    units after the lead unit [x]: U+00A0, U+1680, U+2000 to U+200A, U+2028,
    U+2029, U+202F, U+205F, U+3000 and U+FEFF.  The result is the number of
    units of the code point, 0 when the text starts with none of them. *)
Definition wide_white (x : nat) (rest : string) : nat :=
  match rest with
  | String b rest' =>
      let y := nat_of_ascii b in
      if (x =? 194) && (y =? 160) then 2
      else
        match rest' with
        | String c _ =>
            let z := nat_of_ascii c in
            if (x =? 225) && (y =? 154) && (z =? 128) then 3
            else if (x =? 226) && (y =? 128)
                    && (((128 <=? z) && (z <=? 138)) || (z =? 168) || (z =? 169)
                        || (z =? 175))
            then 3
            else if (x =? 226) && (y =? 129) && (z =? 159) then 3
            else if (x =? 227) && (y =? 128) && (z =? 128) then 3
            else if (x =? 239) && (y =? 187) && (z =? 191) then 3
            else 0
        | EmptyString => 0
        end
  | EmptyString => 0
  end.

(** The number of units of the white space code point a text starts with,
    0 when it starts with none. *)
Definition white_head (s : string) : nat :=
  match s with
  | EmptyString => 0
  | String c rest =>
      if is_space c then 1
      else if ascii_unit c then 0
      else wide_white (nat_of_ascii c) rest
  end.

(** The units of a text, each with whether it belongs to a white space
    code point.  [skip] counts the units of the current code point still
    to pass. *)
Fixpoint units_from (skip : nat) (s : string) : list (bool * ascii) :=
  match s with
  | EmptyString => []
  | String c rest =>
      match skip with
      | S k => (true, c) :: units_from k rest
      | O =>
          match white_head s with
          | S k => (true, c) :: units_from k rest
          | O => (false, c) :: units_from 0 rest
          end
      end
  end.

Definition units (s : string) : list (bool * ascii) := units_from 0 s.

Fixpoint text_of (l : list (bool * ascii)) : string :=
  match l with
  | [] => EmptyString
  | u :: l' => String (snd u) (text_of l')
  end.

(** The leading white space is dropped. *)
Fixpoint drop_white (l : list (bool * ascii)) : list (bool * ascii) :=
  match l with
  | (true, _) :: l' => drop_white l'
  | _ => l
  end.

(** [s.trim()] is the empty string exactly when [s] is made of white space
    only. *)
Definition all_space (s : string) : bool := forallb fst (units s).

(** Line breaks.  The value of a textarea holds CR LF and a lone CR as LF;
    the value of a single-line input holds neither CR nor LF. *)
Definition cr : ascii := ascii_of_nat 13.
Definition lf : ascii := ascii_of_nat 10.

Fixpoint normalize_from (after_cr : bool) (s : string) : string :=
  match s with
  | EmptyString => EmptyString
  | String c rest =>
      if Ascii.eqb c cr then String lf (normalize_from true rest)
      else if Ascii.eqb c lf
      then if after_cr then normalize_from false rest
           else String lf (normalize_from false rest)
      else String c (normalize_from false rest)
  end.

Definition normalize_newlines (s : string) : string := normalize_from false s.

Fixpoint strip_newlines (s : string) : string :=
  match s with
  | EmptyString => EmptyString
  | String c rest =>
      if Ascii.eqb c cr || Ascii.eqb c lf then strip_newlines rest
      else String c (strip_newlines rest)
  end.


(** The separators of a class attribute: TAB, LF, FF, CR and SPACE. *)
Definition is_separator (c : ascii) : bool :=
  let n := nat_of_ascii c in
  (n =? 9) || (n =? 10) || (n =? 12) || (n =? 13) || (n =? 32).

(** Split on separators, as [classList] does with the class attribute. *)
Fixpoint tokens_aux (cur : string) (s : string) : list string :=
  match s with
  | EmptyString => match cur with EmptyString => [] | _ => [cur] end
  | String c s' =>
      if is_separator c
      then match cur with
           | EmptyString => tokens_aux EmptyString s'
           | _ => cur :: tokens_aux EmptyString s'
           end
      else tokens_aux (cur ++ String c EmptyString)%string s'
  end.

Definition tokens (s : string) : list string := tokens_aux EmptyString s.

(** [s.substring(0, n)] and [s.substring(n)] *)
Fixpoint take (n : nat) (s : string) : string :=
  match n, s with
  | S k, String c s' => String c (take k s')
  | _, _ => EmptyString
  end.

Fixpoint drop (n : nat) (s : string) : string :=
  match n, s with
  | S k, String _ s' => drop k s'
  | _, _ => s
  end.

(** JavaScript truthiness of a string. *)
Definition truthy (s : string) : bool :=
  match s with EmptyString => false | _ => true end.

End Str.

(* ================================================================== *)
(** ** The document *)

(** The properties of an element the script reads or writes.
    - [tagName] is kept lower-case: it is [el.tagName.toLowerCase()].
    - [visible] is the test [el.offsetParent !== null].
    - [value] is the [value] property; for an element without one it is the
      empty string (the script only tests it for truthiness).
    - [selectionStart]/[selectionEnd] are the properties of that name on a
      text control; on an editable region they are the offsets of the
      collapsed or extended selection range, counted in [textContent].
    - [reactOnChange] says whether the element owns a key starting with
      [__reactProps$] or [__reactEventHandlers$] whose object has an
      [onChange] handler. *)
Record Element := {
  nid : nat;
  tagName : string;
  attrs : list (string * string);
  visible : bool;
  disabled : bool;
  isContentEditable : bool;
  value : string;
  textContent : string;
  selectionStart : nat;
  selectionEnd : nat;
  reactOnChange : bool
}.

Inductive Node := Nd (e : Element) (children : list Node).

Definition getAttribute (e : Element) (a : string) : option string :=
  match find (fun kv => String.eqb (fst kv) a) (attrs e) with
  | Some kv => Some (snd kv)
  | None => None
  end.

(** *** Selectors

    The subset of CSS the script's tables use: compound selectors made of a
    type, an id, classes, attribute tests (presence, [=], [*=], [*= ... i]) and
    [:last-of-type], chained by the descendant combinator. *)
Module Css.

Inductive AttrOp := Equals | Contains | ContainsCI.

Inductive Simple :=
| Tag (t : string)
| Id (i : string)
| Class (c : string)
| Has (a : string)
| Attr (a : string) (op : AttrOp) (v : string)
| LastOfType.

Definition Compound := list Simple.

(** A descendant chain, outermost compound first: ['form textarea'] is
    [[[Tag "form"]; [Tag "textarea"]]]. *)
Definition Selector := list Compound.

(** An element on the path from the root, with whether it is the last
    child of its type under its parent. *)
Definition Placed := (Element * bool)%type.

Definition attr_test (op : AttrOp) (actual wanted : string) : bool :=
  match op with
  | Equals => String.eqb actual wanted
  | Contains => Str.truthy wanted && Str.includes actual wanted
  | ContainsCI =>
      Str.truthy wanted &&
      Str.includes (Str.toLowerCase actual) (Str.toLowerCase wanted)
  end.

Definition test_holds (p : Placed) (t : Simple) : bool :=
  let e := fst p in
  match t with
  | Tag n => String.eqb (tagName e) n
  | Id i => match getAttribute e "id" with
            | Some v => String.eqb v i
            | None => false
            end
  | Class c => match getAttribute e "class" with
               | Some v => existsb (String.eqb c) (Str.tokens v)
               | None => false
               end
  | Has a => match getAttribute e a with Some _ => true | None => false end
  | Attr a op v => match getAttribute e a with
                   | Some actual => attr_test op actual v
                   | None => false
                   end
  | LastOfType => snd p
  end.

Definition compound_holds (p : Placed) (c : Compound) : bool :=
  forallb (test_holds p) c.

(** [outer] is the rest of the chain innermost first; [anc] the ancestors
    nearest first.  Each compound takes the nearest ancestor that fits. *)
Fixpoint ancestors_hold (outer : list Compound) (anc : list Placed) : bool :=
  match outer with
  | [] => true
  | c :: outer' =>
      (fix up (l : list Placed) : bool :=
         match l with
         | [] => false
         | a :: l' =>
             if compound_holds a c then ancestors_hold outer' l' else up l'
         end) anc
  end.

(** [el.matches(sel)] for an element with its ancestors. *)
Definition matches (sel : Selector) (p : Placed) (anc : list Placed) : bool :=
  match rev sel with
  | [] => false
  | subject :: outer => compound_holds p subject && ancestors_hold outer anc
  end.

Definition tag_of (n : Node) : string :=
  match n with Nd e _ => tagName e end.

(** Every element below and including [n] in document order, each with
    its ancestors. *)
Fixpoint walk (anc : list Placed) (last : bool) (n : Node)
  : list (Placed * list Placed) :=
  match n with
  | Nd e ch =>
      let me := (e, last) in
      (me, anc) ::
      (fix siblings (l : list Node) : list (Placed * list Placed) :=
         match l with
         | [] => []
         | c :: r =>
             walk (me :: anc)
                  (negb (existsb (fun s => String.eqb (tag_of s) (tag_of c)) r)) c
             ++ siblings r
         end) ch
  end.

Fixpoint walk_forest (l : list Node) : list (Placed * list Placed) :=
  match l with
  | [] => []
  | c :: r =>
      walk [] (negb (existsb (fun s => String.eqb (tag_of s) (tag_of c)) r)) c
      ++ walk_forest r
  end.

End Css.

(** [document.querySelectorAll(sel)]: the matching elements in document
    order. *)
Definition querySelectorAll (doc : list Node) (sel : Css.Selector) : list Element :=
  map (fun h => fst (fst h))
      (filter (fun h => Css.matches sel (fst h) (snd h)) (Css.walk_forest doc)).

(** [document.querySelector(sel)]: the first match or [null]. *)
Definition querySelector (doc : list Node) (sel : Css.Selector) : option Element :=
  hd_error (querySelectorAll doc sel).

(* ================================================================== *)
(** ** The page and its classification *)

(** [window.location]: the script reads [href] and [pathname]. *)
Record Location := { href : string; pathname : string }.

(** The page context: the address, the document and the system clipboard. *)
Record Page := {
  location : Location;
  document : list Node;
  clipboard : string
}.

Definition isChatGPTPage (l : Location) : bool :=
  Str.includes (href l) "chat.openai.com" || Str.includes (href l) "chatgpt.com".

Definition isClaudePage (l : Location) : bool :=
  Str.includes (href l) "claude.ai".

Definition isGeminiPage (l : Location) : bool :=
  Str.includes (href l) "gemini.google.com".

Definition isGrokPage (l : Location) : bool :=
  Str.includes (href l) "grok.com" ||
  (Str.includes (href l) "x.com" && Str.includes (pathname l) "/i/grok").

Definition isPerplexityPage (l : Location) : bool :=
  Str.includes (href l) "perplexity.ai".

Definition isDeepSeekPage (l : Location) : bool :=
  Str.includes (href l) "chat.deepseek.com".

Definition isDoubaoPage (l : Location) : bool :=
  Str.includes (href l) "doubao.com".

Definition isQwenPage (l : Location) : bool :=
  Str.includes (href l) "chat.qwen.ai" || Str.includes (href l) "qianwen.aliyun.com".

Definition isSupportedAIPage (l : Location) : bool :=
  isChatGPTPage l || isClaudePage l || isGeminiPage l || isGrokPage l ||
  isPerplexityPage l || isDeepSeekPage l || isDoubaoPage l || isQwenPage l.

(** The identity of a page: the first site predicate of [findAIInput]'s
    chain that holds, [unknown] when none does. *)
Inductive PlatformIdentity :=
| chatgpt | claude | gemini | grok | perplexity | deepseek | doubao | qwen
| unknown.

Definition classify (l : Location) : PlatformIdentity :=
  if isChatGPTPage l then chatgpt
  else if isClaudePage l then claude
  else if isGeminiPage l then gemini
  else if isGrokPage l then grok
  else if isPerplexityPage l then perplexity
  else if isDeepSeekPage l then deepseek
  else if isDoubaoPage l then doubao
  else if isQwenPage l then qwen
  else unknown.

(* ================================================================== *)
(** ** Input locator *)

Module Sel.
Import Css.

Definition ce_true : Simple := Attr "contenteditable" Equals "true".
Definition role_textbox : Simple := Attr "role" Equals "textbox".
Definition placeholder_has (s : string) : Simple := Attr "placeholder" Contains s.
Definition aria_label (s : string) : Simple := Attr "aria-label" Equals s.

(** The selector table of [findAIInput], one list per branch of its
    chain, in the order of the source. *)
Definition input_selectors (i : PlatformIdentity) : list Selector :=
  match i with
  | chatgpt =>
      [ [[Id "prompt-textarea"]];
        [[Tag "textarea"; Attr "data-id" Equals "root"]];
        [[Tag "textarea"; placeholder_has "Send"]];
        [[Tag "textarea"; placeholder_has "Message"]];
        [[Tag "textarea"; placeholder_has "发送"]];
        [[Tag "textarea"; placeholder_has "消息"]];
        [[Tag "main"]; [Tag "textarea"]];
        [[Tag "form"]; [Tag "textarea"]];
        [[ce_true; Attr "data-testid" Contains "composer"]];
        [[Tag "div"; ce_true; role_textbox]];
        [[role_textbox]];
        [[Tag "textarea"]];
        [[Tag "div"; ce_true]] ]
  | claude =>
      [ [[Tag "div"; ce_true; Attr "enterkeyhint" Equals "enter"]];
        [[Tag "div"; Class "ProseMirror"; ce_true]];
        [[Tag "div"; ce_true]];
        [[Tag "fieldset"]; [Tag "div"; ce_true]];
        [[role_textbox]];
        [[Tag "textarea"]] ]
  | gemini =>
      [ [[Tag "rich-textarea"]; [Class "ql-editor"; ce_true]];
        [[Tag "rich-textarea"]; [Tag "div"; ce_true]];
        [[Tag "div"; Class "ql-editor"; ce_true]];
        [[Tag "div"; ce_true; role_textbox]];
        [[role_textbox; ce_true]];
        [[Tag "div"; ce_true]];
        [[Tag "textarea"]] ]
  | grok =>
      [ [[Tag "div"; Class "ProseMirror"; ce_true]];
        [[Tag "div"; Class "tiptap"; ce_true]];
        [[Tag "div"; ce_true; role_textbox]];
        [[Tag "div"; ce_true]];
        [[role_textbox]];
        [[Tag "textarea"]] ]
  | perplexity =>
      [ [[Tag "div"; ce_true; role_textbox]];
        [[Tag "div"; ce_true; Class "overflow-auto"]];
        [[Tag "div"; ce_true]];
        [[role_textbox]];
        [[Tag "textarea"; placeholder_has "Ask"]];
        [[Tag "textarea"; placeholder_has "Follow"]];
        [[Tag "textarea"]] ]
  | deepseek =>
      [ [[Tag "textarea"; placeholder_has "输入"]];
        [[Tag "textarea"; Class "el-textarea__inner"]];
        [[Tag "div"; ce_true]];
        [[role_textbox]];
        [[Tag "textarea"]];
        [[Tag "input"; Attr "type" Equals "text"]] ]
  | doubao =>
      [ [[Tag "textarea"; placeholder_has "输入"]];
        [[Tag "textarea"; placeholder_has "请输入"]];
        [[Tag "div"; ce_true; role_textbox]];
        [[Tag "div"; Class "editor-content"; ce_true]];
        [[role_textbox]];
        [[Tag "textarea"]];
        [[Tag "div"; ce_true]] ]
  | qwen =>
      [ [[Tag "textarea"; placeholder_has "输入"]];
        [[Tag "textarea"; placeholder_has "问我"]];
        [[Tag "div"; ce_true; role_textbox]];
        [[Tag "textarea"; Class "ant-input"]];
        [[role_textbox]];
        [[Tag "textarea"]];
        [[Tag "div"; ce_true]] ]
  | unknown => []      (* [let selectors = []] and no final [else] *)
  end.

(** The send-control table of [sendPrompt].  Its chain has no branch for
    the two keyboard-first sites, which return before it; [SendGeneric]
    is its final [else]. *)
Inductive SendBranch :=
| SendChatGPT | SendGemini | SendGrok | SendPerplexity | SendDeepSeek
| SendQwen | SendGeneric.

Definition send_selectors (b : SendBranch) : list Selector :=
  match b with
  | SendChatGPT =>
      [ [[Tag "button"; Attr "data-testid" Equals "send-button"]];
        [[Tag "button"; aria_label "Send prompt"]];
        [[Tag "button"; aria_label "发送提示"]];
        [[Tag "form"]; [Tag "button"; Attr "type" Equals "submit"]];
        [[Tag "button"; Class "absolute"; Class "p-1"; Class "rounded-md"]] ]
  | SendGemini =>
      [ [[Tag "button"; aria_label "Send message"]];
        [[Tag "button"; aria_label "发送消息"]];
        [[Tag "button"; Class "send-button"]];
        [[Tag "button"; Attr "mattooltip" Contains "Send"]];
        [[Tag "button"; Attr "mattooltip" Contains "发送"]];
        [[Class "input-area-container"];
         [Tag "button"; Attr "aria-label" ContainsCI "send"]];
        [[Tag "button"; Has "jsname";
          Attr "data-idom-class" Contains "send"]] ]
  | SendGrok =>
      [ [[Tag "button"; aria_label "Send"]];
        [[Tag "button"; aria_label "发送"]];
        [[Tag "button"; Attr "data-testid" Equals "send-button"]];
        [[Tag "form"]; [Tag "button"; Attr "type" Equals "submit"]] ]
  | SendPerplexity =>
      [ [[Tag "button"; aria_label "Submit"]];
        [[Tag "button"; aria_label "提交"]];
        [[Tag "button"; Class "bg-super"]];
        [[Tag "button"; Attr "type" Equals "submit"]] ]
  | SendDeepSeek =>
      [ [[Tag "button"; aria_label "发送"]];
        [[Tag "button"; aria_label "Send"]];
        [[Tag "div"; Attr "role" Equals "button"; Attr "aria-label" Contains "发送"]];
        [[Tag "button"; Class "el-button--primary"]];
        [[Tag "form"]; [Tag "button"; Attr "type" Equals "submit"]] ]
  | SendQwen =>
      [ [[Tag "button"; aria_label "发送"]];
        [[Tag "button"; aria_label "Send"]];
        [[Tag "button"; Class "ant-btn-primary"]];
        [[Tag "button"; Attr "type" Equals "submit"]] ]
  | SendGeneric =>
      [ [[Tag "button"; Attr "type" Equals "submit"]];
        [[Tag "button"; Attr "aria-label" ContainsCI "send"]];
        [[Tag "button"; Attr "aria-label" Contains "发送"]];
        [[Tag "form"]; [Tag "button"; LastOfType]] ]
  end.

End Sel.

(** The branch of [findAIInput]'s chain taken on a page. *)
Definition input_selectors_for (l : Location) : list Css.Selector :=
  Sel.input_selectors (classify l).

(** The loop of [findAIInput]: selectors in order, and for each one its
    matches in document order; the first visible element is returned.  The
    selectors of the table are all well formed, so [querySelectorAll] never
    raises and the [catch] of the loop is not reached. *)
Fixpoint first_visible_match (doc : list Node) (sels : list Css.Selector)
  : option Element :=
  match sels with
  | [] => None
  | sel :: rest =>
      match find visible (querySelectorAll doc sel) with
      | Some el => Some el
      | None => first_visible_match doc rest
      end
  end.

Definition findAIInput (p : Page) : option Element :=
  first_visible_match (document p) (input_selectors_for (location p)).

(** Backward compatibility alias. *)
Definition findChatGPTInput (p : Page) : option Element := findAIInput p.

(** Writing an element back: the node with the same identity is replaced. *)
Fixpoint update_node (el : Element) (n : Node) : Node :=
  match n with
  | Nd e ch =>
      Nd (if Nat.eqb (nid e) (nid el) then el else e) (map (update_node el) ch)
  end.

Definition update_page (p : Page) (el : Element) (clip : string) : Page :=
  {| location := location p;
     document := map (update_node el) (document p);
     clipboard := clip |}.

(* ================================================================== *)
(** ** Variable template resolver *)

Module Template.

Definition lbrace : ascii := "{"%char.
Definition rbrace : ascii := "}"%char.
Definition newline : ascii := ascii_of_nat 10.

(** The class [[^{}\n]]. *)
Definition name_char (c : ascii) : bool :=
  negb (Ascii.eqb c lbrace || Ascii.eqb c rbrace || Ascii.eqb c newline).

(** The longest run of [[^{}\n]] at the head of [s], and what follows. *)
Fixpoint span_name (s : string) : string * string :=
  match s with
  | EmptyString => (EmptyString, EmptyString)
  | String c s' =>
      if name_char c
      then let r := span_name s' in (String c (fst r), snd r)
      else (EmptyString, s)
  end.

(** The regular expression [/\{([^{}\n]+)\}/] tried right after an opening
    brace: the capture group on success.  The class excludes the closing
    brace, so only the longest run can be followed by it. *)
Definition match_after_brace (s : string) : option string :=
  let r := span_name s in
  match fst r, snd r with
  | String _ _, String c _ => if Ascii.eqb c rbrace then Some (fst r) else None
  | _, _ => None
  end.

(** The loop [while ((match = variableRegex.exec(text)) !== null)]: the
    capture groups of all matches, left to right.  [skip] counts the units
    of the current match still to pass ([lastIndex]). *)
Fixpoint exec_all (skip : nat) (s : string) : list string :=
  match s with
  | EmptyString => []
  | String c s' =>
      match skip with
      | S k => exec_all k s'
      | O =>
          if Ascii.eqb c lbrace
          then match match_after_brace s' with
               | Some name => name :: exec_all (S (String.length name)) s'
               | None => exec_all 0 s'
               end
          else exec_all 0 s'
      end
  end.

(** [Set.prototype.add] on an insertion-ordered set. *)
Definition set_add (x : string) (l : list string) : list string :=
  if existsb (String.eqb x) l then l else l ++ [x].

(** [Array.from(variables)]: the names whose trimmed form is not empty,
    without repetition, in the order of their first occurrence. *)
Definition variables (text : string) : list string :=
  fold_left (fun acc name => if Str.all_space name then acc else set_add name acc)
            (exec_all 0 text) [].

(** *** Property order of an ordinary object

    [Object.entries] lists array-index keys first, in ascending numeric
    order, then the other string keys in creation order.  Assigning the
    key [__proto__] creates no own property. *)
Definition is_digit (c : ascii) : bool :=
  let n := nat_of_ascii c in (48 <=? n) && (n <=? 57).

Fixpoint all_digits (s : string) : bool :=
  match s with
  | EmptyString => true
  | String c s' => is_digit c && all_digits s'
  end.

Fixpoint decimal_aux (acc : N) (s : string) : N :=
  match s with
  | EmptyString => acc
  | String c s' => decimal_aux (acc * 10 + (N_of_ascii c - 48))%N s'
  end.

(** The canonical numeric strings of the integers below [2^32 - 1]. *)
Definition array_index (s : string) : option N :=
  match s with
  | EmptyString => None
  | String c s' =>
      if all_digits s
         && (negb (Ascii.eqb c "0"%char) || String.eqb s' EmptyString)
         && (String.length s <=? 10)
      then let n := decimal_aux 0%N s in
           if (n <? 4294967295)%N then Some n else None
      else None
  end.

Fixpoint insert_index (k : N * string) (l : list (N * string)) : list (N * string) :=
  match l with
  | [] => [k]
  | h :: t => if (fst k <? fst h)%N then k :: l else h :: insert_index k t
  end.

Definition index_keys (keys : list string) : list string :=
  map snd
      (fold_left (fun acc k => match array_index k with
                               | Some n => insert_index (n, k) acc
                               | None => acc
                               end) keys []).

Definition named_keys (keys : list string) : list string :=
  filter (fun k => match array_index k with
                   | Some _ => false
                   | None => negb (String.eqb k "__proto__")
                   end) keys.

(** The own keys of the object built by assigning [keys] (distinct) in
    turn, in the order [Object.entries] lists them. *)
Definition own_keys (keys : list string) : list string :=
  index_keys keys ++ named_keys keys.

(** *** [String.prototype.replace] with a pattern without groups

    The replacement text is expanded: [$$] is a dollar sign, [$&] the
    match, [$`] the text before it and [$'] the text after it; any other
    use of the dollar sign stays as written. *)
Fixpoint expand (repl matched before after : string) : string :=
  match repl with
  | EmptyString => EmptyString
  | String c r =>
      if Ascii.eqb c "$"%char
      then match r with
           | String d r' =>
               if Ascii.eqb d "$"%char then String "$"%char (expand r' matched before after)
               else if Ascii.eqb d "&"%char then (matched ++ expand r' matched before after)%string
               else if Ascii.eqb d "`"%char then (before ++ expand r' matched before after)%string
               else if Ascii.eqb d "'"%char then (after ++ expand r' matched before after)%string
               else String c (expand r matched before after)
           | EmptyString => String c EmptyString
           end
      else String c (expand r matched before after)
  end.

(** [s.replace(new RegExp(pat, 'g'), repl)] for a pattern that matches
    the literal text [pat] (not empty): every occurrence, left to right
    and without overlap.  [before] is the part of the subject already
    passed. *)
Fixpoint replace_all (pat repl : string) (before : string) (skip : nat) (s : string)
  : string :=
  match s with
  | EmptyString => EmptyString
  | String c s' =>
      match skip with
      | S k => replace_all pat repl (before ++ String c EmptyString)%string k s'
      | O =>
          if Str.startsWith s pat
          then (expand repl pat before (Str.drop (String.length pat) s)
                ++ replace_all pat repl (before ++ String c EmptyString)%string
                               (String.length pat - 1) s')%string
          else String c (replace_all pat repl (before ++ String c EmptyString)%string 0 s')
      end
  end.

(** The units [key.replace(/[.*+?^${}()|[\]\\]/g, '\\$&')] escapes. *)
Definition regex_special (c : ascii) : bool :=
  existsb (Ascii.eqb c)
          [ "."%char; "*"%char; "+"%char; "?"%char; "^"%char; "$"%char;
            "{"%char; "}"%char; "("%char; ")"%char; "|"%char; "["%char;
            "]"%char; "\"%char ].

(** [safeKey]: a backslash is put before every special unit. *)
Fixpoint escape_key (key : string) : string :=
  match key with
  | EmptyString => EmptyString
  | String c r =>
      if regex_special c
      then String "\"%char (String c (escape_key r))
      else String c (escape_key r)
  end.

(** The text a pattern matches when it is made of ordinary units and
    escaped special units only; [None] for a pattern that uses an
    operator. *)
Fixpoint pattern_literal (pat : string) : option string :=
  match pat with
  | EmptyString => Some EmptyString
  | String c r =>
      if Ascii.eqb c "\"%char then
        match r with
        | String d r' =>
            if regex_special d
            then option_map (String d) (pattern_literal r')
            else None
        | EmptyString => None
        end
      else if regex_special c then None
      else option_map (String c) (pattern_literal r)
  end.

(** The body of the substitution loop for one entry:
    [new RegExp(`\\{${safeKey}\\}`, 'g')] and [replace].  The pattern is
    always a literal one (lemma [pattern_of_key] below). *)
Definition substitute (text : string) (entry : string * string) : string :=
  match pattern_literal ("\{" ++ escape_key (fst entry) ++ "\}")%string with
  | Some token => replace_all token (snd entry) EmptyString 0 text
  | None => text
  end.

(** [for (const [key, value] of Object.entries(filledVariables))] *)
Definition substitute_all (text : string) (entries : list (string * string)) : string :=
  fold_left substitute entries text.

End Template.

(* ================================================================== *)
(** ** Actions, outcomes and oracles *)

(** The toast texts of [showUserNotification] calls, by meaning. *)
Inductive Message :=
| MsgInputNotFound        (* input box not found; be on a chat page or copy and paste by hand *)
| MsgCopiedPasteManually  (* insertion failed, prompt copied to the clipboard; paste by hand *)
| MsgInsertAndCopyFailed  (* insertion and copy both failed; refresh or copy by hand *)
| MsgInsertedSendManually (* prompt inserted, send by hand *).

Inductive Severity := SevError | SevInfo | SevSuccess.

Inductive KeyPhase := Keydown | Keypress | Keyup.

Inductive DomEvent :=
| EvInput
| EvChange
| EvInsertText (data : string)          (* InputEvent 'input', inputType 'insertText' *)
| EvKey (ph : KeyPhase) (key : string).

(** Console lines that mark a stage of a flow. *)
Inductive LogLine :=
| LogStartProcess          (* 'Starting to process prompt insertion...' *)
| LogVariablesDetected (vars : list string)
| LogUserCancelled         (* 'User cancelled variable input' *)
| LogStartLowLevel         (* 'Starting low-level insertion...' *)
| LogInputNotFound         (* 'Input not found, cannot insert prompt' *)
| LogInputFound            (* 'Input found, preparing to insert prompt' *)
| LogUsingClipboard        (* 'Using Clipboard API method for insertion' *)
| LogPasteSuccessful       (* 'Clipboard paste successful' *)
| LogPasteFailed           (* 'execCommand paste failed, trying direct value method' *)
| LogWriteRejected         (* 'Using direct insertion method (Clipboard API unavailable or permission denied)' *)
| LogClipboardUnavailable  (* 'Clipboard API unavailable, using direct method' *)
| LogUsingTextareaValue    (* 'Using textarea.value direct setting method' *)
| LogUsingContentEditable  (* 'Using contentEditable method' *)
| LogInputEventOk          (* 'InputEvent method successful' *)
| LogTryingExecCommand     (* 'Trying execCommand method' *)
| LogExecCommandOk         (* 'execCommand method insertion successful' *)
| LogTriggeringReact       (* 'Triggering React onChange event' *)
| LogInsertionOutcome (success : bool)  (* 'Prompt insertion successful' / '... may have failed' *)
| LogErrorInserting        (* 'Error inserting prompt:' *)
| LogCopyAlsoFailed        (* 'Copy to clipboard also failed:' *)
| LogSendInputNotFound     (* 'Input not found, cannot send' *)
| LogAttemptSend           (* 'Attempting to send prompt...' *)
| LogKeyboardFirst         (* 'Using keyboard-first strategy for this platform' *)
| LogFoundSendButton       (* 'Found send button: ...' *)
| LogSentByClick           (* 'Sent successfully by clicking send button' *)
| LogFallbackKeyboard      (* 'Send button not found or disabled, trying keyboard events' *)
| LogSentViaKeyboard       (* 'Sent via keyboard event sequence' *)
| LogPromptSent            (* 'Prompt sent' *)
| LogErrorSending          (* 'Error sending prompt:' *).

(** What a fire-and-forget timer does when it fires. *)
Inductive Later :=
| LaterCursorToEnd (len : nat)        (* setCursorToEnd(textarea, len) *)
| LaterReactOnChange (len : nat)      (* the host handler, then setCursorToEnd *)
| LaterCollapseButton                 (* smartCollapseButton() *).

Inductive Action :=
| Log (l : LogLine)
| ShowModal (fields : list string)     (* the overlay is appended, one field per name *)
| CloseModal                           (* cleanup() *)
| Focus (n : nat)
| ClearContent (n : nat)
| WriteValue (n : nat) (s : string)
| WriteText (n : nat) (s : string)
| SelectAll (n : nat)
| CursorToEnd (n : nat) (len : nat)
| Dispatch (n : nat) (ev : DomEvent)
| ClipboardWrite (s : string) (ok : bool)
| ExecCommand (cmd : string) (ok : bool)
| ReactLookup (n : nat) (found : bool)
| Notify (m : Message) (sev : Severity) (ms : N)
| Click (n : nat)
| SetTimeout (ms : N)
| Deferred (ms : N) (what : Later)
| CloseSideMenu
| CollapseButton.

(** The function a trace entry was performed by. *)
Inductive Origin := Resolver | Modal | Inserter | Sender | Handler.

Definition Entry := (Origin * Action)%type.

Definition tagged (o : Origin) (l : list Action) : list Entry := map (pair o) l.

Inductive Error :=
| ErrInputNotFound      (* new Error('未找到输入框') *)
| ErrUserCancelled      (* new Error('User cancelled') *)
| ErrThrown             (* an exception raised by the page *).

Inductive Outcome := Resolved | Rejected (e : Error).

(** A settled flow. [target] is the located element as the flow leaves it
    ([None] when no element was located or touched). *)
Record Run := {
  outcome : Outcome;
  page_after : Page;
  target : option Element;
  trace : list Entry
}.

(** What the browser and the host page decide.
    - [clipboard_api]: [navigator.clipboard && navigator.clipboard.writeText].
    - [writeText_ok]: the promise of [writeText] is fulfilled.
    - [paste_permitted]: [document.execCommand('paste')] inserts the
      clipboard text at the selection of the focused element.
    - [editor_takes_insertText]: the host editor answers an [insertText]
      input event by inserting its data.
    - [insertText_ok]: [document.execCommand('insertText')] returns true
      and replaces the selection.
    - [focus_throws]: the synchronous DOM calls of the [try] body raise; the
      first of them is [textarea.focus()]. *)
Record Env := {
  clipboard_api : bool;
  writeText_ok : bool;
  paste_permitted : bool;
  editor_takes_insertText : bool;
  insertText_ok : bool;
  focus_throws : bool
}.

(** The user's answer to the variable modal: the insert button (or Enter on
    the last field) with the text typed in each field, or one of the two
    ways to cancel. *)
Inductive UserAction :=
| Submit (typed : string -> string)
| CancelButton
| ClickOverlay.

(* ================================================================== *)
(** ** Element operations *)

Definition write (e : Element) (v t : string) (s1 s2 : nat) : Element :=
  {| nid := nid e; tagName := tagName e; attrs := attrs e;
     visible := visible e; disabled := disabled e;
     isContentEditable := isContentEditable e;
     value := v; textContent := t;
     selectionStart := s1; selectionEnd := s2;
     reactOnChange := reactOnChange e |}.

Definition is_textarea (e : Element) : bool := String.eqb (tagName e) "textarea".

Definition is_text_control (e : Element) : bool :=
  String.eqb (tagName e) "textarea" || String.eqb (tagName e) "input".

(** What a text control holds of a text given to it: a textarea holds
    its line breaks as LF, a single-line input holds no line break.  (How a
    single-line input takes the line breaks of a text inserted by an
    editing command differs between browsers; the statements about such an
    input take a text without line breaks.) *)
Definition held (e : Element) (v : string) : string :=
  if is_textarea e then Str.normalize_newlines v
  else if String.eqb (tagName e) "input" then Str.strip_newlines v
  else v.

(** [el.value = v]: the control holds the text its way and the caret moves
    to the end of the new value. *)
Definition set_value (e : Element) (v : string) : Element :=
  let v := held e v in
  write e v (textContent e) (String.length v) (String.length v).

(** [el.textContent = t] (and [el.innerHTML = ''] for the empty text): the
    children are replaced and the selection collapses to the start. *)
Definition set_textContent (e : Element) (t : string) : Element :=
  write e (value e) t 0 0.

(** [setCursorToEnd(element, textLength)].  A text control clamps the
    offsets to the length of its value; an editable region gets a collapsed
    range at the end of its content; any other element is only focused. *)
Definition setCursorToEnd (e : Element) (textLength : nat) : Element :=
  if is_text_control e then
    let c := Nat.min textLength (String.length (value e)) in
    write e (value e) (textContent e) c c
  else if isContentEditable e then
    let c := String.length (textContent e) in
    write e (value e) (textContent e) c c
  else e.

Definition splice (s : string) (a b : nat) (ins : string) : string :=
  (Str.take a s ++ ins ++ Str.drop b s)%string.

(** The selection of the focused element is replaced by [ins] and the caret
    is put after it; an element that is not editable is left alone. *)
Definition insert_at_selection (e : Element) (ins : string) : Element :=
  if is_text_control e then
    let ins := held e ins in
    let c := selectionStart e + String.length ins in
    write e (splice (value e) (selectionStart e) (selectionEnd e) ins) (textContent e) c c
  else if isContentEditable e then
    let c := selectionStart e + String.length ins in
    write e (value e) (splice (textContent e) (selectionStart e) (selectionEnd e) ins) c c
  else e.

(** [textarea.select()], or a range over the contents of the node. *)
Definition select_all (e : Element) : Element :=
  if is_text_control e
  then write e (value e) (textContent e) 0 (String.length (value e))
  else write e (value e) (textContent e) 0 (String.length (textContent e)).

(** [(textarea.value && textarea.value.length > 0) ||
     (textarea.textContent && textarea.textContent.length > 0)] *)
Definition hasContent (e : Element) : bool :=
  Str.truthy (value e) || Str.truthy (textContent e).

(* ================================================================== *)
(** ** Insertion cascade *)

(** The state threaded through [_performInsertion] once the input is
    located: the element ([const textarea]), the system clipboard and the
    actions performed so far. *)
Record St := { el : Element; clip : string; acts : list Action }.

Definition emit (a : Action) (s : St) : St :=
  {| el := el s; clip := clip s; acts := acts s ++ [a] |}.

Definition on_el (f : Element -> Element) (s : St) : St :=
  {| el := f (el s); clip := clip s; acts := acts s |}.

Definition put_clip (c : string) (s : St) : St :=
  {| el := el s; clip := c; acts := acts s |}.

(** A call of [setCursorToEnd(textarea, textToInsert.length)]. *)
Definition cursorToEnd (len : nat) (s : St) : St :=
  emit (CursorToEnd (nid (el s)) len) (on_el (fun e => setCursorToEnd e len) s).

(** [textarea.dispatchEvent(ev)].  The host page is passive in this model
    apart from the oracles of [Env]. *)
Definition dispatch (ev : DomEvent) (s : St) : St :=
  emit (Dispatch (nid (el s)) ev) s.

Section Cascade.

Variable env : Env.
Variable textToInsert : string.

Let len := String.length textToInsert.

(** Method 1 of [insertWithDirectMethod]: the [value] of a textarea. *)
Definition direct_textarea (s : St) : St :=
  let s := emit (Log LogUsingTextareaValue) s in
  let s := emit (WriteValue (nid (el s)) textToInsert)
                (on_el (fun e => set_value e textToInsert) s) in
  let s := cursorToEnd len s in
  let s := dispatch EvInput s in
  let s := dispatch EvChange s in
  dispatch (EvKey Keydown " ") s.

(** Method 2: an editable region.  First the [insertText] input event,
    which succeeds when the host editor put some content in; otherwise
    the text content is assigned. *)
Definition direct_contenteditable (s : St) : St :=
  let s := emit (Log LogUsingContentEditable) s in
  let s := emit (ClearContent (nid (el s))) (on_el (fun e => set_textContent e "") s) in
  let s := emit (Focus (nid (el s))) s in
  let s := dispatch (EvInsertText textToInsert) s in
  let s := if editor_takes_insertText env
           then on_el (fun e => insert_at_selection e textToInsert) s
           else s in
  if Str.truthy (textContent (el s))
  then cursorToEnd len (emit (Log LogInputEventOk) s)
  else
    let s := emit (WriteText (nid (el s)) textToInsert)
                  (on_el (fun e => set_textContent e textToInsert) s) in
    let s := cursorToEnd len s in
    let s := dispatch EvInput s in
    dispatch EvChange s.

(** Method 3: [document.execCommand('insertText', false, textToInsert)]
    on the whole content.  The result is the new state and whether the
    command reported an insertion. *)
Definition exec_insertText (s : St) : St * bool :=
  let s := emit (Log LogTryingExecCommand) s in
  let s := emit (SelectAll (nid (el s))) (on_el select_all s) in
  let s := emit (ExecCommand "insertText" (insertText_ok env)) s in
  if insertText_ok env
  then
    let s := on_el (fun e => insert_at_selection e textToInsert) s in
    let s := emit (Log LogExecCommandOk) s in
    let s := cursorToEnd len s in
    let s := dispatch EvInput s in
    (dispatch EvChange s, true)
  else (s, false).

(** Method 4: the React handler.  The value is set first, for a textarea
    or an editable region only. *)
Definition react_onChange (s : St) : St * bool :=
  let s := if is_textarea (el s)
           then emit (WriteValue (nid (el s)) textToInsert)
                     (on_el (fun e => set_value e textToInsert) s)
           else if isContentEditable (el s)
           then emit (WriteText (nid (el s)) textToInsert)
                     (on_el (fun e => set_textContent e textToInsert) s)
           else s in
  let s := cursorToEnd len s in
  let s := emit (ReactLookup (nid (el s)) (reactOnChange (el s))) s in
  if reactOnChange (el s)
  then (emit (Deferred 0%N (LaterReactOnChange len)) (emit (Log LogTriggeringReact) s), true)
  else (s, false).

(** [insertWithDirectMethod()]: the state it leaves and its [success]
    flag.  It ends with [resolve()] whatever the flag. *)
Definition insertWithDirectMethod (s : St) : St * bool :=
  let r12 :=
    if is_textarea (el s) then (direct_textarea s, true)
    else if isContentEditable (el s) then (direct_contenteditable s, true)
    else (s, false) in
  let r3 := if snd r12 then r12 else exec_insertText (fst r12) in
  let r4 := if snd r3 then r3 else react_onChange (fst r3) in
  let s := emit (Deferred 100%N (LaterCursorToEnd len)) (fst r4) in
  (emit (Log (LogInsertionOutcome (snd r4))) s, snd r4).

(** The clearing before the paste. *)
Definition clear_for_paste (s : St) : St :=
  if is_textarea (el s)
  then emit (ClearContent (nid (el s))) (on_el (fun e => set_value e "") s)
  else if isContentEditable (el s)
  then emit (ClearContent (nid (el s))) (on_el (fun e => set_textContent e "") s)
  else s.

(** The callback of [writeText(textToInsert).then]: clear, focus, paste
    and, 50 ms later, look for content. *)
Definition paste_attempt (s : St) : St :=
  let s := clear_for_paste s in
  let s := emit (Focus (nid (el s))) s in
  let s := emit (ExecCommand "paste" (paste_permitted env)) s in
  let s := if paste_permitted env
           then on_el (fun e => insert_at_selection e (clip s)) s
           else s in
  emit (SetTimeout 50%N) s.

(** The part of [_performInsertion] after the element is located and
    focused: the settled state, and the [success] flag when the direct
    method ran. *)
Definition cascade (s : St) : St * option bool :=
  if clipboard_api env then
    let s := emit (Log LogUsingClipboard) s in
    let s := emit (ClipboardWrite textToInsert (writeText_ok env)) s in
    if writeText_ok env then
      let s := paste_attempt (put_clip textToInsert s) in
      if hasContent (el s) then
        let s := emit (Log LogPasteSuccessful) s in
        let s := cursorToEnd len s in
        let s := dispatch EvInput s in
        (dispatch EvChange s, None)
      else
        let r := insertWithDirectMethod (emit (Log LogPasteFailed) s) in
        (fst r, Some (snd r))
    else
      let r := insertWithDirectMethod (emit (Log LogWriteRejected) s) in
      (fst r, Some (snd r))
  else
    let r := insertWithDirectMethod (emit (Log LogClipboardUnavailable) s) in
    (fst r, Some (snd r)).

(** The [catch] of [_performInsertion]: the clipboard as a fallback. *)
Definition catch_fallback (s : St) : St * Outcome :=
  let s := emit (Log LogErrorInserting) s in
  if clipboard_api env then
    let s := emit (ClipboardWrite textToInsert (writeText_ok env)) s in
    if writeText_ok env
    then (emit (Notify MsgCopiedPasteManually SevInfo 5000%N) (put_clip textToInsert s),
          Resolved)
    else (emit (Notify MsgInsertAndCopyFailed SevError 6000%N)
               (emit (Log LogCopyAlsoFailed) s),
          Rejected ErrThrown)
  else (s, Rejected ErrThrown).

(** [_performInsertion(text)] *)
Definition _performInsertion (p : Page) : Run :=
  match findChatGPTInput p with
  | None =>
      {| outcome := Rejected ErrInputNotFound;
         page_after := p;
         target := None;
         trace := tagged Inserter
                    [Log LogStartLowLevel; Log LogInputNotFound;
                     Notify MsgInputNotFound SevError 5000%N] |}
  | Some e =>
      let s := {| el := e; clip := clipboard p;
                  acts := [Log LogStartLowLevel; Log LogInputFound] |} in
      if focus_throws env then
        let r := catch_fallback s in
        {| outcome := snd r;
           page_after := update_page p (el (fst r)) (clip (fst r));
           target := Some (el (fst r));
           trace := tagged Inserter (acts (fst r)) |}
      else
        let r := cascade (emit (Focus (nid e)) s) in
        {| outcome := Resolved;
           page_after := update_page p (el (fst r)) (clip (fst r));
           target := Some (el (fst r));
           trace := tagged Inserter (acts (fst r)) |}
  end.

End Cascade.

(** The fire-and-forget timers of a trace, fired in the order they were
    set: each one ends with [setCursorToEnd]. *)
Definition fire (e : Element) (a : Entry) : Element :=
  match snd a with
  | Deferred _ (LaterCursorToEnd len) => setCursorToEnd e len
  | Deferred _ (LaterReactOnChange len) => setCursorToEnd e len
  | _ => e
  end.

Definition after_timers (e : Element) (tr : list Entry) : Element :=
  fold_left fire tr e.

(** The success flag the direct method logs, when it ran. *)
Definition logged_success (tr : list Entry) : option bool :=
  fold_left (fun acc a => match snd a with
                          | Log (LogInsertionOutcome b) => Some b
                          | _ => acc
                          end) tr None.

(* ================================================================== *)
(** ** Template resolution and the insertion entry point *)

(** [showVariableInputModal(variables, originalText)]: one field per name
    in the order of the array.  The [inputs] object is filled by
    assignment, so [Object.entries] lists it in property order; the
    submitted object has one entry per own key, with the text typed in
    that field.  The result is [None] when the promise is rejected with
    'User cancelled'.  A modal left over from an earlier call is not
    modelled: one flow is run at a time.  A field named [__proto__] is
    shown and not kept: its assignment makes the field's element the
    prototype of [inputs]; what the assignment of a later field does
    through that prototype is not modelled. *)
Definition showVariableInputModal (variables : list string) (user : UserAction)
  : list Action * option (list (string * string)) :=
  match user with
  | Submit typed =>
      ([ShowModal variables; CloseModal],
       Some (map (fun v => (v, typed v)) (Template.own_keys variables)))
  | CancelButton => ([ShowModal variables; CloseModal], None)
  | ClickOverlay => ([ShowModal variables; CloseModal], None)
  end.

(** [insertPromptText(text)] *)
Definition insertPromptText (env : Env) (user : UserAction) (text : string) (p : Page)
  : Run :=
  let start := tagged Resolver [Log LogStartProcess] in
  match Template.variables text with
  | [] =>
      let r := _performInsertion env text p in
      {| outcome := outcome r; page_after := page_after r; target := target r;
         trace := start ++ trace r |}
  | variables =>
      let detected := tagged Resolver [Log (LogVariablesDetected variables)] in
      let m := showVariableInputModal variables user in
      match snd m with
      | None =>
          {| outcome := Resolved; page_after := p; target := None;
             trace := start ++ detected ++ tagged Modal (fst m)
                      ++ tagged Resolver [Log LogUserCancelled] |}
      | Some filledVariables =>
          let textToInsert := Template.substitute_all text filledVariables in
          let r := _performInsertion env textToInsert p in
          {| outcome := outcome r; page_after := page_after r; target := target r;
             trace := start ++ detected ++ tagged Modal (fst m) ++ trace r |}
      end
  end.

(* ================================================================== *)
(** ** Send cascade *)

Definition enter_key : string := "Enter".

(** [sendViaKeyboard(textarea, resolve, reject)] *)
Definition sendViaKeyboard (ta : Element) : list Action :=
  [ Focus (nid ta);
    Dispatch (nid ta) (EvKey Keydown enter_key);
    Dispatch (nid ta) (EvKey Keypress enter_key);
    SetTimeout 10%N;
    Dispatch (nid ta) (EvKey Keyup enter_key);
    Dispatch (nid ta) EvInput;
    Log LogSentViaKeyboard ].

(** The branch of [sendPrompt]'s selector chain taken on a page. *)
Definition send_branch (l : Location) : Sel.SendBranch :=
  if isChatGPTPage l then Sel.SendChatGPT
  else if isGeminiPage l then Sel.SendGemini
  else if isGrokPage l then Sel.SendGrok
  else if isPerplexityPage l then Sel.SendPerplexity
  else if isDeepSeekPage l then Sel.SendDeepSeek
  else if isQwenPage l then Sel.SendQwen
  else Sel.SendGeneric.

(** The search loop of [sendPrompt]: for each selector its first match
    only; the first such match that is visible ends the loop. *)
Fixpoint find_send_button (doc : list Node) (sels : list Css.Selector)
  : option Element :=
  match sels with
  | [] => None
  | sel :: rest =>
      match querySelector doc sel with
      | Some btn => if visible btn then Some btn else find_send_button doc rest
      | None => find_send_button doc rest
      end
  end.

Definition useKeyboardFirst (l : Location) : bool :=
  isClaudePage l || isDoubaoPage l.

(** [sendPrompt()], on a page whose DOM calls raise nothing while sending:
    the [catch] blocks of [sendPrompt] and [sendViaKeyboard], which reject
    with the exception caught, are not modelled. *)
Definition sendPrompt (p : Page) : Run :=
  match findChatGPTInput p with
  | None =>
      {| outcome := Rejected ErrInputNotFound; page_after := p; target := None;
         trace := tagged Sender [Log LogSendInputNotFound] |}
  | Some ta =>
      let done (l : list Action) :=
        {| outcome := Resolved; page_after := p; target := Some ta;
           trace := tagged Sender (Log LogAttemptSend :: l) |} in
      if useKeyboardFirst (location p) then
        done (Log LogKeyboardFirst :: sendViaKeyboard ta)
      else
        match find_send_button (document p)
                (Sel.send_selectors (send_branch (location p))) with
        | Some sendButton =>
            if negb (disabled sendButton)
            then done [Log LogFoundSendButton; SetTimeout 50%N;
                       Click (nid sendButton); Log LogSentByClick]
            else done (Log LogFoundSendButton :: Log LogFallbackKeyboard
                       :: sendViaKeyboard ta)
        | None => done (Log LogFallbackKeyboard :: sendViaKeyboard ta)
        end
  end.

(* ================================================================== *)
(** ** The two buttons of a prompt item *)

(** The page once the fire-and-forget timers of a settled insertion have
    fired.  They were set before the promise settled and are due within
    100 ms, so they fire before a 100 ms timer set after it. *)
Definition page_after_timers (r : Run) : Page :=
  match target r with
  | Some e => update_page (page_after r) (after_timers e (trace r))
                          (clipboard (page_after r))
  | None => page_after r
  end.

(** The [catch] of the send button's chain. *)
Definition send_catch (e : Error) : list Action :=
  Log LogErrorSending ::
  match e with
  | ErrInputNotFound => []            (* the message includes '未找到输入框' *)
  | _ => [Notify MsgInsertedSendManually SevInfo 2500%N]
  end ++ [CloseSideMenu; CollapseButton].

(** The click handler of the send button:
    [insertPromptText(...).then(delay 100).then(sendPrompt).then(...).catch(...)] *)
Definition onSendClick (env : Env) (user : UserAction) (text : string) (p : Page)
  : Run :=
  let r1 := insertPromptText env user text p in
  match outcome r1 with
  | Rejected e =>
      {| outcome := Resolved; page_after := page_after r1; target := target r1;
         trace := trace r1 ++ tagged Handler (send_catch e) |}
  | Resolved =>
      let r2 := sendPrompt (page_after_timers r1) in
      let wait := tagged Handler [SetTimeout 100%N] in
      match outcome r2 with
      | Rejected e =>
          {| outcome := Resolved; page_after := page_after r2; target := target r2;
             trace := trace r1 ++ wait ++ trace r2 ++ tagged Handler (send_catch e) |}
      | Resolved =>
          {| outcome := Resolved; page_after := page_after r2; target := target r2;
             trace := trace r1 ++ wait ++ trace r2
                      ++ tagged Handler [CloseSideMenu;
                                         Deferred 200%N LaterCollapseButton;
                                         Log LogPromptSent] |}
      end
  end.

(** The click handler of the edit button: insert, do not send. *)
Definition onEditClick (env : Env) (user : UserAction) (text : string) (p : Page)
  : Run :=
  let r1 := insertPromptText env user text p in
  {| outcome := Resolved; page_after := page_after r1; target := target r1;
     trace := trace r1 ++
              tagged Handler
                match outcome r1 with
                | Resolved => [CloseSideMenu; Deferred 200%N LaterCollapseButton]
                | Rejected _ => [CollapseButton]
                end |}.

(* ================================================================== *)
(** ** The locator as the specification words it *)

(** A text-entry surface: a [textarea] or [input] tag, a [contenteditable]
    attribute that is true, or an explicit textbox role. *)
Definition is_text_entry_surface (e : Element) : bool :=
  String.eqb (tagName e) "textarea" || String.eqb (tagName e) "input"
  || match getAttribute e "contenteditable" with
     | Some v => String.eqb v "true"
     | None => false
     end
  || match getAttribute e "role" with
     | Some v => String.eqb v "textbox"
     | None => false
     end.

(** The locator of the specification: for each pattern in order, the first
    match in document order that is present in the layout and is a
    text-entry surface. *)
Fixpoint locate_spec (doc : list Node) (sels : list Css.Selector) : option Element :=
  match sels with
  | [] => None
  | sel :: rest =>
      match find (fun e => visible e && is_text_entry_surface e)
                 (querySelectorAll doc sel) with
      | Some el => Some el
      | None => locate_spec doc rest
      end
  end.

(** Whether the subject compound of a selector names a text-entry surface
    by itself. *)
Definition names_text_entry (t : Css.Simple) : bool :=
  match t with
  | Css.Tag n => String.eqb n "textarea" || String.eqb n "input"
  | Css.Attr a Css.Equals v =>
      (String.eqb a "contenteditable" && String.eqb v "true")
      || (String.eqb a "role" && String.eqb v "textbox")
  | _ => false
  end.

Definition selects_text_entry (sel : Css.Selector) : bool :=
  match rev sel with
  | [] => false
  | subject :: _ => existsb names_text_entry subject
  end.

(* ================================================================== *)
(** ** Pages, elements and environments used as examples *)

Module Fixtures.

Definition element (n : nat) (tag : string) (ats : list (string * string)) : Element :=
  {| nid := n; tagName := tag; attrs := ats; visible := true; disabled := false;
     isContentEditable := false; value := ""; textContent := "";
     selectionStart := 0; selectionEnd := 0; reactOnChange := false |}.

Definition editable (n : nat) (tag : string) (ats : list (string * string)) : Element :=
  {| nid := n; tagName := tag; attrs := ("contenteditable", "true") :: ats;
     visible := true; disabled := false;
     isContentEditable := true; value := ""; textContent := "";
     selectionStart := 0; selectionEnd := 0; reactOnChange := false |}.

Definition disabled_button (n : nat) (ats : list (string * string)) : Element :=
  {| nid := n; tagName := "button"; attrs := ats; visible := true; disabled := true;
     isContentEditable := false; value := ""; textContent := "";
     selectionStart := 0; selectionEnd := 0; reactOnChange := false |}.

Definition at_url (h path : string) (body : list Node) : Page :=
  {| location := {| href := h; pathname := path |};
     document := [Nd (element 0 "html" []) [Nd (element 1 "body" []) body]];
     clipboard := "" |}.

Definition textarea : Element := element 2 "textarea" [].


(** The same document on ChatGPT. *)
Definition chatgpt_page : Page :=
  at_url "https://chatgpt.com/c/1" "/c/1" [Nd textarea []].

(** DeepSeek with a single-line text input as the only candidate. *)
Definition text_input : Element := element 2 "input" [("type", "text")].

Definition deepseek_input_page : Page :=
  at_url "https://chat.deepseek.com/" "/" [Nd text_input []].





(** ChatGPT where the id [prompt-textarea] sits on a plain container and
    the composer is a textarea further down. *)
Definition decoy : Element := element 2 "div" [("id", "prompt-textarea")].
Definition composer : Element := element 3 "textarea" [("placeholder", "Message")].

Definition chatgpt_decoy_page : Page :=
  at_url "https://chatgpt.com/" "/" [Nd decoy []; Nd (element 4 "form" []) [Nd composer []]].

(** Claude: a ProseMirror region and no send control. *)
Definition prosemirror : Element := editable 2 "div" [("class", "ProseMirror")].

Definition claude_page : Page :=
  at_url "https://claude.ai/new" "/new" [Nd prosemirror []].

(** ChatGPT with its send button disabled. *)
Definition chatgpt_disabled_send_page : Page :=
  at_url "https://chatgpt.com/" "/"
         [Nd (element 4 "form" [])
             [Nd textarea [];
              Nd (disabled_button 5 [("data-testid", "send-button")]) []]].

(** ChatGPT with a working send button. *)
Definition chatgpt_send_page : Page :=
  at_url "https://chatgpt.com/" "/"
         [Nd (element 4 "form" [])
             [Nd textarea [];
              Nd (element 5 "button" [("data-testid", "send-button")]) []]].

(** No clipboard API, no working command, passive host. *)
Definition bare_env : Env :=
  {| clipboard_api := false; writeText_ok := false; paste_permitted := false;
     editor_takes_insertText := false; insertText_ok := false;
     focus_throws := false |}.


(** The clipboard can be written, pasting is not permitted. *)
Definition write_only_env : Env :=
  {| clipboard_api := true; writeText_ok := true; paste_permitted := false;
     editor_takes_insertText := false; insertText_ok := false;
     focus_throws := false |}.

(** The document does not have the focus: the clipboard write is rejected
    and the editing commands do nothing. *)
Definition unfocused_env : Env :=
  {| clipboard_api := true; writeText_ok := false; paste_permitted := false;
     editor_takes_insertText := false; insertText_ok := false;
     focus_throws := false |}.

(** The page raises and the clipboard cannot be written. *)
Definition hostile_env : Env :=
  {| clipboard_api := true; writeText_ok := false; paste_permitted := false;
     editor_takes_insertText := false; insertText_ok := false;
     focus_throws := true |}.

(** The values typed for the template [{a}-{a}-{b}]. *)
Definition one_two (v : string) : string :=
  if String.eqb v "a" then "1" else if String.eqb v "b" then "2" else "".

End Fixtures.

(* ================================================================== *)
(** ** Predicates used in the statements *)

(** The two ways to dismiss the modal. *)
Definition cancels (u : UserAction) : bool :=
  match u with
  | Submit _ => false
  | CancelButton | ClickOverlay => true
  end.

Definition is_notification (a : Entry) : bool :=
  match snd a with Notify _ _ _ => true | _ => false end.

(** A write to the clipboard that took effect. *)
Definition is_clipboard_copy (a : Entry) : bool :=
  match snd a with ClipboardWrite _ true => true | _ => false end.

Definition is_click (a : Entry) : bool :=
  match snd a with Click _ => true | _ => false end.

Definition origin_is (o : Origin) (a : Entry) : Prop := fst a = o.

(** The stage of the send button's flow an entry belongs to: resolution,
    insertion, the wait and the send cascade, the handler's epilogue. *)
Definition stage (a : Entry) : nat :=
  match a with
  | (Resolver, _) | (Modal, _) => 0
  | (Inserter, _) => 1
  | (Handler, SetTimeout _) => 2
  | (Sender, _) => 3
  | (Handler, _) => 4
  end.

(** The stages follow one another. *)
Definition stage_le (a b : Entry) : Prop := stage a <= stage b.

(** Strategy 1 of the cascade took effect: the clipboard was written and
    content was found 50 ms after the paste. *)
Definition paste_verified (env : Env) (text : string) (e : Element) : bool :=
  clipboard_api env && writeText_ok env
  && hasContent (el (paste_attempt env {| el := e; clip := text; acts := [] |})).


(** Strategy 2 has a branch for the element. *)
Definition direct_applicable (e : Element) : bool :=
  is_textarea e || isContentEditable e.

(** The state [_performInsertion] starts its cascade from. *)
Definition located (p : Page) (e : Element) : St :=
  emit (Focus (nid e))
       {| el := e; clip := clipboard p;
          acts := [Log LogStartLowLevel; Log LogInputFound] |}.

Definition is_outcome_log (a : Action) : bool :=
  match a with Log (LogInsertionOutcome _) => true | _ => false end.

(** What the direct method does on an element that is neither a textarea
    nor an editable region when the [insertText] command fails: strategy 3
    is tried, then strategy 4 looks for the React handler, and only then
    the outcome is logged. *)
Definition exhausted_tail (len : nat) (e : Element) : list Action :=
  [ Log LogTryingExecCommand; SelectAll (nid e); ExecCommand "insertText" false;
    CursorToEnd (nid e) len; ReactLookup (nid e) (reactOnChange e) ]
  ++ (if reactOnChange e
      then [Log LogTriggeringReact; Deferred 0%N (LaterReactOnChange len)]
      else [])
  ++ [ Deferred 100%N (LaterCursorToEnd len);
       Log (LogInsertionOutcome (reactOnChange e)) ].

(** The properties of an element no step of the script changes. *)
Definition same_identity (e e' : Element) : Prop :=
  nid e' = nid e /\ tagName e' = tagName e /\
  isContentEditable e' = isContentEditable e /\ reactOnChange e' = reactOnChange e.

(** What the insertion cascade may do while it inserts a text of length
    [len]: it shows no notification, clicks nothing, and every timer it
    leaves behind puts the caret at [len]. *)
Definition benign (len : nat) (a : Action) : Prop :=
  match a with
  | Notify _ _ _ => False
  | Click _ => False
  | Deferred _ (LaterCursorToEnd l) => l = len
  | Deferred _ (LaterReactOnChange l) => l = len
  | Deferred _ LaterCollapseButton => False
  | _ => True
  end.

(** [s'] continues [s]: it holds the same element, possibly written to, and
    has performed further actions, which satisfy [P]. *)
Definition extends (P : Action -> Prop) (s s' : St) : Prop :=
  same_identity (el s) (el s') /\
  exists l, acts s' = acts s ++ l /\ Forall P l.

(* ================================================================== *)
(** ** Prompts and the side menu's list *)

(** A prompt as stored: the fields [{id, title, category, content}] the
    content script reads (a prompt may carry others, such as [createdAt]).
    A missing or empty [category] is the empty string: the script tests it
    for truthiness only. *)
Record Prompt := {
  prompt_id : string;
  title : string;
  category : string;
  content : string
}.

Module Text.

(** [s.trim()]: the white space code points at both ends are dropped. *)
Definition trim (s : string) : string :=
  Str.text_of (rev (Str.drop_white (rev (Str.drop_white (Str.units s))))).

(** [s.includes(c)] for a single unit. *)
Fixpoint has_unit (c : ascii) (s : string) : bool :=
  match s with
  | EmptyString => false
  | String a r => Ascii.eqb a c || has_unit c r
  end.

End Text.

Module Html.

Definition amp : ascii := "&"%char.
Definition lt : ascii := "<"%char.
Definition gt : ascii := ">"%char.
Definition quot : ascii := ascii_of_nat 34.
Definition apos : ascii := "'"%char.

(** [s.replace(/c/g, repl)] for a pattern of one unit. *)
Definition replaceUnit (c : ascii) (repl : string) (s : string) : string :=
  Template.replace_all (String c EmptyString) repl EmptyString 0 s.

(** [escapeHtml(html)]: five global replacements, the ampersand first. *)
Definition escapeHtml (html : string) : string :=
  replaceUnit apos "&#039;"
    (replaceUnit quot "&quot;"
       (replaceUnit gt "&gt;"
          (replaceUnit lt "&lt;"
             (replaceUnit amp "&amp;" html)))).

(** One unit replaced by a fixed text, unit by unit. *)
Fixpoint substUnit (c : ascii) (repl : string) (s : string) : string :=
  match s with
  | EmptyString => EmptyString
  | String a r =>
      ((if Ascii.eqb a c then repl else String a EmptyString) ++ substUnit c repl r)%string
  end.

(** The entity of one unit, or the unit itself. *)
Definition escapeUnit (c : ascii) : string :=
  if Ascii.eqb c amp then "&amp;"
  else if Ascii.eqb c lt then "&lt;"
  else if Ascii.eqb c gt then "&gt;"
  else if Ascii.eqb c quot then "&quot;"
  else if Ascii.eqb c apos then "&#039;"
  else String c EmptyString.

(** Escaping in one pass, unit by unit. *)
Fixpoint escapeUnits (s : string) : string :=
  match s with
  | EmptyString => EmptyString
  | String c r => (escapeUnit c ++ escapeUnits r)%string
  end.

Definition markup_unit (c : ascii) : bool :=
  Ascii.eqb c lt || Ascii.eqb c gt || Ascii.eqb c quot || Ascii.eqb c apos.

Definition special_unit (c : ascii) : bool := Ascii.eqb c amp || markup_unit c.

Fixpoint no_unit (f : ascii -> bool) (s : string) : bool :=
  match s with
  | EmptyString => true
  | String c r => negb (f c) && no_unit f r
  end.

End Html.

(** The values [createPromptItemHTML(prompt)] puts into its template, in
    the order of the template: the [data-id] attribute, the
    [data-is-markdown] attribute, the title and the content shown.  The
    markup around them is constant text. *)
Record PromptItem := {
  data_id : string;
  data_is_markdown : bool;
  title_html : string;
  content_html : string
}.

Definition createPromptItemHTML (prompt : Prompt) : PromptItem :=
  let title := Html.escapeHtml (title prompt) in
  let content := Html.escapeHtml (content prompt) in
  let truncatedContent :=
    if 150 <? String.length content
    then (Str.take 150 content ++ "...")%string
    else content in
  let isMarkdown :=
    Str.includes content "#" || Str.includes content "*"
    || Str.includes content "```" || Str.includes content "[" in
  {| data_id := prompt_id prompt;
     data_is_markdown := isMarkdown;
     title_html := title;
     content_html := truncatedContent |}.

(** [getUniqueCategories()] on the list [availablePrompts]. *)
Definition getUniqueCategories (availablePrompts : list Prompt) : list string :=
  fold_left (fun categories prompt =>
               if Str.truthy (category prompt)
               then Template.set_add (category prompt) categories
               else categories)
            availablePrompts [].

(** The names every ordinary object inherits from [Object.prototype]:
    looking one of them up on an object without that own key gives a
    member of the prototype, which is truthy and no array. *)
Definition inherited_member (k : string) : bool :=
  existsb (String.eqb k)
          [ "constructor"; "toString"; "toLocaleString"; "valueOf";
            "hasOwnProperty"; "isPrototypeOf"; "propertyIsEnumerable";
            "__proto__"; "__defineGetter__"; "__defineSetter__";
            "__lookupGetter__"; "__lookupSetter__" ].

(** [formatCategoryName(category)]: [categoryMap[category] || category].
    [None] when the lookup yields an inherited member, which is no
    string. *)
Definition categoryMap : list (string * string) :=
  [ ("general", "通用"); ("writing", "写作"); ("coding", "编程");
    ("translation", "翻译"); ("creativity", "创意"); ("analysis", "分析");
    ("uncategorized", "未分类") ].

Definition formatCategoryName (category : string) : option string :=
  match find (fun kv => String.eqb (fst kv) category) categoryMap with
  | Some kv => Some (snd kv)
  | None => if inherited_member category then None else Some category
  end.

(** The grouping loop of [renderPromptsByCategory]: the object
    [promptsByCategory] as the list of its own entries in creation order.
    [None] when [promptsByCategory[category].push] is no function and the
    loop raises. *)
Definition category_of (prompt : Prompt) : string :=
  if Str.truthy (category prompt) then category prompt else "uncategorized".

Fixpoint push_to (c : string) (p : Prompt) (groups : list (string * list Prompt))
  : list (string * list Prompt) :=
  match groups with
  | [] => []
  | (k, l) :: rest =>
      if String.eqb k c then (k, l ++ [p]) :: rest else (k, l) :: push_to c p rest
  end.

Fixpoint promptsByCategory (prompts : list Prompt) (groups : list (string * list Prompt))
  : option (list (string * list Prompt)) :=
  match prompts with
  | [] => Some groups
  | p :: rest =>
      let c := category_of p in
      if existsb (fun g => String.eqb (fst g) c) groups
      then promptsByCategory rest (push_to c p groups)
      else if inherited_member c then None
      else promptsByCategory rest (groups ++ [(c, [p])])
  end.

(** One accordion item of the rendered list. *)
Record CategoryGroup := {
  group_category : string;
  group_name : option string;        (* formatCategoryName(category) *)
  group_badge : nat;                 (* prompts.length *)
  group_expanded : bool;
  group_items : list PromptItem
}.

Definition lookup_group (groups : list (string * list Prompt)) (c : string) : list Prompt :=
  match find (fun g => String.eqb (fst g) c) groups with
  | Some g => snd g
  | None => []
  end.

(** What [renderPromptsByCategory(expandedCategory)] puts into the
    container: [Some []] is the empty state, [None] an exception. *)
Definition renderPromptsByCategory (availablePrompts : list Prompt)
           (expandedCategory : option string) : option (list CategoryGroup) :=
  match promptsByCategory availablePrompts [] with
  | None => None
  | Some groups =>
      Some (map (fun c =>
                   let prompts := lookup_group groups c in
                   {| group_category := c;
                      group_name := formatCategoryName c;
                      group_badge := List.length prompts;
                      group_expanded :=
                        match expandedCategory with
                        | Some x => String.eqb x c
                        | None => false
                        end;
                      group_items := map createPromptItemHTML prompts |})
                (Template.own_keys (map fst groups)))
  end.

(** What [handleSearch] shows for the text of the search box, the side
    menu being open with its list container. *)
Inductive SearchView :=
| ShowAll                               (* the 'all' tag is clicked *)
| NoMatch                               (* the empty state *)
| SearchResults (items : list Prompt).

Section Search.

(** [String.prototype.toLowerCase]: the lower-casing of the browser, which
    follows the Unicode case mappings.  The statements about the search
    say what they take of it. *)
Variable toLowerCase : string -> string.

Definition matches_query (query : string) (prompt : Prompt) : bool :=
  Str.includes (toLowerCase (title prompt)) query
  || Str.includes (toLowerCase (content prompt)) query.

Definition handleSearch (typed : string) (availablePrompts : list Prompt) : SearchView :=
  let query := toLowerCase (Text.trim typed) in
  if Str.truthy query then
    match filter (matches_query query) availablePrompts with
    | [] => NoMatch
    | filteredPrompts => SearchResults filteredPrompts
    end
  else ShowAll.

End Search.


(** What [filterPromptsByCategory(category)] puts into the container once
    its transition has run: the accordion of all categories for the tag
    [all] ([None] inside when rendering raises), the empty state, or the
    single category with its formatted name and its items. *)
Inductive CategoryView :=
| Accordion (groups : option (list CategoryGroup))
| EmptyCategory
| SingleCategory (name : option string) (items : list PromptItem).

(** [prompt.category === category], for a category that is not empty. *)
Definition has_category (c : string) (prompt : Prompt) : bool :=
  String.eqb (category prompt) c.

Definition filterPromptsByCategory (category : string)
           (lastExpandedCategory : option string) (availablePrompts : list Prompt)
  : CategoryView :=
  if String.eqb category "all"
  then Accordion (renderPromptsByCategory availablePrompts lastExpandedCategory)
  else match filter (has_category category) availablePrompts with
       | [] => EmptyCategory
       | filteredPrompts =>
           SingleCategory (formatCategoryName category)
                          (map createPromptItemHTML filteredPrompts)
       end.

(* ================================================================== *)
(** ** The prompt store *)

(** The script keeps the prompts in the variable [availablePrompts] and a
    copy under the key [prompts] of [chrome.storage.sync].  The variable
    is bound either to the array of the constant [DEFAULT_PROMPTS]
    ([availablePrompts = DEFAULT_PROMPTS]) or to an array of its own (the
    initial [[]], the array read from storage, the result of a [filter]).
    [push] and an indexed assignment change the array the variable is
    bound to; storage holds a serialised copy. *)
Record Store := {
  DEFAULT_PROMPTS : list Prompt;   (* the array the constant is bound to *)
  own : list Prompt;               (* the array of the variable, when it is another one *)
  aliased : bool;                  (* availablePrompts === DEFAULT_PROMPTS *)
  synced : option (list Prompt)    (* storage: [None] when absent or no array *)
}.

Definition availablePrompts (s : Store) : list Prompt :=
  if aliased s then DEFAULT_PROMPTS s else own s.

(** The five presets, before any change. *)
Definition presets : list Prompt :=
  [ {| prompt_id := "prompt-summary"; title := "概括总结"; category := "general";
       content := "请帮我总结以下内容的要点：" |};
    {| prompt_id := "prompt-code-explain"; title := "代码解释"; category := "coding";
       content := "请解释以下代码的功能和实现原理：" |};
    {| prompt_id := "prompt-translate"; title := "中英互译"; category := "translation";
       content := "请将以下内容翻译成{目标语言}，保持原意并使表达自然流畅：" |};
    {| prompt_id := "prompt-improve"; title := "改进建议"; category := "writing";
       content := "请对以下内容提出改进建议，使其更加清晰、专业：" |};
    {| prompt_id := "prompt-brainstorm"; title := "头脑风暴"; category := "creativity";
       content := String.append "请针对"
                   (String Html.quot
                      (String.append "{主题}"
                         (String Html.quot "提供10个创新的想法："))) |} ].

(** The store when the script is loaded: [let availablePrompts = []]. *)
Definition initial_store (stored : option (list Prompt)) : Store :=
  {| DEFAULT_PROMPTS := presets; own := []; aliased := false; synced := stored |}.

(** What the extension runtime decides. *)
Inductive GetResult :=
| GetOk                      (* the callback runs, lastError unset *)
| GetLastError               (* the callback runs, lastError set *)
| GetThrows                  (* the call raises *).

Inductive SetResult :=
| SetStored                  (* the callback runs, lastError unset *)
| SetLastError               (* the callback runs, lastError set; nothing is stored *)
| SetThrows (invalidated : bool)
    (* the call raises; whether the message includes
       'Extension context invalidated' *).

Record Chrome := {
  runtime_id : bool;          (* chrome.runtime?.id is truthy *)
  get_result : GetResult;
  set_result : SetResult;
  change_reported : bool;     (* a write that is stored fires storage.onChanged *)
  now : string                (* Date.now(), in decimal *)
}.

Inductive StoreError :=
| PromptNotFound (id : string)   (* new Error(`Prompt with ID ${id} not found`) *)
| LastError                      (* chrome.runtime.lastError *)
| Thrown                         (* an exception of the extension runtime *).

Inductive Settled := Fulfilled | Failed (e : StoreError).

Definition stored_as (prompts : list Prompt) (s : Store) : Store :=
  {| DEFAULT_PROMPTS := DEFAULT_PROMPTS s; own := own s; aliased := aliased s;
     synced := Some prompts |}.

(** [availablePrompts = DEFAULT_PROMPTS] *)
Definition bind_defaults (s : Store) : Store :=
  {| DEFAULT_PROMPTS := DEFAULT_PROMPTS s; own := own s; aliased := true;
     synced := synced s |}.

(** [availablePrompts = prompts] for a fresh array. *)
Definition bind_fresh (prompts : list Prompt) (s : Store) : Store :=
  {| DEFAULT_PROMPTS := DEFAULT_PROMPTS s; own := prompts; aliased := false;
     synced := synced s |}.

(** A change of the array [availablePrompts] is bound to. *)
Definition mutate (f : list Prompt -> list Prompt) (s : Store) : Store :=
  if aliased s
  then {| DEFAULT_PROMPTS := f (DEFAULT_PROMPTS s); own := own s; aliased := true;
          synced := synced s |}
  else {| DEFAULT_PROMPTS := DEFAULT_PROMPTS s; own := f (own s); aliased := false;
          synced := synced s |}.

(** The listener [initialize] gives to [chrome.storage.onChanged], for a
    change of the key [prompts] in the sync area:
    [availablePrompts = changes.prompts.newValue || []]. *)
Definition onChanged (newValue : option (list Prompt)) (s : Store) : Store :=
  bind_fresh (match newValue with Some l => l | None => [] end) s.

(** A write that takes effect: the value is stored and, when the runtime
    reports the change (it does when the value differs from the one
    held), the listener runs. *)
Definition store_prompts (c : Chrome) (prompts : list Prompt) (s : Store) : Store :=
  let s := stored_as prompts s in
  if change_reported c then onChanged (Some prompts) s else s.

(** [savePromptsToStorage(prompts)] *)
Definition savePromptsToStorage (c : Chrome) (prompts : list Prompt) (s : Store)
  : Store * Settled :=
  if negb (runtime_id c) then (s, Fulfilled)
  else match set_result c with
       | SetStored => (store_prompts c prompts s, Fulfilled)
       | SetLastError => (s, Failed LastError)
       | SetThrows invalidated => (s, if invalidated then Fulfilled else Failed Thrown)
       end.

(** Whether [loadPrompts] takes the defaults: the read failed, or storage
    holds no array with a prompt in it. *)
Definition falls_back (c : Chrome) (s : Store) : bool :=
  match get_result c with
  | GetLastError => true
  | GetOk => match synced s with Some (_ :: _) => false | _ => true end
  | GetThrows => false
  end.

(** [loadPrompts()].  The save of the defaults is not awaited: its result
    is logged only. *)
Definition loadPrompts (c : Chrome) (s : Store) : Store * Settled :=
  match get_result c with
  | GetThrows => (s, Failed Thrown)
  | GetLastError => (bind_defaults s, Fulfilled)
  | GetOk =>
      match synced s with
      | Some (p :: l) => (bind_fresh (p :: l) s, Fulfilled)
      | _ =>
          let s := bind_defaults s in
          (fst (savePromptsToStorage c (DEFAULT_PROMPTS s) s), Fulfilled)
      end
  end.

(** [if (!newPrompt.id) newPrompt.id = 'prompt-' + Date.now()]; a missing
    id is the empty string. *)
Definition with_id (c : Chrome) (newPrompt : Prompt) : Prompt :=
  if Str.truthy (prompt_id newPrompt) then newPrompt
  else {| prompt_id := ("prompt-" ++ now c)%string; title := title newPrompt;
          category := category newPrompt; content := content newPrompt |}.

(** [addPrompt(newPrompt)].  The refresh of an open side menu is not
    awaited and changes no prompt. *)
Definition addPrompt (c : Chrome) (newPrompt : Prompt) (s : Store) : Store * Settled :=
  let s := mutate (fun l => l ++ [with_id c newPrompt]) s in
  savePromptsToStorage c (availablePrompts s) s.

(** The fields of [updatedPrompt] that are present. *)
Record Patch := {
  new_title : option string;
  new_category : option string;
  new_content : option string
}.

(** [{...old, ...updatedPrompt, id}] *)
Definition merge (old : Prompt) (updatedPrompt : Patch) (id : string) : Prompt :=
  {| prompt_id := id;
     title := match new_title updatedPrompt with Some t => t | None => title old end;
     category := match new_category updatedPrompt with
                 | Some t => t | None => category old end;
     content := match new_content updatedPrompt with
                | Some t => t | None => content old end |}.

(** [availablePrompts.findIndex(p => p.id === id)] *)
Fixpoint findIndex (id : string) (l : list Prompt) : option nat :=
  match l with
  | [] => None
  | p :: rest =>
      if String.eqb (prompt_id p) id then Some 0
      else option_map S (findIndex id rest)
  end.

(** [l[index] = f(l[index])] for an index within the array. *)
Fixpoint assign_at (index : nat) (f : Prompt -> Prompt) (l : list Prompt) : list Prompt :=
  match l, index with
  | [], _ => []
  | p :: rest, O => f p :: rest
  | p :: rest, S k => p :: assign_at k f rest
  end.

(** [updatePrompt(id, updatedPrompt)] *)
Definition updatePrompt (c : Chrome) (id : string) (updatedPrompt : Patch) (s : Store)
  : Store * Settled :=
  match findIndex id (availablePrompts s) with
  | None => (s, Failed (PromptNotFound id))
  | Some index =>
      let s := mutate (assign_at index (fun old => merge old updatedPrompt id)) s in
      savePromptsToStorage c (availablePrompts s) s
  end.

(** [deletePrompt(id)] *)
Definition deletePrompt (c : Chrome) (id : string) (s : Store) : Store * Settled :=
  let newPrompts :=
    filter (fun p => negb (String.eqb (prompt_id p) id)) (availablePrompts s) in
  if List.length newPrompts =? List.length (availablePrompts s)
  then (s, Failed (PromptNotFound id))
  else
    let s := bind_fresh newPrompts s in
    savePromptsToStorage c (availablePrompts s) s.

(** The operations on the store, and the stores they lead to from the
    one the script starts with. *)
Inductive StoreOp :=
| OpLoad
| OpAdd (newPrompt : Prompt)
| OpUpdate (id : string) (updatedPrompt : Patch)
| OpDelete (id : string)
| OpChanged (newValue : option (list Prompt)).   (* a write by the popup *)

(** Storage written from outside, and the listener's answer to it. *)
Definition changed_outside (newValue : option (list Prompt)) (s : Store) : Store :=
  onChanged newValue
            {| DEFAULT_PROMPTS := DEFAULT_PROMPTS s; own := own s; aliased := aliased s;
               synced := newValue |}.

Definition run_op (c : Chrome) (op : StoreOp) (s : Store) : Store * Settled :=
  match op with
  | OpLoad => loadPrompts c s
  | OpAdd p => addPrompt c p s
  | OpUpdate id patch => updatePrompt c id patch s
  | OpDelete id => deletePrompt c id s
  | OpChanged newValue => (changed_outside newValue s, Fulfilled)
  end.

(** Each operation meets a runtime of its own. *)
Fixpoint run_ops (ops : list (Chrome * StoreOp)) (s : Store) : Store :=
  match ops with
  | [] => s
  | (c, op) :: rest => run_ops rest (fst (run_op c op s))
  end.

(* ================================================================== *)
(** ** The message listener *)







(* ================================================================== *)
(** ** The popup's side *)

Module Popup.

(** The site predicates of the popup take the URL of the tab. *)
Definition isChatGPTPage (url : string) : bool :=
  Str.includes url "chat.openai.com" || Str.includes url "chatgpt.com".

Definition isClaudePage (url : string) : bool := Str.includes url "claude.ai".

Definition isGeminiPage (url : string) : bool := Str.includes url "gemini.google.com".

Definition isGrokPage (url : string) : bool :=
  Str.includes url "grok.com" ||
  (Str.includes url "x.com" && Str.includes url "/i/grok").

Definition isPerplexityPage (url : string) : bool := Str.includes url "perplexity.ai".

Definition isDeepSeekPage (url : string) : bool := Str.includes url "chat.deepseek.com".

Definition isDoubaoPage (url : string) : bool := Str.includes url "doubao.com".

Definition isQwenPage (url : string) : bool :=
  Str.includes url "chat.qwen.ai" || Str.includes url "qianwen.aliyun.com".

Definition isSupportedAIPage (url : string) : bool :=
  isChatGPTPage url || isClaudePage url || isGeminiPage url || isGrokPage url ||
  isPerplexityPage url || isDeepSeekPage url || isDoubaoPage url || isQwenPage url.

End Popup.

(* ================================================================== *)
(** ** Identity of elements in a document *)

(** The elements of a subtree and of a document, in document order. *)
Fixpoint node_elements (n : Node) : list Element :=
  match n with
  | Nd e ch => e :: flat_map node_elements ch
  end.

Definition doc_elements (doc : list Node) : list Element :=
  flat_map node_elements doc.

(** [nid] stands for the identity of a DOM node: in a document no two
    elements share it. *)
Definition ids_identify (doc : list Node) : Prop :=
  forall x y, In x (doc_elements doc) -> In y (doc_elements doc) ->
              nid x = nid y -> x = y.

(** An element without what the script writes to it: the content and the
    selection. *)
Definition frame (e : Element) : Element := write e "" "" 0 0.

(** What [update_node] puts in the place of an element. *)
Definition replaced (el x : Element) : Element :=
  if Nat.eqb (nid x) (nid el) then el else x.

(** [replaced el] changes nothing but content and selection in [x]. *)
Definition keeps (el x : Element) : Prop := frame (replaced el x) = frame x.

(** [replaced el] on an element with its position, and on an entry of a
    walk. *)
Definition placed (el : Element) (a : Css.Placed) : Css.Placed :=
  (replaced el (fst a), snd a).

Definition lifted (el : Element) (h : Css.Placed * list Css.Placed)
  : Css.Placed * list Css.Placed :=
  (placed el (fst h), map (placed el) (snd h)).

(* ================================================================== *)
(** ** Prompts, runtimes and addresses used as examples *)

Module Samples.

(** The runtime in good order. *)
Definition working : Chrome :=
  {| runtime_id := true; get_result := GetOk; set_result := SetStored;
     change_reported := true; now := "1700000000000" |}.

(** Writes are refused (the quota is exceeded, say). *)
Definition refusing : Chrome :=
  {| runtime_id := true; get_result := GetOk; set_result := SetLastError;
     change_reported := false; now := "1700000000000" |}.

(** Storage cannot be read. *)
Definition unreadable : Chrome :=
  {| runtime_id := true; get_result := GetLastError; set_result := SetLastError;
     change_reported := false; now := "1700000000000" |}.

(** A prompt sent without an id. *)
Definition note : Prompt :=
  {| prompt_id := ""; title := "Note"; category := "writing";
     content := "Rewrite the text below." |}.

(** The store after a first load that could not read storage. *)
Definition after_failed_read : Store :=
  fst (loadPrompts unreadable (initial_store None)).

(** Grok on x.com. *)
Definition grok_on_x : Location :=
  {| href := "https://x.com/i/grok"; pathname := "/i/grok" |}.

(** The ideographic space U+3000, by its UTF-8 units. *)
Definition ideographic_space : string :=
  String (ascii_of_nat 227) (String (ascii_of_nat 128) (String (ascii_of_nat 128) EmptyString)).

End Samples.

(* ================================================================== *)
(** * Properties *)

(** ** Classification *)


(** ** Input locator *)

Lemma first_visible_match_flat (doc : list Node) (sels : list Css.Selector) :
  first_visible_match doc sels = find visible (flat_map (querySelectorAll doc) sels).
Proof.
  induction sels as [|sel rest IH]; cbn [first_visible_match flat_map].
  - reflexivity.
  - rewrite IH. generalize (querySelectorAll doc sel) as l.
    induction l as [|e l IHl]; cbn [find app].
    + reflexivity.
    + destruct (visible e); [reflexivity | exact IHl].
Qed.

Lemma find_none_iff {A} (f : A -> bool) (l : list A) :
  find f l = None <-> forall x, In x l -> f x = false.
Proof.
  split.
  - intros H x Hx. exact (find_none f l H x Hx).
  - induction l as [|a l IH]; intro H; cbn [find].
    + reflexivity.
    + rewrite (H a (or_introl eq_refl)). apply IH. intros x Hx. apply H. now right.
Qed.




(** ** Template resolver *)

Lemma pattern_literal_escape (key rest : string) :
  Template.pattern_literal (Template.escape_key key ++ rest)
  = option_map (String.append key) (Template.pattern_literal rest).
Proof.
  induction key as [|c key IH]; cbn [Template.escape_key String.append].
  - destruct (Template.pattern_literal rest); reflexivity.
  - destruct (Template.regex_special c) eqn:Hc.
    + cbn [String.append Template.pattern_literal].
      assert (Hb : Ascii.eqb "\" "\" = true) by reflexivity.
      rewrite Hb, Hc, IH. destruct (Template.pattern_literal rest); reflexivity.
    + cbn [String.append Template.pattern_literal]. rewrite Hc.
      destruct (Ascii.eqb c "\") eqn:Hs.
      * apply Ascii.eqb_eq in Hs. subst c. discriminate Hc.
      * rewrite IH. destruct (Template.pattern_literal rest); reflexivity.
Qed.

(** The pattern built from a key matches the token [{key}] literally. *)
Lemma pattern_of_key (key : string) :
  Template.pattern_literal ("\{" ++ Template.escape_key key ++ "\}")
  = Some ("{" ++ key ++ "}")%string.
Proof.
  change ("\{" ++ Template.escape_key key ++ "\}")%string
    with (String "\" (String "{" (Template.escape_key key ++ "\}")))%string.
  cbn [Template.pattern_literal].
  change (Ascii.eqb "\" "\") with true. cbn iota.
  change (Template.regex_special "{") with true. cbn iota.
  rewrite pattern_literal_escape. reflexivity.
Qed.

Lemma set_add_NoDup (x : string) (l : list string) :
  NoDup l -> NoDup (Template.set_add x l).
Proof.
  intro H. unfold Template.set_add.
  destruct (existsb (String.eqb x) l) eqn:E; [exact H |].
  assert (Hx : ~ In x l).
  { intro Hin. rewrite <- Bool.not_true_iff_false in E. apply E.
    apply existsb_exists. exists x. split; [exact Hin | apply String.eqb_refl]. }
  clear E. induction H as [|a l Ha Hl IH]; cbn.
  - constructor; [intros [] | constructor].
  - constructor.
    + rewrite in_app_iff. intros [Hin | [Heq | []]].
      * exact (Ha Hin).
      * apply Hx. left. symmetry. exact Heq.
    + apply IH. intro Hin. apply Hx. right. exact Hin.
Qed.

(** Repeated names collapse: the array handed to the modal has no
    repetition, for every template. *)
Lemma variables_NoDup (text : string) : NoDup (Template.variables text).
Proof.
  unfold Template.variables.
  assert (G : forall names acc, NoDup acc ->
            NoDup (fold_left (fun acc name => if Str.all_space name then acc
                                              else Template.set_add name acc) names acc)).
  { induction names as [|n names IH]; intros acc Hacc; cbn [fold_left].
    - exact Hacc.
    - apply IH. destruct (Str.all_space n); [exact Hacc | now apply set_add_NoDup]. }
  apply G. constructor.
Qed.

(** C3: the template [{a}-{a}-{b}] gives one field for [a] and one for
    [b], in that order; with 1 typed for [a] and 2 for [b] every occurrence
    is replaced and the text handed to the insertion is [1-1-2]. *)
Theorem C3_repeated_placeholder_resolved_once (typed : string -> string) :
  typed "a" = "1" -> typed "b" = "2" ->
  Template.variables "{a}-{a}-{b}" = ["a"; "b"] /\
  showVariableInputModal ["a"; "b"] (Submit typed)
    = ([ShowModal ["a"; "b"]; CloseModal], Some [("a", "1"); ("b", "2")]) /\
  Template.substitute_all "{a}-{a}-{b}" [("a", "1"); ("b", "2")] = "1-1-2" /\
  forall (env : Env) (p : Page),
    let r := insertPromptText env (Submit typed) "{a}-{a}-{b}" p in
    let low := _performInsertion env "1-1-2" p in
    outcome r = outcome low /\ page_after r = page_after low /\
    target r = target low /\
    trace r = tagged Resolver [Log LogStartProcess; Log (LogVariablesDetected ["a"; "b"])]
              ++ tagged Modal [ShowModal ["a"; "b"]; CloseModal] ++ trace low.
Proof.
  intros Ha Hb.
  assert (Hm : showVariableInputModal ["a"; "b"] (Submit typed)
               = ([ShowModal ["a"; "b"]; CloseModal], Some [("a", "1"); ("b", "2")])).
  { unfold showVariableInputModal.
    change (Template.own_keys ["a"; "b"]) with ["a"; "b"].
    cbn [map]. rewrite Ha, Hb. reflexivity. }
  split; [reflexivity |]. split; [exact Hm |]. split; [reflexivity |].
  intros env p. unfold insertPromptText.
  change (Template.variables "{a}-{a}-{b}") with ["a"; "b"].
  cbv beta iota zeta. rewrite Hm. cbn [snd fst].
  change (Template.substitute_all "{a}-{a}-{b}" [("a", "1"); ("b", "2")]) with "1-1-2".
  cbn. repeat split; reflexivity.
Qed.

Lemma C3_repeated_placeholder_witness :
  Fixtures.one_two "a" = "1" /\ Fixtures.one_two "b" = "2" /\
  Template.variables "{a}-{a}-{b}" = ["a"; "b"] /\
  Template.substitute_all "{a}-{a}-{b}" [("a", "1"); ("b", "2")] = "1-1-2" /\
  option_map value
    (target (insertPromptText Fixtures.write_only_env (Submit Fixtures.one_two)
                              "{a}-{a}-{b}" Fixtures.chatgpt_page))
  = Some "1-1-2".
Proof.
  split; [reflexivity |]. split; [reflexivity |].
  destruct (C3_repeated_placeholder_resolved_once Fixtures.one_two eq_refl eq_refl)
    as [Hv [_ [Hs Hrun]]].
  split; [exact Hv |]. split; [exact Hs |].
  destruct (Hrun Fixtures.write_only_env Fixtures.chatgpt_page) as [_ [_ [Ht _]]].
  rewrite Ht. vm_compute. reflexivity.
Defined.

Lemma tagged_origin (o : Origin) (l : list Action) :
  Forall (origin_is o) (tagged o l).
Proof.
  unfold tagged. induction l as [|a l IH]; cbn; constructor; [reflexivity | exact IH].
Qed.

Lemma sendPrompt_origin (p : Page) : Forall (origin_is Sender) (trace (sendPrompt p)).
Proof.
  unfold sendPrompt.
  destruct (findChatGPTInput p) as [ta|]; [| apply tagged_origin].
  destruct (useKeyboardFirst (location p)); [apply tagged_origin |].
  destruct (find_send_button _ _) as [b|]; [| apply tagged_origin].
  destruct (negb (disabled b)); apply tagged_origin.
Qed.



(** What [insertPromptText] does when the modal is dismissed. *)
Lemma insertPromptText_cancelled (env : Env) (user : UserAction) (text : string) (p : Page) :
  Template.variables text <> [] -> cancels user = true ->
  insertPromptText env user text p
  = {| outcome := Resolved; page_after := p; target := None;
       trace := tagged Resolver [Log LogStartProcess;
                                 Log (LogVariablesDetected (Template.variables text))]
                ++ tagged Modal [ShowModal (Template.variables text); CloseModal]
                ++ tagged Resolver [Log LogUserCancelled] |}.
Proof.
  intros Hv Hc. unfold insertPromptText.
  destruct (Template.variables text) as [|v vs] eqn:E; [contradiction |].
  destruct user; [discriminate Hc | reflexivity | reflexivity].
Qed.

(** C4: the send button of a prompt on a ChatGPT page with a working send
    control, the template [Translate {text}], the user dismissing the
    modal by its cancel button or by a click on the overlay, in any
    environment.  No insertion strategy runs, but the promise of
    [insertPromptText] is fulfilled, so the handler's chain goes on: after
    its wait [sendPrompt] clicks the send button, which submits what the
    input holds, and the handler logs that the prompt was sent.  The flow
    is not aborted by the cancellation. *)
Theorem C4_cancelled_send_flow_is_not_aborted (env : Env) :
  Template.variables "Translate {text}" = ["text"] /\
  cancels CancelButton = true /\ cancels ClickOverlay = true /\
  outcome (insertPromptText env CancelButton "Translate {text}"
                            Fixtures.chatgpt_send_page) = Resolved /\
  trace (onSendClick env CancelButton "Translate {text}" Fixtures.chatgpt_send_page)
  = [ (Resolver, Log LogStartProcess);
      (Resolver, Log (LogVariablesDetected ["text"]));
      (Modal, ShowModal ["text"]);
      (Modal, CloseModal);
      (Resolver, Log LogUserCancelled);
      (Handler, SetTimeout 100%N);
      (Sender, Log LogAttemptSend);
      (Sender, Log LogFoundSendButton);
      (Sender, SetTimeout 50%N);
      (Sender, Click 5);
      (Sender, Log LogSentByClick);
      (Handler, CloseSideMenu);
      (Handler, Deferred 200%N LaterCollapseButton);
      (Handler, Log LogPromptSent) ] /\
  trace (onSendClick env ClickOverlay "Translate {text}" Fixtures.chatgpt_send_page)
  = trace (onSendClick env CancelButton "Translate {text}" Fixtures.chatgpt_send_page).
Proof.
  repeat split; vm_compute; reflexivity.
Qed.

(** ** Insertion cascade *)

Lemma _performInsertion_located (env : Env) (text : string) (p : Page) (e : Element) :
  findAIInput p = Some e -> focus_throws env = false ->
  _performInsertion env text p
  = let r := cascade env text (located p e) in
    {| outcome := Resolved;
       page_after := update_page p (el (fst r)) (clip (fst r));
       target := Some (el (fst r));
       trace := tagged Inserter (acts (fst r)) |}.
Proof.
  intros Hf Hn. unfold _performInsertion, findChatGPTInput. rewrite Hf, Hn. reflexivity.
Qed.

Lemma el_emit (a : Action) (s : St) : el (emit a s) = el s.
Proof. reflexivity. Qed.


Lemma el_cursorToEnd (len : nat) (s : St) :
  el (cursorToEnd len s) = setCursorToEnd (el s) len.
Proof. reflexivity. Qed.







Lemma same_identity_refl (e : Element) : same_identity e e.
Proof. repeat split; reflexivity. Qed.

Lemma same_identity_trans (a b c : Element) :
  same_identity a b -> same_identity b c -> same_identity a c.
Proof.
  intros [H1 [H2 [H3 H4]]] [G1 [G2 [G3 G4]]].
  repeat split; congruence.
Qed.

Lemma write_identity (e : Element) (v t : string) (a b : nat) :
  same_identity e (write e v t a b).
Proof. repeat split; reflexivity. Qed.

Lemma select_all_identity (e : Element) : same_identity e (select_all e).
Proof.
  unfold select_all. destruct (is_text_control e); apply write_identity.
Qed.

Lemma setCursorToEnd_identity (e : Element) (len : nat) :
  same_identity e (setCursorToEnd e len).
Proof.
  unfold setCursorToEnd.
  destruct (is_text_control e); [apply write_identity |].
  destruct (isContentEditable e); [apply write_identity | apply same_identity_refl].
Qed.

Lemma insert_at_selection_identity (e : Element) (ins : string) :
  same_identity e (insert_at_selection e ins).
Proof.
  unfold insert_at_selection.
  destruct (is_text_control e); [apply write_identity |].
  destruct (isContentEditable e); [apply write_identity | apply same_identity_refl].
Qed.

Lemma same_identity_textarea (e e' : Element) :
  same_identity e e' -> is_textarea e' = is_textarea e.
Proof. intros [_ [H _]]. unfold is_textarea. rewrite H. reflexivity. Qed.


Lemma same_identity_editable (e e' : Element) :
  same_identity e e' -> isContentEditable e' = isContentEditable e.
Proof. intros [_ [_ [H _]]]. exact H. Qed.

Lemma same_identity_applicable (e e' : Element) :
  same_identity e e' -> direct_applicable e' = direct_applicable e.
Proof.
  intro H. unfold direct_applicable.
  rewrite (same_identity_textarea e e' H), (same_identity_editable e e' H). reflexivity.
Qed.

Lemma acts_emit (a : Action) (s : St) : acts (emit a s) = acts s ++ [a].
Proof. reflexivity. Qed.

Lemma acts_on_el (f : Element -> Element) (s : St) : acts (on_el f s) = acts s.
Proof. reflexivity. Qed.

Lemma el_on_el (f : Element -> Element) (s : St) : el (on_el f s) = f (el s).
Proof. reflexivity. Qed.

Lemma acts_cursorToEnd (len : nat) (s : St) :
  acts (cursorToEnd len s) = acts s ++ [CursorToEnd (nid (el s)) len].
Proof.
  unfold cursorToEnd. rewrite acts_emit, acts_on_el. reflexivity.
Qed.

Lemma exec_insertText_failed (env : Env) (text : string) (s : St) :
  insertText_ok env = false ->
  snd (exec_insertText env text s) = false /\
  el (fst (exec_insertText env text s)) = select_all (el s) /\
  acts (fst (exec_insertText env text s))
  = acts s ++ [Log LogTryingExecCommand; SelectAll (nid (el s));
               ExecCommand "insertText" false].
Proof.
  intro Hx. unfold exec_insertText. rewrite Hx. cbv zeta. cbn [fst snd].
  split; [reflexivity |]. split; [reflexivity |].
  rewrite !acts_emit, acts_on_el, acts_emit, el_emit.
  repeat rewrite <- app_assoc. reflexivity.
Qed.

Lemma react_onChange_inapplicable (text : string) (s : St) :
  direct_applicable (el s) = false ->
  snd (react_onChange text s) = reactOnChange (el s) /\
  acts (fst (react_onChange text s))
  = acts s ++ [CursorToEnd (nid (el s)) (String.length text);
               ReactLookup (nid (el s)) (reactOnChange (el s))]
           ++ (if reactOnChange (el s)
               then [Log LogTriggeringReact;
                     Deferred 0%N (LaterReactOnChange (String.length text))]
               else []).
Proof.
  unfold direct_applicable. intro Hd.
  apply Bool.orb_false_iff in Hd. destruct Hd as [Ht Hc].
  unfold react_onChange. rewrite Ht, Hc. cbv zeta.
  remember (cursorToEnd (String.length text) s) as s1 eqn:E1.
  assert (Hacts : acts s1 = acts s ++ [CursorToEnd (nid (el s)) (String.length text)])
    by (rewrite E1; apply acts_cursorToEnd).
  assert (Hid : same_identity (el s) (el s1))
    by (rewrite E1, el_cursorToEnd; apply setCursorToEnd_identity).
  destruct Hid as [Hn [_ [_ Hr]]].
  rewrite !el_emit, Hr, Hn.
  destruct (reactOnChange (el s)); cbn [fst snd]; (split; [reflexivity |]);
    rewrite !acts_emit, Hacts; repeat rewrite <- app_assoc; reflexivity.
Qed.

Lemma direct_exhausted (env : Env) (text : string) (s : St) :
  direct_applicable (el s) = false -> insertText_ok env = false ->
  acts (fst (insertWithDirectMethod env text s))
  = acts s ++ exhausted_tail (String.length text) (el s) /\
  snd (insertWithDirectMethod env text s) = reactOnChange (el s).
Proof.
  intros Hd Hx.
  destruct (exec_insertText_failed env text s Hx) as [H3s [H3e H3a]].
  assert (Hd3 : direct_applicable (el (fst (exec_insertText env text s))) = false).
  { rewrite H3e, (same_identity_applicable _ _ (select_all_identity (el s))). exact Hd. }
  destruct (react_onChange_inapplicable text _ Hd3) as [H4s H4a].
  destruct (select_all_identity (el s)) as [Hn [_ [_ Hr]]].
  rewrite H3e, Hn, Hr in H4a. rewrite H3e, Hr in H4s.
  unfold insertWithDirectMethod.
  unfold direct_applicable in Hd. apply Bool.orb_false_iff in Hd. destruct Hd as [Ht Hc].
  rewrite Ht, Hc. cbv zeta. cbn [fst snd]. rewrite H3s. cbn [fst snd].
  rewrite !acts_emit, H4a, H3a, H4s. unfold exhausted_tail.
  repeat rewrite <- app_assoc. cbn [app]. split; reflexivity.
Qed.

Lemma clear_for_paste_identity (s : St) :
  same_identity (el s) (el (clear_for_paste s)).
Proof.
  unfold clear_for_paste.
  destruct (is_textarea (el s)); [apply write_identity |].
  destruct (isContentEditable (el s)); [apply write_identity | apply same_identity_refl].
Qed.

Lemma paste_attempt_identity (env : Env) (s : St) :
  same_identity (el s) (el (paste_attempt env s)).
Proof.
  unfold paste_attempt. cbv zeta. rewrite el_emit.
  destruct (paste_permitted env).
  - rewrite el_on_el, !el_emit.
    eapply same_identity_trans; [apply clear_for_paste_identity |].
    apply insert_at_selection_identity.
  - rewrite !el_emit. apply clear_for_paste_identity.
Qed.

(** The element a paste attempt leaves depends on the element and the
    clipboard only. *)
Lemma paste_attempt_el (env : Env) (s1 s2 : St) :
  el s1 = el s2 -> clip s1 = clip s2 ->
  el (paste_attempt env s1) = el (paste_attempt env s2).
Proof.
  intros He Hc.
  assert (Hcl : el (clear_for_paste s1) = el (clear_for_paste s2)).
  { unfold clear_for_paste. rewrite He.
    destruct (is_textarea (el s2));
      [rewrite !el_emit, !el_on_el, He; reflexivity |].
    destruct (isContentEditable (el s2));
      [rewrite !el_emit, !el_on_el, He; reflexivity | exact He]. }
  assert (Hcc : clip (clear_for_paste s1) = clip (clear_for_paste s2)).
  { unfold clear_for_paste.
    destruct (is_textarea (el s1)), (is_textarea (el s2)),
      (isContentEditable (el s1)), (isContentEditable (el s2)); exact Hc. }
  unfold paste_attempt. cbv zeta. rewrite !el_emit.
  destruct (paste_permitted env).
  - rewrite !el_on_el, !el_emit. unfold emit at 1 3. cbn [clip].
    unfold emit at 1 2. cbn [clip]. rewrite Hcl, Hcc. reflexivity.
  - rewrite !el_emit. exact Hcl.
Qed.

Lemma paste_attempt_acts (env : Env) (s : St) :
  exists l, acts (paste_attempt env s) = acts s ++ l /\
            Forall (fun a => is_outcome_log a = false) l.
Proof.
  assert (Hc : exists l, acts (clear_for_paste s) = acts s ++ l /\
                         Forall (fun a => is_outcome_log a = false) l).
  { unfold clear_for_paste.
    destruct (is_textarea (el s)).
    - eexists. rewrite acts_emit, acts_on_el. split; [reflexivity | repeat constructor].
    - destruct (isContentEditable (el s)).
      + eexists. rewrite acts_emit, acts_on_el. split; [reflexivity | repeat constructor].
      + exists []. rewrite app_nil_r. split; [reflexivity | constructor]. }
  destruct Hc as [l [Hl Hf]].
  unfold paste_attempt. cbv zeta. rewrite acts_emit.
  destruct (paste_permitted env); rewrite ?acts_on_el, !acts_emit, Hl;
    repeat rewrite <- app_assoc; eexists; (split; [reflexivity |]);
    repeat rewrite Forall_app; repeat split; try exact Hf; repeat constructor.
Qed.

(** When strategy 1 is not verified the cascade is the direct method, run
    on the same element (up to what the paste attempt wrote) after actions
    that log no outcome. *)
Lemma cascade_unverified (env : Env) (text : string) (s : St) :
  paste_verified env text (el s) = false ->
  exists s', cascade env text s
             = (fst (insertWithDirectMethod env text s'),
                Some (snd (insertWithDirectMethod env text s'))) /\
             same_identity (el s) (el s') /\
             exists l, acts s' = acts s ++ l /\
                       Forall (fun a => is_outcome_log a = false) l.
Proof.
  unfold paste_verified, cascade. intro Hp.
  destruct (clipboard_api env); [destruct (writeText_ok env) |]; cbn [andb] in Hp;
    cbv zeta.
  - set (s0 := put_clip text (emit (ClipboardWrite text true)
                                   (emit (Log LogUsingClipboard) s))).
    assert (E : el (paste_attempt env s0)
                = el (paste_attempt env {| el := el s; clip := text; acts := [] |}))
      by (apply paste_attempt_el; reflexivity).
    rewrite E, Hp.
    exists (emit (Log LogPasteFailed) (paste_attempt env s0)).
    split; [reflexivity |]. split.
    + rewrite el_emit. apply (paste_attempt_identity env s0).
    + destruct (paste_attempt_acts env s0) as [l [Hl Hf]].
      rewrite acts_emit, Hl. subst s0. unfold put_clip. cbn [acts].
      rewrite !acts_emit. repeat rewrite <- app_assoc. eexists. split; [reflexivity |].
      cbn [app]. repeat constructor. rewrite Forall_app. split; [exact Hf | repeat constructor].
  - eexists. split; [reflexivity |]. split; [apply same_identity_refl |].
    rewrite !acts_emit. repeat rewrite <- app_assoc. eexists. split; [reflexivity |].
    repeat constructor.
  - eexists. split; [reflexivity |]. split; [apply same_identity_refl |].
    rewrite !acts_emit. eexists. split; [reflexivity |]. repeat constructor.
Qed.

(** C5: when the paste is not verified, the direct assignment has no
    branch for the element and the [insertText] command fails, the direct
    method goes on to strategy 4, the lookup of the React handler, before
    it logs the outcome; the outcome it then logs is what strategy 4
    found.  The same is stated for [insertWithDirectMethod] alone. *)
Theorem C5_react_handler_tried_before_giving_up
  (env : Env) (text : string) (p : Page) (e : Element) :
  findAIInput p = Some e -> focus_throws env = false ->
  paste_verified env text e = false ->
  direct_applicable e = false ->
  insertText_ok env = false ->
  (exists before,
     trace (_performInsertion env text p)
     = tagged Inserter (before ++ exhausted_tail (String.length text) e) /\
     Forall (fun a => is_outcome_log a = false) before) /\
  In (ReactLookup (nid e) (reactOnChange e)) (exhausted_tail (String.length text) e) /\
  logged_success (trace (_performInsertion env text p)) = Some (reactOnChange e) /\
  forall s : St, el s = e ->
    acts (fst (insertWithDirectMethod env text s))
    = acts s ++ exhausted_tail (String.length text) e.
Proof.
  intros Hf Hn Hp Hd Hx.
  assert (Hdirect : forall s : St, same_identity e (el s) ->
            acts (fst (insertWithDirectMethod env text s))
            = acts s ++ exhausted_tail (String.length text) e).
  { intros s Hi.
    assert (Hd' : direct_applicable (el s) = false)
      by (rewrite (same_identity_applicable _ _ Hi); exact Hd).
    destruct (direct_exhausted env text s Hd' Hx) as [Ha _].
    destruct Hi as [H1 [_ [_ H4]]].
    rewrite Ha. unfold exhausted_tail. rewrite H1, H4. reflexivity. }
  assert (Hmain : exists before,
     trace (_performInsertion env text p)
     = tagged Inserter (before ++ exhausted_tail (String.length text) e) /\
     Forall (fun a => is_outcome_log a = false) before).
  { rewrite (_performInsertion_located env text p e Hf Hn). cbv zeta. cbn [trace].
    destruct (cascade_unverified env text (located p e) Hp) as [s' [Hc [Hi [l [Hl Hfl]]]]].
    rewrite Hc. cbn [fst]. rewrite (Hdirect s' Hi), Hl.
    eexists. split; [reflexivity |].
    rewrite Forall_app. split; [| exact Hfl]. cbn. repeat constructor. }
  split; [exact Hmain |]. split.
  { unfold exhausted_tail. cbn. do 4 right. left. reflexivity. }
  split.
  { destruct Hmain as [before [Ht Hb]]. rewrite Ht.
    unfold logged_success, tagged, exhausted_tail.
    rewrite !map_app, !fold_left_app.
    cbn. reflexivity. }
  intros s Hs. apply Hdirect. rewrite Hs. apply same_identity_refl.
Qed.

Lemma C5_react_handler_witness :
  findAIInput Fixtures.deepseek_input_page = Some Fixtures.text_input /\
  logged_success (trace (_performInsertion Fixtures.write_only_env "hello"
                                           Fixtures.deepseek_input_page))
  = Some false.
Proof.
  split; [vm_compute; reflexivity |].
  refine (proj1 (proj2 (proj2
    (C5_react_handler_tried_before_giving_up
       Fixtures.write_only_env "hello" Fixtures.deepseek_input_page Fixtures.text_input
       _ eq_refl _ eq_refl eq_refl)))); vm_compute; reflexivity.
Defined.

(** C2: an input on which every strategy fails.  The only visible
    candidate on a DeepSeek page is [<input type="text">], the clipboard
    write is rejected (or the Clipboard API is absent), the [insertText]
    command fails and there is no React handler: the direct method logs
    that the insertion may have failed and resolves.  Nothing is copied to
    the clipboard, no notification is shown and the field is still empty.
    With a writable clipboard the text is copied by strategy 1, and there
    is still no notification. *)
Theorem C2_exhausted_cascade_is_silent :
  let r := _performInsertion Fixtures.unfocused_env "hello" Fixtures.deepseek_input_page in
  let r' := _performInsertion Fixtures.bare_env "hello" Fixtures.deepseek_input_page in
  findAIInput Fixtures.deepseek_input_page = Some Fixtures.text_input /\
  logged_success (trace r) = Some false /\
  outcome r = Resolved /\
  existsb is_notification (trace r) = false /\
  existsb is_clipboard_copy (trace r) = false /\
  clipboard (page_after r) = clipboard Fixtures.deepseek_input_page /\
  option_map value (target r) = Some "" /\
  logged_success (trace r') = Some false /\
  outcome r' = Resolved /\
  existsb is_notification (trace r') = false /\
  existsb is_clipboard_copy (trace r') = false /\
  existsb is_notification
    (trace (_performInsertion Fixtures.write_only_env "hello"
                              Fixtures.deepseek_input_page)) = false.
Proof.
  cbv zeta. repeat split; vm_compute; reflexivity.
Qed.





(** *** The actions of the cascade *)

Section Extends.

Variable P : Action -> Prop.

Lemma extends_refl (s : St) : extends P s s.
Proof.
  split; [apply same_identity_refl |].
  exists []. rewrite app_nil_r. split; [reflexivity | constructor].
Qed.

Lemma extends_trans (s1 s2 s3 : St) :
  extends P s1 s2 -> extends P s2 s3 -> extends P s1 s3.
Proof.
  intros [I1 [l1 [H1 F1]]] [I2 [l2 [H2 F2]]].
  split; [exact (same_identity_trans _ _ _ I1 I2) |].
  exists (l1 ++ l2).
  rewrite H2, H1, app_assoc. split; [reflexivity |].
  rewrite Forall_app. split; assumption.
Qed.

Lemma extends_emit (a : Action) (s s' : St) :
  P a -> extends P s s' -> extends P s (emit a s').
Proof.
  intros Ha H. eapply extends_trans; [exact H |].
  split; [apply same_identity_refl |].
  exists [a]. split; [reflexivity | repeat constructor; exact Ha].
Qed.

Lemma extends_on_el (f : Element -> Element) (s s' : St) :
  (forall e, same_identity e (f e)) -> extends P s s' -> extends P s (on_el f s').
Proof.
  intros Hf [I [l [H F]]]. split.
  - rewrite el_on_el. exact (same_identity_trans _ _ _ I (Hf (el s'))).
  - exists l. split; [exact H | exact F].
Qed.

Lemma extends_put_clip (c : string) (s s' : St) :
  extends P s s' -> extends P s (put_clip c s').
Proof. intros [I [l [H F]]]. split; [exact I |]. exists l. split; [exact H | exact F]. Qed.

End Extends.

Ltac identity_step :=
  intro;
  first [ apply setCursorToEnd_identity
        | apply insert_at_selection_identity
        | apply select_all_identity
        | apply write_identity ].

Ltac step_extends :=
  repeat lazymatch goal with
    | |- extends _ _ (emit _ _) =>
        apply extends_emit; [cbn; first [exact I | reflexivity] |]
    | |- extends _ _ (on_el _ _) => apply extends_on_el; [identity_step |]
    | |- extends _ _ (put_clip _ _) => apply extends_put_clip
    | |- extends _ ?s ?s => apply extends_refl
    end.

Section Benign.

Variable env : Env.
Variable text : string.

Lemma direct_textarea_benign (s0 s : St) :
  extends (benign (String.length text)) s0 s ->
  extends (benign (String.length text)) s0
          (direct_textarea text s).
Proof.
  intro H. unfold direct_textarea, dispatch, cursorToEnd. cbv zeta.
  step_extends. exact H.
Qed.

Lemma direct_contenteditable_benign (s0 s : St) :
  extends (benign (String.length text)) s0 s ->
  extends (benign (String.length text)) s0
          (direct_contenteditable env text s).
Proof.
  intro H. unfold direct_contenteditable, dispatch, cursorToEnd. cbv zeta.
  match goal with |- context [if Str.truthy ?c then _ else _] =>
    destruct (Str.truthy c) end;
    destruct (editor_takes_insertText env); step_extends; exact H.
Qed.

Lemma exec_insertText_benign (s0 s : St) :
  extends (benign (String.length text)) s0 s ->
  extends (benign (String.length text)) s0
          (fst (exec_insertText env text s)).
Proof.
  intro H. unfold exec_insertText, dispatch, cursorToEnd. cbv zeta.
  destruct (insertText_ok env); cbn [fst]; step_extends; exact H.
Qed.

Lemma react_onChange_benign (s0 s : St) :
  extends (benign (String.length text)) s0 s ->
  extends (benign (String.length text)) s0
          (fst (react_onChange text s)).
Proof.
  intro H. unfold react_onChange, cursorToEnd. cbv zeta.
  match goal with |- context [if reactOnChange ?c then _ else _] =>
    destruct (reactOnChange c) end;
    cbn [fst]; destruct (is_textarea (el s)); try destruct (isContentEditable (el s));
    step_extends; exact H.
Qed.

Lemma insertWithDirectMethod_benign (s0 s : St) :
  extends (benign (String.length text)) s0 s ->
  extends (benign (String.length text)) s0
          (fst (insertWithDirectMethod env text s)).
Proof.
  intro H. unfold insertWithDirectMethod. cbv zeta. cbn [fst].
  apply extends_emit; [exact I |]. apply extends_emit; [reflexivity |].
  destruct (is_textarea (el s)); cbn [fst snd].
  - apply direct_textarea_benign. exact H.
  - destruct (isContentEditable (el s)); cbn [fst snd].
    + apply direct_contenteditable_benign. exact H.
    + destruct (snd (exec_insertText env text s)).
      * apply exec_insertText_benign. exact H.
      * apply react_onChange_benign. apply exec_insertText_benign. exact H.
Qed.

Lemma paste_attempt_benign (s0 s : St) :
  extends (benign (String.length text)) s0 s ->
  extends (benign (String.length text)) s0
          (paste_attempt env s).
Proof.
  intro H. unfold paste_attempt, clear_for_paste. cbv zeta.
  destruct (paste_permitted env), (is_textarea (el s)), (isContentEditable (el s));
    step_extends; exact H.
Qed.

Lemma cascade_benign (s0 s : St) :
  extends (benign (String.length text)) s0 s ->
  extends (benign (String.length text)) s0
          (fst (cascade env text s)).
Proof.
  intro H. unfold cascade. cbv zeta.
  destruct (clipboard_api env); [destruct (writeText_ok env) |]; cbn [fst].
  - match goal with |- context [if hasContent ?c then _ else _] =>
      destruct (hasContent c) end; cbn [fst].
    + unfold dispatch, cursorToEnd. step_extends.
      apply paste_attempt_benign. step_extends. exact H.
    + apply insertWithDirectMethod_benign. step_extends.
      apply paste_attempt_benign. step_extends. exact H.
  - apply insertWithDirectMethod_benign. step_extends. exact H.
  - apply insertWithDirectMethod_benign. step_extends. exact H.
Qed.

End Benign.

(** *** What the cascade leaves in the element *)

Lemma append_nil_r (s : string) : (s ++ "")%string = s.
Proof. induction s as [|c s IH]; cbn; [reflexivity | rewrite IH; reflexivity]. Qed.






























(** The cascade run from the located element: it keeps the element's
    identity and its actions are benign. *)
Lemma located_cascade_benign (env : Env) (text : string) (p : Page) (e : Element) :
  same_identity e (el (fst (cascade env text (located p e)))) /\
  Forall (benign (String.length text)) (acts (fst (cascade env text (located p e)))).
Proof.
  pose (s0 := {| el := e; clip := clipboard p; acts := [] |}).
  assert (H : extends (benign (String.length text)) s0
                      (fst (cascade env text (located p e)))).
  { apply cascade_benign. split; [apply same_identity_refl |].
    eexists. split; [reflexivity | repeat constructor]. }
  destruct H as [Hi [l [Hl Hf]]]. split; [exact Hi |].
  rewrite Hl. exact Hf.
Qed.




Lemma benign_no_notification (o : Origin) (len : nat) (l : list Action) :
  Forall (benign len) l -> existsb is_notification (tagged o l) = false.
Proof.
  intro H. induction H as [|a l Ha Hl IH]; cbn; [reflexivity |].
  unfold tagged in IH. rewrite IH.
  destruct a; cbn in *; try reflexivity. contradiction.
Qed.

(** With the input located and nothing raised, the insertion shows no
    notification, whatever its strategies achieved. *)
Lemma located_insertion_shows_no_notification
  (env : Env) (text : string) (p : Page) (e : Element) :
  findAIInput p = Some e -> focus_throws env = false ->
  existsb is_notification (trace (_performInsertion env text p)) = false.
Proof.
  intros Hf Hn.
  rewrite (_performInsertion_located env text p e Hf Hn). cbv zeta. cbn [trace].
  destruct (located_cascade_benign env text p e) as [_ Hb].
  exact (benign_no_notification Inserter _ _ Hb).
Qed.

(** ** The locator, in full *)

Lemma first_visible_match_some (doc : list Node) (sels : list Css.Selector) (el : Element) :
  first_visible_match doc sels = Some el ->
  visible el = true /\
  exists before sel after,
    sels = before ++ sel :: after /\
    (forall s x, In s before -> In x (querySelectorAll doc s) -> visible x = false) /\
    find visible (querySelectorAll doc sel) = Some el.
Proof.
  induction sels as [|sel rest IH]; cbn [first_visible_match]; [discriminate |].
  destruct (find visible (querySelectorAll doc sel)) as [e|] eqn:E.
  - intro H. injection H as H. subst e. split.
    + exact (proj2 (find_some _ _ E)).
    + exists [], sel, rest. split; [reflexivity |]. split; [intros s x [] | exact E].
  - intro H. destruct (IH H) as [Hv [before [s0 [after [Hs [Hb Hf]]]]]].
    split; [exact Hv |].
    exists (sel :: before), s0, after. split; [rewrite Hs; reflexivity |].
    split; [| exact Hf].
    intros s x [Hs' | Hs'] Hx.
    + subst s. exact (find_none _ _ E x Hx).
    + exact (Hb s x Hs' Hx).
Qed.

Lemma names_text_entry_sound (t : Css.Simple) (pl : Css.Placed) :
  names_text_entry t = true -> Css.test_holds pl t = true ->
  is_text_entry_surface (fst pl) = true.
Proof.
  unfold is_text_entry_surface.
  destruct t as [n | i | c | a | a op v |]; cbn [names_text_entry Css.test_holds];
    try discriminate.
  - intros Hn Ht. apply String.eqb_eq in Ht. rewrite Ht.
    apply Bool.orb_true_iff in Hn. destruct Hn as [Hn | Hn]; rewrite Hn.
    + reflexivity.
    + rewrite Bool.orb_true_r. reflexivity.
  - destruct op; try discriminate. intros Hn Ht.
    destruct (getAttribute (fst pl) a) as [actual|] eqn:Ea; [| discriminate].
    cbn [Css.attr_test] in Ht. apply String.eqb_eq in Ht.
    apply Bool.orb_true_iff in Hn.
    destruct Hn as [Hn | Hn]; apply Bool.andb_true_iff in Hn; destruct Hn as [H1 H2];
      apply String.eqb_eq in H1; apply String.eqb_eq in H2; subst.
    + rewrite Ea, String.eqb_refl. rewrite Bool.orb_true_r. reflexivity.
    + rewrite Ea, String.eqb_refl. rewrite Bool.orb_true_r. reflexivity.
Qed.

(** A match of a selector whose subject names a text-entry surface is one. *)
Lemma selects_text_entry_sound (doc : list Node) (sel : Css.Selector) (el : Element) :
  selects_text_entry sel = true -> In el (querySelectorAll doc sel) ->
  is_text_entry_surface el = true.
Proof.
  unfold selects_text_entry, querySelectorAll. intros Hs Hin.
  apply in_map_iff in Hin. destruct Hin as [h [Hh Hin]].
  apply filter_In in Hin. destruct Hin as [_ Hm].
  unfold Css.matches in Hm.
  destruct (rev sel) as [|subject outer]; [discriminate |].
  apply Bool.andb_true_iff in Hm. destruct Hm as [Hc _].
  apply existsb_exists in Hs. destruct Hs as [t [Ht Hn]].
  unfold Css.compound_holds in Hc. rewrite forallb_forall in Hc.
  rewrite <- Hh. exact (names_text_entry_sound t (fst h) Hn (Hc t Ht)).
Qed.

(** Every pattern of the table but the first one of ChatGPT's list, the
    id pattern, names a text-entry surface. *)
Lemma tables_select_text_entry (i : PlatformIdentity) :
  forallb selects_text_entry (tl (Sel.input_selectors i)) = true /\
  (i <> chatgpt -> forallb selects_text_entry (Sel.input_selectors i) = true).
Proof.
  destruct i; (split; [vm_compute; reflexivity |]); intro H;
    try (vm_compute; reflexivity).
  exfalso. apply H. reflexivity.
Qed.

(** C7 (as amended): the locator returns the first visible element, taking
    the patterns in order and the matches of each pattern in document
    order; an earlier pattern with a visible match wins over every later
    one; null is returned exactly when no pattern has a visible match.
    Visibility is the only test: that the element is a text-entry surface
    follows from the pattern matched, for every pattern but the id pattern
    of ChatGPT's list. *)
Theorem C7_first_visible_match_wins (p : Page) :
  let doc := document p in
  let sels := input_selectors_for (location p) in
  findAIInput p = find visible (flat_map (querySelectorAll doc) sels) /\
  (findAIInput p = None <->
   forall sel el, In sel sels -> In el (querySelectorAll doc sel) -> visible el = false) /\
  (forall el, findAIInput p = Some el ->
     visible el = true /\
     exists before sel after,
       sels = before ++ sel :: after /\
       (forall s x, In s before -> In x (querySelectorAll doc s) -> visible x = false) /\
       find visible (querySelectorAll doc sel) = Some el) /\
  (forall el, findAIInput p = Some el -> classify (location p) <> chatgpt ->
     is_text_entry_surface el = true).
Proof.
  cbv zeta. unfold findAIInput.
  split; [apply first_visible_match_flat |]. split.
  - rewrite first_visible_match_flat, find_none_iff. split.
    + intros H sel el Hs He. apply H. apply in_flat_map. exists sel. split; assumption.
    + intros H x Hx. apply in_flat_map in Hx. destruct Hx as [sel [Hs He]].
      exact (H sel x Hs He).
  - split; [intros el H; exact (first_visible_match_some _ _ _ H) |].
    intros el H Hc.
    destruct (first_visible_match_some _ _ _ H) as [_ [before [sel [after [Hs [_ Hf]]]]]].
    apply (selects_text_entry_sound (document p) sel).
    + destruct (tables_select_text_entry (classify (location p))) as [_ Hall].
      specialize (Hall Hc). rewrite forallb_forall in Hall. apply Hall.
      unfold input_selectors_for in Hs. rewrite Hs. apply in_elt.
    + exact (proj1 (find_some _ _ Hf)).
Qed.

Lemma C7_first_visible_witness :
  findAIInput Fixtures.claude_page = Some Fixtures.prosemirror /\
  classify (location Fixtures.claude_page) <> chatgpt /\
  is_text_entry_surface Fixtures.prosemirror = true.
Proof.
  assert (Hf : findAIInput Fixtures.claude_page = Some Fixtures.prosemirror)
    by (vm_compute; reflexivity).
  assert (Hc : classify (location Fixtures.claude_page) <> chatgpt)
    by (vm_compute; discriminate).
  split; [exact Hf |]. split; [exact Hc |].
  exact (proj2 (proj2 (proj2 (C7_first_visible_match_wins Fixtures.claude_page)))
           Fixtures.prosemirror Hf Hc).
Defined.

(** C7 (as stated) fails: on this ChatGPT page the locator returns the
    container that carries the id [prompt-textarea], which is visible but
    no text-entry surface, while the first element that is both is the
    textarea the specification's locator returns. *)
Lemma C7_text_entry_not_checked_counterexample :
  findAIInput Fixtures.chatgpt_decoy_page = Some Fixtures.decoy /\
  visible Fixtures.decoy = true /\
  is_text_entry_surface Fixtures.decoy = false /\
  locate_spec (document Fixtures.chatgpt_decoy_page)
              (input_selectors_for (location Fixtures.chatgpt_decoy_page))
  = Some Fixtures.composer /\
  visible Fixtures.composer = true /\
  is_text_entry_surface Fixtures.composer = true /\
  ~ (forall p el, findAIInput p = Some el -> is_text_entry_surface el = true).
Proof.
  assert (Hf : findAIInput Fixtures.chatgpt_decoy_page = Some Fixtures.decoy)
    by (vm_compute; reflexivity).
  repeat split; try (vm_compute; reflexivity).
  intro H. specialize (H _ _ Hf). vm_compute in H. discriminate H.
Qed.

(** ** Send cascade *)

Lemma find_send_button_sound (doc : list Node) (sels : list Css.Selector) (btn : Element) :
  find_send_button doc sels = Some btn ->
  visible btn = true /\ exists sel, In sel sels /\ querySelector doc sel = Some btn.
Proof.
  induction sels as [|sel rest IH]; cbn [find_send_button]; [discriminate |].
  destruct (querySelector doc sel) as [b|] eqn:E.
  - destruct (visible b) eqn:V.
    + intro H. injection H as H. subst b. split; [exact V |].
      exists sel. split; [left; reflexivity | exact E].
    + intro H. destruct (IH H) as [Hv [s [Hs Hq]]]. split; [exact Hv |].
      exists s. split; [right; exact Hs | exact Hq].
  - intro H. destruct (IH H) as [Hv [s [Hs Hq]]]. split; [exact Hv |].
    exists s. split; [right; exact Hs | exact Hq].
Qed.

Lemma sendViaKeyboard_no_click (o : Origin) (pre : list Action) (ta : Element) :
  existsb is_click (tagged o pre) = false ->
  existsb is_click (tagged o (pre ++ sendViaKeyboard ta)) = false.
Proof.
  intro H. unfold tagged in *. rewrite map_app, existsb_app.
  apply Bool.orb_false_iff. split; [exact H | reflexivity].
Qed.

(** C9: with the input located, a keyboard-first page (Claude, Doubao)
    goes straight to the keyboard strategy; any other page does so when the
    search for a send control ends without a visible one or with a disabled
    one.  The keyboard strategy focuses the input, dispatches keydown and
    keypress of Enter, then after 10 ms keyup and an input event, and
    resolves.  A visible, enabled control is clicked after 50 ms instead. *)
Theorem C9_keyboard_fallback (p : Page) (ta : Element) :
  findAIInput p = Some ta ->
  sendViaKeyboard ta
  = [ Focus (nid ta);
      Dispatch (nid ta) (EvKey Keydown "Enter");
      Dispatch (nid ta) (EvKey Keypress "Enter");
      SetTimeout 10%N;
      Dispatch (nid ta) (EvKey Keyup "Enter");
      Dispatch (nid ta) EvInput;
      Log LogSentViaKeyboard ] /\
  (useKeyboardFirst (location p) = true ->
   outcome (sendPrompt p) = Resolved /\
   trace (sendPrompt p)
   = tagged Sender (Log LogAttemptSend :: Log LogKeyboardFirst :: sendViaKeyboard ta)) /\
  (useKeyboardFirst (location p) = false ->
   (forall btn,
      find_send_button (document p) (Sel.send_selectors (send_branch (location p)))
      = Some btn -> disabled btn = true) ->
   outcome (sendPrompt p) = Resolved /\
   existsb is_click (trace (sendPrompt p)) = false /\
   exists pre, trace (sendPrompt p) = tagged Sender (pre ++ sendViaKeyboard ta)) /\
  (useKeyboardFirst (location p) = false ->
   forall btn,
     find_send_button (document p) (Sel.send_selectors (send_branch (location p)))
     = Some btn -> disabled btn = false ->
     outcome (sendPrompt p) = Resolved /\
     trace (sendPrompt p)
     = tagged Sender [Log LogAttemptSend; Log LogFoundSendButton; SetTimeout 50%N;
                      Click (nid btn); Log LogSentByClick]).
Proof.
  intro Hf. split; [reflexivity |].
  unfold sendPrompt, findChatGPTInput. rewrite Hf. split; [| split].
  - intro Hk. rewrite Hk. split; reflexivity.
  - intros Hk Hb. rewrite Hk.
    destruct (find_send_button _ _) as [btn|] eqn:E.
    + rewrite (Hb btn eq_refl). cbn [negb outcome trace].
      split; [reflexivity |]. split.
      * apply (sendViaKeyboard_no_click Sender
                 [Log LogAttemptSend; Log LogFoundSendButton; Log LogFallbackKeyboard]).
        reflexivity.
      * exists [Log LogAttemptSend; Log LogFoundSendButton; Log LogFallbackKeyboard].
        reflexivity.
    + cbn [outcome trace]. split; [reflexivity |]. split.
      * apply (sendViaKeyboard_no_click Sender [Log LogAttemptSend; Log LogFallbackKeyboard]).
        reflexivity.
      * exists [Log LogAttemptSend; Log LogFallbackKeyboard]. reflexivity.
  - intros Hk btn E Hd. rewrite Hk, E, Hd. split; reflexivity.
Qed.

Lemma C9_keyboard_fallback_witness :
  findAIInput Fixtures.claude_page = Some Fixtures.prosemirror /\
  useKeyboardFirst (location Fixtures.claude_page) = true /\
  outcome (sendPrompt Fixtures.claude_page) = Resolved /\
  findAIInput Fixtures.chatgpt_disabled_send_page = Some Fixtures.textarea /\
  useKeyboardFirst (location Fixtures.chatgpt_disabled_send_page) = false /\
  existsb is_click (trace (sendPrompt Fixtures.chatgpt_disabled_send_page)) = false.
Proof.
  assert (H1 : findAIInput Fixtures.claude_page = Some Fixtures.prosemirror)
    by (vm_compute; reflexivity).
  assert (H2 : findAIInput Fixtures.chatgpt_disabled_send_page = Some Fixtures.textarea)
    by (vm_compute; reflexivity).
  split; [exact H1 |]. split; [vm_compute; reflexivity |]. split.
  - refine (proj1 (proj1 (proj2 (C9_keyboard_fallback _ _ H1)) _)).
    vm_compute; reflexivity.
  - split; [exact H2 |]. split; [vm_compute; reflexivity |].
    refine (proj1 (proj2 (proj1 (proj2 (proj2 (C9_keyboard_fallback _ _ H2))) _ _))).
    + vm_compute; reflexivity.
    + intros btn Hb. vm_compute in Hb. injection Hb as Hb. subst btn. reflexivity.
Defined.

(** ** Order of the stages *)

Lemma sorted_between (lo : nat) (l1 l2 : list Entry) :
  StronglySorted stage_le l1 -> StronglySorted stage_le l2 ->
  Forall (fun a => stage a <= lo) l1 -> Forall (fun a => lo <= stage a) l2 ->
  StronglySorted stage_le (l1 ++ l2).
Proof.
  intros S1 S2 F1 F2. induction S1 as [|a l S1 IH Ha]; cbn [app]; [exact S2 |].
  inversion F1 as [|? ? Hlo F1']; subst.
  constructor; [exact (IH F1') |].
  rewrite Forall_app. split; [exact Ha |].
  eapply Forall_impl; [| exact F2]. intros b Hb. unfold stage_le. cbv beta in *. lia.
Qed.

Lemma constant_stage_sorted (k : nat) (l : list Entry) :
  Forall (fun a => stage a = k) l -> StronglySorted stage_le l.
Proof.
  intro H. induction H as [|a l Ha Hl IH]; constructor; [exact IH |].
  eapply Forall_impl; [| exact Hl]. intros b Hb. unfold stage_le. cbv beta in *. lia.
Qed.

Lemma tagged_stage (o : Origin) (k : nat) (l : list Action) :
  (forall a, In a l -> stage (o, a) = k) ->
  Forall (fun a => stage a = k) (tagged o l).
Proof.
  intro H. unfold tagged. apply Forall_forall. intros x Hx.
  apply in_map_iff in Hx. destruct Hx as [a [Ha Hin]]. subst x. exact (H a Hin).
Qed.

Lemma _performInsertion_origin (env : Env) (text : string) (p : Page) :
  exists l, trace (_performInsertion env text p) = tagged Inserter l.
Proof.
  unfold _performInsertion.
  destruct (findChatGPTInput p); [destruct (focus_throws env) |]; eexists; reflexivity.
Qed.

Lemma stage_weaken (k : nat) (l : list Entry) :
  Forall (fun a => stage a = k) l ->
  Forall (fun a => stage a <= k) l /\ Forall (fun a => k <= stage a) l.
Proof.
  intro H. split; (eapply Forall_impl; [| exact H]); intros a Ha; cbv beta in *; lia.
Qed.

(** The trace of [insertPromptText]: resolution first, insertion after. *)
Lemma insertPromptText_stages (env : Env) (user : UserAction) (text : string) (p : Page) :
  exists res ins,
    trace (insertPromptText env user text p) = res ++ ins /\
    Forall (fun a => stage a = 0) res /\
    Forall (origin_is Inserter) ins.
Proof.
  unfold insertPromptText.
  destruct (Template.variables text) as [|v vs].
  - destruct (_performInsertion_origin env text p) as [l Hl].
    exists (tagged Resolver [Log LogStartProcess]), (trace (_performInsertion env text p)).
    cbn [trace]. split; [reflexivity |]. split; [repeat constructor |].
    rewrite Hl. apply tagged_origin.
  - destruct user as [typed | |]; cbn [showVariableInputModal snd fst trace].
    + match goal with |- context [_performInsertion env ?t p] => set (text' := t) end.
      destruct (_performInsertion_origin env text' p) as [l Hl].
      exists (tagged Resolver [Log LogStartProcess]
              ++ tagged Resolver [Log (LogVariablesDetected (v :: vs))]
              ++ tagged Modal [ShowModal (v :: vs); CloseModal]),
             (trace (_performInsertion env text' p)).
      split; [repeat rewrite <- app_assoc; reflexivity |].
      split; [repeat constructor |].
      rewrite Hl. apply tagged_origin.
    + eexists _, []. rewrite app_nil_r. split; [reflexivity |].
      split; [repeat constructor | constructor].
    + eexists _, []. rewrite app_nil_r. split; [reflexivity |].
      split; [repeat constructor | constructor].
Qed.

Lemma insertPromptText_sorted (env : Env) (user : UserAction) (text : string) (p : Page) :
  StronglySorted stage_le (trace (insertPromptText env user text p)) /\
  Forall (fun a => stage a <= 1) (trace (insertPromptText env user text p)).
Proof.
  destruct (insertPromptText_stages env user text p) as [res [ins [Ht [Hr Hi]]]].
  rewrite Ht.
  assert (Hi1 : Forall (fun a => stage a = 1) ins).
  { eapply Forall_impl; [| exact Hi]. intros [o a] Ho. unfold origin_is in Ho.
    cbn in Ho. subst o. reflexivity. }
  split.
  - apply (sorted_between 0).
    + exact (constant_stage_sorted 0 _ Hr).
    + exact (constant_stage_sorted 1 _ Hi1).
    + exact (proj1 (stage_weaken 0 _ Hr)).
    + eapply Forall_impl; [| exact Hi1]. intros a Ha. cbv beta in *. lia.
  - rewrite Forall_app. split.
    + eapply Forall_impl; [| exact Hr]. intros a Ha. cbv beta in *. lia.
    + eapply Forall_impl; [| exact Hi1]. intros a Ha. cbv beta in *. lia.
Qed.

Lemma send_catch_stage (e : Error) :
  Forall (fun a => stage a = 4) (tagged Handler (send_catch e)).
Proof. destruct e; repeat constructor. Qed.

Lemma sendPrompt_stage (p : Page) :
  Forall (fun a => stage a = 3) (trace (sendPrompt p)).
Proof.
  eapply Forall_impl; [| exact (sendPrompt_origin p)].
  intros [o a] Ho. unfold origin_is in Ho. cbn in Ho. subst o. reflexivity.
Qed.

(** C8: in the flow of the send button the stages follow one another:
    every action of the resolution (modal shown and closed) comes before
    every action of the insertion cascade, the whole trace of
    [insertPromptText] up to the settlement of its promise comes before the
    100 ms wait and every action of the send cascade, and the send cascade
    runs only if that promise was fulfilled. *)
Theorem C8_stages_in_order (env : Env) (user : UserAction) (text : string) (p : Page) :
  let r1 := insertPromptText env user text p in
  let r := onSendClick env user text p in
  StronglySorted stage_le (trace r) /\
  (exists rest,
     trace r = trace r1 ++ rest /\
     Forall (fun a => stage a <= 1) (trace r1) /\
     Forall (fun a => 2 <= stage a) rest) /\
  (forall a, In a (trace r) -> fst a = Sender -> outcome r1 = Resolved).
Proof.
  cbv zeta.
  destruct (insertPromptText_sorted env user text p) as [Hs1 Hb1].
  unfold onSendClick.
  destruct (outcome (insertPromptText env user text p)) as [|e1] eqn:E1.
  - set (p' := page_after_timers (insertPromptText env user text p)).
    pose proof (sendPrompt_stage p') as H3.
    assert (Hrest : forall fin : list Entry,
              Forall (fun a => stage a = 4) fin ->
              StronglySorted stage_le
                (tagged Handler [SetTimeout 100%N] ++ trace (sendPrompt p') ++ fin) /\
              Forall (fun a => 2 <= stage a)
                (tagged Handler [SetTimeout 100%N] ++ trace (sendPrompt p') ++ fin)).
    { intros fin H4. split.
      - apply (sorted_between 2).
        + repeat constructor.
        + apply (sorted_between 3).
          * exact (constant_stage_sorted 3 _ H3).
          * exact (constant_stage_sorted 4 _ H4).
          * exact (proj1 (stage_weaken 3 _ H3)).
          * eapply Forall_impl; [| exact H4]. intros a Ha. cbv beta in *. lia.
        + repeat constructor.
        + rewrite Forall_app. split; (eapply Forall_impl; [| eassumption]);
            intros a Ha; cbv beta in *; lia.
      - repeat rewrite Forall_app. split; [repeat constructor |].
        split; (eapply Forall_impl; [| eassumption]); intros a Ha; cbv beta in *; lia. }
    destruct (outcome (sendPrompt p')) as [|e2]; cbn [trace].
    + destruct (Hrest (tagged Handler [CloseSideMenu; Deferred 200%N LaterCollapseButton;
                                       Log LogPromptSent])) as [Hs Hb];
        [repeat constructor |].
      split; [| split].
      * apply (sorted_between 1); try assumption.
        eapply Forall_impl; [| exact Hb]. intros a Ha. cbv beta in *. lia.
      * eexists. split; [reflexivity |]. split; assumption.
      * intros; reflexivity.
    + destruct (Hrest (tagged Handler (send_catch e2))) as [Hs Hb];
        [apply send_catch_stage |].
      split; [| split].
      * apply (sorted_between 1); try assumption.
        eapply Forall_impl; [| exact Hb]. intros a Ha. cbv beta in *. lia.
      * eexists. split; [reflexivity |]. split; assumption.
      * intros; reflexivity.
  - cbn [trace]. pose proof (send_catch_stage e1) as H4.
    split; [| split].
    + apply (sorted_between 1); try assumption.
      * exact (constant_stage_sorted 4 _ H4).
      * eapply Forall_impl; [| exact H4]. intros a Ha. cbv beta in *. lia.
    + eexists. split; [reflexivity |]. split; [assumption |].
      eapply Forall_impl; [| exact H4]. intros a Ha. cbv beta in *. lia.
    + intros a Hin Ha. exfalso.
      apply in_app_or in Hin. destruct Hin as [Hin | Hin].
      * rewrite Forall_forall in Hb1. specialize (Hb1 a Hin).
        destruct a as [o x]. cbn in Ha. subst o. cbn in Hb1. lia.
      * rewrite Forall_forall in H4. specialize (H4 a Hin).
        destruct a as [o x]. cbn in Ha. subst o. cbn in H4. discriminate H4.
Qed.

Lemma C8_stages_witness :
  In (Sender, Log LogAttemptSend)
     (trace (onSendClick Fixtures.write_only_env (Submit Fixtures.one_two)
                         "{a}-{a}-{b}" Fixtures.chatgpt_send_page)) /\
  outcome (insertPromptText Fixtures.write_only_env (Submit Fixtures.one_two)
                            "{a}-{a}-{b}" Fixtures.chatgpt_send_page) = Resolved.
Proof.
  assert (H : In (Sender, Log LogAttemptSend)
     (trace (onSendClick Fixtures.write_only_env (Submit Fixtures.one_two)
                         "{a}-{a}-{b}" Fixtures.chatgpt_send_page))).
  { vm_compute. do 23 right. left. reflexivity. }
  split; [exact H |].
  exact (proj2 (proj2 (C8_stages_in_order Fixtures.write_only_env (Submit Fixtures.one_two)
                         "{a}-{a}-{b}" Fixtures.chatgpt_send_page)) _ H eq_refl).
Defined.

(* ================================================================== *)
(** * Further properties: markup of the prompt list *)

Lemma append_assoc (a b c : string) : ((a ++ b) ++ c = a ++ (b ++ c))%string.
Proof. induction a as [|x a IH]; simpl; [reflexivity | now rewrite IH]. Qed.

Lemma length_append (a b : string) :
  String.length (a ++ b) = String.length a + String.length b.
Proof. induction a as [|x a IH]; simpl; [reflexivity | now rewrite IH]. Qed.

Lemma has_unit_append (c : ascii) (a b : string) :
  Text.has_unit c (a ++ b) = Text.has_unit c a || Text.has_unit c b.
Proof.
  induction a as [|x a IH]; simpl; [reflexivity|].
  rewrite IH. now rewrite Bool.orb_assoc.
Qed.

Lemma startsWith_empty (s : string) : Str.startsWith s EmptyString = true.
Proof. now destruct s. Qed.

Lemma includes_unit (c : ascii) (s : string) :
  Str.includes s (String c EmptyString) = Text.has_unit c s.
Proof.
  induction s as [|a s IH]; [reflexivity|].
  cbn [Str.includes Str.startsWith Text.has_unit].
  rewrite startsWith_empty. destruct (Ascii.eqb a c); [reflexivity | exact IH].
Qed.

Lemma expand_plain (repl m b a : string) :
  Text.has_unit "$"%char repl = false -> Template.expand repl m b a = repl.
Proof.
  induction repl as [|c r IH]; [reflexivity|].
  simpl. intros H. apply Bool.orb_false_iff in H. destruct H as [Hc Hr].
  rewrite Hc. now rewrite IH.
Qed.

Lemma replace_all_unit (c : ascii) (repl before s : string) :
  Text.has_unit "$"%char repl = false ->
  Template.replace_all (String c EmptyString) repl before 0 s = Html.substUnit c repl s.
Proof.
  intros Hp. revert before.
  induction s as [|a s IH]; intros before; [reflexivity|].
  cbn [Template.replace_all Str.startsWith Html.substUnit].
  rewrite ?startsWith_empty.
  destruct (Ascii.eqb a c).
  - cbn [String.length Nat.sub]. rewrite expand_plain by exact Hp.
    now rewrite IH.
  - now rewrite IH.
Qed.

Lemma replaceUnit_substUnit (c : ascii) (repl s : string) :
  Text.has_unit "$"%char repl = false ->
  Html.replaceUnit c repl s = Html.substUnit c repl s.
Proof. apply replace_all_unit. Qed.

Lemma substUnit_append (c : ascii) (repl a b : string) :
  Html.substUnit c repl (a ++ b)
  = (Html.substUnit c repl a ++ Html.substUnit c repl b)%string.
Proof.
  induction a as [|x a IH]; [reflexivity|].
  simpl. rewrite IH. now rewrite append_assoc.
Qed.

Lemma escapeHtml_layers (s : string) :
  Html.escapeHtml s
  = Html.substUnit Html.apos "&#039;"
      (Html.substUnit Html.quot "&quot;"
         (Html.substUnit Html.gt "&gt;"
            (Html.substUnit Html.lt "&lt;"
               (Html.substUnit Html.amp "&amp;" s)))).
Proof.
  unfold Html.escapeHtml.
  now rewrite !replaceUnit_substUnit by reflexivity.
Qed.

Lemma escapeHtml_append (a b : string) :
  Html.escapeHtml (a ++ b) = (Html.escapeHtml a ++ Html.escapeHtml b)%string.
Proof. rewrite !escapeHtml_layers. now rewrite !substUnit_append. Qed.

Lemma escapeHtml_unit (c : ascii) :
  Html.escapeHtml (String c EmptyString) = Html.escapeUnit c.
Proof.
  rewrite escapeHtml_layers.
  destruct c as [[] [] [] [] [] [] [] []]; reflexivity.
Qed.

Lemma escapeHtml_escapeUnits (html : string) :
  Html.escapeHtml html = Html.escapeUnits html.
Proof.
  induction html as [|c r IH]; [reflexivity|].
  change (String c r) with (String c EmptyString ++ r)%string.
  rewrite escapeHtml_append, escapeHtml_unit, IH. reflexivity.
Qed.

(** X1 -- [escapeHtml]: the five global replacements, run one after the
    other, give the same text as one pass that replaces each of the units
    ampersand, less-than, greater-than, double quote and apostrophe by its
    entity; the ampersand of an entity written by an earlier replacement is
    never escaped again.  So the escaped form of a text made of two parts
    is made of the escaped forms of the parts. *)
Theorem escapeHtml_single_pass (a b : string) :
  Html.escapeHtml a = Html.escapeUnits a /\
  Html.escapeHtml (a ++ b) = (Html.escapeHtml a ++ Html.escapeHtml b)%string.
Proof.
  split.
  - induction a as [|c r IH]; [reflexivity|].
    change (String c r) with (String c EmptyString ++ r)%string.
    rewrite escapeHtml_append, escapeHtml_unit, IH. reflexivity.
  - rewrite !escapeHtml_layers. now rewrite !substUnit_append.
Qed.

Lemma no_unit_append (f : ascii -> bool) (a b : string) :
  Html.no_unit f (a ++ b) = Html.no_unit f a && Html.no_unit f b.
Proof.
  induction a as [|x a IH]; [reflexivity|].
  simpl. rewrite IH. now rewrite Bool.andb_assoc.
Qed.

Lemma escapeUnit_no_markup (c : ascii) :
  Html.no_unit Html.markup_unit (Html.escapeUnit c) = true.
Proof. destruct c as [[] [] [] [] [] [] [] []]; reflexivity. Qed.

Lemma escapeUnits_no_markup (s : string) :
  Html.no_unit Html.markup_unit (Html.escapeUnits s) = true.
Proof.
  induction s as [|c r IH]; [reflexivity|].
  cbn [Html.escapeUnits]. now rewrite no_unit_append, escapeUnit_no_markup, IH.
Qed.

(** X2 -- [escapeHtml]: the result holds no less-than sign, no
    greater-than sign, no double quote and no apostrophe, whatever the
    text; and every ampersand in it starts one of the five entities. *)
Theorem escapeHtml_no_markup (html : string) :
  Html.no_unit Html.markup_unit (Html.escapeHtml html) = true /\
  forall pre post, Html.escapeHtml html = (pre ++ String "&"%char post)%string ->
                   exists rest,
                     post = ("amp;" ++ rest)%string \/ post = ("lt;" ++ rest)%string \/
                     post = ("gt;" ++ rest)%string \/ post = ("quot;" ++ rest)%string \/
                     post = ("#039;" ++ rest)%string.
Proof.
  rewrite escapeHtml_escapeUnits. split; [apply escapeUnits_no_markup|].
  induction html as [|c r IH]; intros pre post E.
  - destruct pre; discriminate.
  - cbn [Html.escapeUnits] in E.
    destruct (Ascii.eqb_spec c Html.amp) as [->|Hamp].
    + change (Html.escapeUnit Html.amp) with "&amp;" in E.
      destruct pre as [|x0 [|x1 [|x2 [|x3 [|x4 pre]]]]]; cbn [String.append] in E.
      * injection E as <-. exists (Html.escapeUnits r). now left.
      * injection E as _ E. discriminate E.
      * injection E as _ _ E. discriminate E.
      * injection E as _ _ _ E. discriminate E.
      * injection E as _ _ _ _ E. discriminate E.
      * injection E as _ _ _ _ _ E. now apply (IH pre post).
    + destruct (Ascii.eqb_spec c Html.lt) as [->|Hlt].
      { change (Html.escapeUnit Html.lt) with "&lt;" in E.
        destruct pre as [|x0 [|x1 [|x2 [|x3 pre]]]]; cbn [String.append] in E.
        - injection E as <-. exists (Html.escapeUnits r). right. now left.
        - injection E as _ E. discriminate E.
        - injection E as _ _ E. discriminate E.
        - injection E as _ _ _ E. discriminate E.
        - injection E as _ _ _ _ E. now apply (IH pre post). }
      destruct (Ascii.eqb_spec c Html.gt) as [->|Hgt].
      { change (Html.escapeUnit Html.gt) with "&gt;" in E.
        destruct pre as [|x0 [|x1 [|x2 [|x3 pre]]]]; cbn [String.append] in E.
        - injection E as <-. exists (Html.escapeUnits r). right. right. now left.
        - injection E as _ E. discriminate E.
        - injection E as _ _ E. discriminate E.
        - injection E as _ _ _ E. discriminate E.
        - injection E as _ _ _ _ E. now apply (IH pre post). }
      destruct (Ascii.eqb_spec c Html.quot) as [->|Hquot].
      { change (Html.escapeUnit Html.quot) with "&quot;" in E.
        destruct pre as [|x0 [|x1 [|x2 [|x3 [|x4 [|x5 pre]]]]]]; cbn [String.append] in E.
        - injection E as <-. exists (Html.escapeUnits r). right. right. right. now left.
        - injection E as _ E. discriminate E.
        - injection E as _ _ E. discriminate E.
        - injection E as _ _ _ E. discriminate E.
        - injection E as _ _ _ _ E. discriminate E.
        - injection E as _ _ _ _ _ E. discriminate E.
        - injection E as _ _ _ _ _ _ E. now apply (IH pre post). }
      destruct (Ascii.eqb_spec c Html.apos) as [->|Hapos].
      { change (Html.escapeUnit Html.apos) with "&#039;" in E.
        destruct pre as [|x0 [|x1 [|x2 [|x3 [|x4 [|x5 pre]]]]]]; cbn [String.append] in E.
        - injection E as <-. exists (Html.escapeUnits r). right. right. right. now right.
        - injection E as _ E. discriminate E.
        - injection E as _ _ E. discriminate E.
        - injection E as _ _ _ E. discriminate E.
        - injection E as _ _ _ _ E. discriminate E.
        - injection E as _ _ _ _ _ E. discriminate E.
        - injection E as _ _ _ _ _ _ E. now apply (IH pre post). }
      assert (Hu : Html.escapeUnit c = String c EmptyString).
      { unfold Html.escapeUnit.
        rewrite (proj2 (Ascii.eqb_neq _ _) Hamp), (proj2 (Ascii.eqb_neq _ _) Hlt),
          (proj2 (Ascii.eqb_neq _ _) Hgt), (proj2 (Ascii.eqb_neq _ _) Hquot),
          (proj2 (Ascii.eqb_neq _ _) Hapos). reflexivity. }
      rewrite Hu in E. destruct pre as [|x0 pre]; cbn [String.append] in E.
      * injection E as E1 _. exfalso. apply Hamp. exact E1.
      * injection E as _ E. now apply (IH pre post).
Qed.

Lemma escapeUnit_cases (c : ascii) :
  (Html.special_unit c = false /\ Html.escapeUnit c = String c EmptyString) \/
  (Html.special_unit c = true /\
   exists d rest, Html.escapeUnit c = String "&"%char (String d (String.append rest ";"))
                  /\ rest <> EmptyString
                  /\ d = (if Ascii.eqb c Html.amp then "a"
                          else if Ascii.eqb c Html.lt then "l"
                          else if Ascii.eqb c Html.gt then "g"
                          else if Ascii.eqb c Html.quot then "q" else "#")%char).
Proof.
  destruct c as [[] [] [] [] [] [] [] []];
    first [ left; split; reflexivity
          | right; split; [reflexivity|];
            first [ exists "a"%char, "mp"; repeat split; discriminate
                  | exists "l"%char, "t"; repeat split; discriminate
                  | exists "g"%char, "t"; repeat split; discriminate
                  | exists "q"%char, "uot"; repeat split; discriminate
                  | exists "#"%char, "039"; repeat split; discriminate ] ].
Qed.

Lemma escapeUnits_length (s : string) :
  String.length s <= String.length (Html.escapeUnits s).
Proof.
  induction s as [|c r IH]; [apply le_n|].
  cbn [Html.escapeUnits]. rewrite length_append. simpl String.length at 1.
  assert (1 <= String.length (Html.escapeUnit c)).
  { destruct (escapeUnit_cases c) as [[_ E]|[_ (d & rest & E & _)]];
      rewrite E; simpl; lia. }
  lia.
Qed.

(** X3 -- [escapeHtml] returns its argument unchanged exactly when the
    argument holds none of the five units it escapes. *)
Theorem escapeHtml_fixed_iff (html : string) :
  Html.escapeHtml html = html <-> Html.no_unit Html.special_unit html = true.
Proof.
  rewrite escapeHtml_escapeUnits.
  induction html as [|c r IH]; [split; reflexivity|].
  cbn [Html.escapeUnits Html.no_unit].
  destruct (escapeUnit_cases c) as [[Hs E]|[Hs (d & rest & E & Hr & _)]];
    rewrite E, Hs; cbn [negb andb].
  - cbn [String.append]. rewrite <- IH. split; intros H.
    + now injection H.
    + now rewrite H.
  - split; [|discriminate]. intros H. exfalso.
    apply (f_equal String.length) in H.
    cbn [String.append String.length] in H.
    rewrite length_append, length_append in H.
    pose proof (escapeUnits_length r).
    destruct rest; [now apply Hr|]. simpl in H. lia.
Qed.

Lemma escapeUnits_nil (s : string) : Html.escapeUnits s = EmptyString -> s = EmptyString.
Proof.
  destruct s as [|c r]; [reflexivity|].
  cbn [Html.escapeUnits].
  destruct (escapeUnit_cases c) as [[_ E]|[_ (d & rest & E & _)]]; rewrite E; discriminate.
Qed.

Lemma special_amp_false (c : ascii) : Html.special_unit c = false -> c <> "&"%char.
Proof. intros H ->. discriminate. Qed.

Lemma special_unit_cases (c : ascii) :
  Html.special_unit c = true ->
  c = Html.amp \/ c = Html.lt \/ c = Html.gt \/ c = Html.quot \/ c = Html.apos.
Proof.
  unfold Html.special_unit, Html.markup_unit. intros H.
  repeat (apply Bool.orb_true_iff in H; destruct H as [H|H]);
    apply Ascii.eqb_eq in H; auto 6.
Qed.

Lemma entity_letter_inj (c d : ascii) :
  Html.special_unit c = true -> Html.special_unit d = true ->
  (if Ascii.eqb c Html.amp then "a"
   else if Ascii.eqb c Html.lt then "l"
   else if Ascii.eqb c Html.gt then "g"
   else if Ascii.eqb c Html.quot then "q" else "#")%char
  = (if Ascii.eqb d Html.amp then "a"
     else if Ascii.eqb d Html.lt then "l"
     else if Ascii.eqb d Html.gt then "g"
     else if Ascii.eqb d Html.quot then "q" else "#")%char ->
  c = d.
Proof.
  intros Hc Hd.
  destruct (special_unit_cases c Hc) as [->|[->|[->|[->| ->]]]];
    destruct (special_unit_cases d Hd) as [->|[->|[->|[->| ->]]]];
    intros H; try reflexivity; discriminate H.
Qed.

Lemma append_inv_head (a b c : string) : (a ++ b = a ++ c)%string -> b = c.
Proof. induction a as [|x a IH]; simpl; intros H; [exact H | injection H; auto]. Qed.

(** X4 -- [escapeHtml] loses nothing: two texts with the same escaped
    form are the same text. *)
Theorem escapeHtml_injective (a b : string) :
  Html.escapeHtml a = Html.escapeHtml b -> a = b.
Proof.
  rewrite !escapeHtml_escapeUnits. revert b.
  induction a as [|c r IH]; intros b H.
  - symmetry. apply escapeUnits_nil. now rewrite <- H.
  - destruct b as [|d r'].
    + apply escapeUnits_nil in H. discriminate.
    + assert (c = d) as ->.
      { cbn [Html.escapeUnits] in H.
        destruct (escapeUnit_cases c) as [[Hc Ec]|[Hc (x & rc & Ec & _ & Hx)]];
          destruct (escapeUnit_cases d) as [[Hd Ed]|[Hd (y & rd & Ed & _ & Hy)]];
          rewrite Ec, Ed in H; cbn [String.append] in H.
        - now injection H.
        - injection H as H1 _. exfalso. now apply (special_amp_false c).
        - injection H as H1 _. exfalso. now apply (special_amp_false d).
        - injection H as H1 _. apply entity_letter_inj; congruence. }
      f_equal. apply IH. cbn [Html.escapeUnits] in H.
      now apply append_inv_head in H.
Qed.





Lemma has_unit_escapeUnits_hash (s : string) :
  Text.has_unit "#"%char (Html.escapeUnits s)
  = Text.has_unit "#"%char s || Text.has_unit Html.apos s.
Proof.
  induction s as [|c r IH]; [reflexivity|].
  cbn [Html.escapeUnits Text.has_unit]. rewrite has_unit_append, IH.
  replace (Text.has_unit "#"%char (Html.escapeUnit c))
    with (Ascii.eqb c "#"%char || Ascii.eqb c Html.apos)
    by (destruct c as [[] [] [] [] [] [] [] []]; reflexivity).
  destruct (Ascii.eqb c "#"%char), (Ascii.eqb c Html.apos),
    (Text.has_unit "#"%char r), (Text.has_unit Html.apos r); reflexivity.
Qed.

Lemma has_unit_escapeUnits_star (s : string) :
  Text.has_unit "*"%char (Html.escapeUnits s) = Text.has_unit "*"%char s.
Proof.
  induction s as [|c r IH]; [reflexivity|].
  cbn [Html.escapeUnits Text.has_unit]. rewrite has_unit_append, IH.
  f_equal. destruct c as [[] [] [] [] [] [] [] []]; reflexivity.
Qed.

Lemma has_unit_escapeUnits_bracket (s : string) :
  Text.has_unit "["%char (Html.escapeUnits s) = Text.has_unit "["%char s.
Proof.
  induction s as [|c r IH]; [reflexivity|].
  cbn [Html.escapeUnits Text.has_unit]. rewrite has_unit_append, IH.
  f_equal. destruct c as [[] [] [] [] [] [] [] []]; reflexivity.
Qed.

(** The units [escapeHtml] rewrites are no backticks, and no entity holds
    one: a run of backticks is found in the escaped text where it is in
    the text. *)
Lemma escapeUnits_head (c : ascii) (r : string) :
  (Html.special_unit c = false /\
   Html.escapeUnits (String c r) = String c (Html.escapeUnits r)) \/
  (Html.special_unit c = true /\
   exists e, Html.escapeUnits (String c r) = String "&"%char (e ++ Html.escapeUnits r) /\
             Text.has_unit "`"%char e = false).
Proof.
  cbn [Html.escapeUnits].
  destruct c as [[] [] [] [] [] [] [] []];
    first [ left; split; reflexivity
          | right; split; [reflexivity|];
            first [ exists "amp;"; split; reflexivity
                  | exists "lt;"; split; reflexivity
                  | exists "gt;"; split; reflexivity
                  | exists "quot;"; split; reflexivity
                  | exists "#039;"; split; reflexivity ] ].
Qed.

Lemma special_not_backtick (c : ascii) :
  Html.special_unit c = true -> Ascii.eqb c "`"%char = false.
Proof.
  intros H. destruct (special_unit_cases c H) as [->|[->|[->|[->| ->]]]]; reflexivity.
Qed.

Lemma startsWith_ticks_escaped (p s : string) :
  Html.no_unit (fun c => negb (Ascii.eqb c "`"%char)) p = true ->
  Str.startsWith (Html.escapeUnits s) p = Str.startsWith s p.
Proof.
  revert s. induction p as [|b p IH]; intros s Hp.
  - now rewrite !startsWith_empty.
  - cbn [Html.no_unit] in Hp. apply Bool.andb_true_iff in Hp. destruct Hp as [Hb Hp].
    rewrite Bool.negb_involutive in Hb. apply Ascii.eqb_eq in Hb. subst b.
    destruct s as [|c r]; [reflexivity|].
    destruct (escapeUnits_head c r) as [[Hc E]|[Hc (e & E & _)]]; rewrite E.
    + cbn [Str.startsWith]. destruct (Ascii.eqb c "`"%char); [now apply IH | reflexivity].
    + cbn [Str.startsWith]. now rewrite (special_not_backtick c Hc).
Qed.

Lemma includes_skip (e rest p : string) (b : ascii) :
  Text.has_unit b e = false ->
  Str.includes (e ++ rest) (String b p) = Str.includes rest (String b p).
Proof.
  induction e as [|c e IH]; intros H; [reflexivity|].
  cbn [Text.has_unit] in H. apply Bool.orb_false_iff in H. destruct H as [Hc He].
  cbn [String.append]. cbn [Str.includes Str.startsWith].
  rewrite Hc. now apply IH.
Qed.

Lemma includes_cons (c : ascii) (r p : string) :
  Str.includes (String c r) p = Str.startsWith (String c r) p || Str.includes r p.
Proof. cbn [Str.includes]. now destruct (Str.startsWith (String c r) p). Qed.

Lemma includes_ticks_escaped (p s : string) :
  Html.no_unit (fun c => negb (Ascii.eqb c "`"%char)) p = true ->
  Str.includes (Html.escapeUnits s) (String "`"%char p)
  = Str.includes s (String "`"%char p).
Proof.
  intros Hp. induction s as [|c r IH]; [reflexivity|].
  assert (Hs : forall x, Str.startsWith (Html.escapeUnits x) (String "`"%char p)
                         = Str.startsWith x (String "`"%char p)).
  { intros x. apply startsWith_ticks_escaped. cbn [Html.no_unit].
    now rewrite Hp. }
  rewrite (includes_cons c r).
  destruct (escapeUnits_head c r) as [[Hc E]|[Hc (e & E & He)]].
  - rewrite <- Hs, E, includes_cons, IH. reflexivity.
  - rewrite E, includes_cons. cbn [Str.startsWith].
    replace (Ascii.eqb "&"%char "`"%char) with false by reflexivity.
    rewrite includes_skip by exact He. rewrite IH.
    now rewrite (special_not_backtick c Hc).
Qed.

(** X6 -- [createPromptItemHTML]: the Markdown flag is computed on the
    escaped content.  It is set exactly when the content holds a hash
    sign, an asterisk, an opening bracket, three backticks in a row, or an
    apostrophe: the entity of the apostrophe holds a hash sign. *)
Theorem markdown_flag_characterised (prompt : Prompt) :
  data_is_markdown (createPromptItemHTML prompt)
  = Text.has_unit "#"%char (content prompt)
    || Text.has_unit "*"%char (content prompt)
    || Str.includes (content prompt) "```"
    || Text.has_unit "["%char (content prompt)
    || Text.has_unit "'"%char (content prompt).
Proof.
  unfold createPromptItemHTML. cbn [data_is_markdown].
  rewrite escapeHtml_escapeUnits.
  rewrite !includes_unit.
  rewrite has_unit_escapeUnits_hash, has_unit_escapeUnits_star,
    has_unit_escapeUnits_bracket.
  rewrite (includes_ticks_escaped "``") by reflexivity.
  change Html.apos with "'"%char.
  destruct (Text.has_unit "#"%char (content prompt)),
    (Text.has_unit "'"%char (content prompt)),
    (Text.has_unit "*"%char (content prompt)),
    (Str.includes (content prompt) "```"),
    (Text.has_unit "["%char (content prompt)); reflexivity.
Qed.

(* ================================================================== *)
(** * Further properties: categories *)

Lemma existsb_eqb_In (x : string) (l : list string) :
  existsb (String.eqb x) l = true <-> In x l.
Proof.
  rewrite existsb_exists. split.
  - intros (y & Hy & E). apply String.eqb_eq in E. now subst.
  - intros H. exists x. split; [exact H | apply String.eqb_refl].
Qed.

Lemma set_add_In (x y : string) (l : list string) :
  In y (Template.set_add x l) <-> y = x \/ In y l.
Proof.
  unfold Template.set_add. destruct (existsb (String.eqb x) l) eqn:E.
  - apply existsb_eqb_In in E. split; [now right|]. intros [->|H]; assumption.
  - rewrite in_app_iff. simpl. split.
    + intros [H|[H|[]]]; auto.
    + intros [H|H]; auto.
Qed.

Lemma truthy_iff (s : string) : Str.truthy s = true <-> s <> EmptyString.
Proof. destruct s; simpl; split; congruence. Qed.

Lemma unique_categories_fold (ps : list Prompt) (acc : list string) :
  let r := fold_left (fun categories prompt =>
                        if Str.truthy (category prompt)
                        then Template.set_add (category prompt) categories
                        else categories) ps acc in
  (NoDup acc -> NoDup r) /\
  (forall c, In c r <->
             In c acc \/ (c <> EmptyString /\ exists p, In p ps /\ category p = c)).
Proof.
  revert acc. induction ps as [|p ps IH]; intros acc; cbn [fold_left].
  - split; [auto|]. intros c. split; [auto|]. intros [H|(_ & q & [] & _)]; exact H.
  - destruct (IH (if Str.truthy (category p)
                  then Template.set_add (category p) acc else acc)) as [IH1 IH2].
    split.
    + intros H. apply IH1. destruct (Str.truthy (category p)); [|exact H].
      now apply set_add_NoDup.
    + intros c. rewrite IH2. clear IH1 IH2.
      destruct (Str.truthy (category p)) eqn:T.
      * rewrite set_add_In. apply truthy_iff in T. split.
        -- intros [[->|H]|(Hc & q & Hq & E)].
           ++ right. split; [exact T|]. exists p. split; [now left | reflexivity].
           ++ now left.
           ++ right. split; [exact Hc|]. exists q. split; [now right | exact E].
        -- intros [H|(Hc & q & [->|Hq] & E)].
           ++ left. now right.
           ++ left. left. now symmetry.
           ++ right. split; [exact Hc|]. now exists q.
      * split.
        -- intros [H|(Hc & q & Hq & E)]; [now left|].
           right. split; [exact Hc|]. exists q. split; [now right | exact E].
        -- intros [H|(Hc & q & [->|Hq] & E)]; [now left| |].
           ++ exfalso. apply Hc. destruct (category q); [subst; reflexivity | discriminate].
           ++ right. split; [exact Hc|]. now exists q.
Qed.

(** X7 -- [getUniqueCategories]: the result lists without repetition
    exactly the categories of the prompts that are not empty. *)
Theorem getUniqueCategories_exact (prompts : list Prompt) :
  NoDup (getUniqueCategories prompts) /\
  forall c, In c (getUniqueCategories prompts) <->
            c <> EmptyString /\ exists p, In p prompts /\ category p = c.
Proof.
  destruct (unique_categories_fold prompts []) as [H1 H2].
  split; [apply H1; constructor|].
  intros c. unfold getUniqueCategories. rewrite (H2 c). simpl. tauto.
Qed.

Lemma category_of_inherited (p : Prompt) :
  inherited_member (category_of p) = inherited_member (category p).
Proof.
  unfold category_of. destruct (category p) eqn:E; reflexivity.
Qed.

Lemma existsb_fst_In (c : string) (groups : list (string * list Prompt)) :
  existsb (fun g => String.eqb (fst g) c) groups = true <-> In c (map fst groups).
Proof.
  rewrite existsb_exists, in_map_iff. split.
  - intros (g & Hg & E). apply String.eqb_eq in E. now exists g.
  - intros (g & E & Hg). exists g. split; [exact Hg|]. subst. apply String.eqb_refl.
Qed.

Lemma push_to_keys (c : string) (p : Prompt) (groups : list (string * list Prompt)) :
  map fst (push_to c p groups) = map fst groups.
Proof.
  induction groups as [|[k l] rest IH]; [reflexivity|].
  cbn [push_to]. destruct (String.eqb k c); cbn [map fst]; [reflexivity | now rewrite IH].
Qed.

Lemma push_to_lookup (c c' : string) (p : Prompt) (groups : list (string * list Prompt)) :
  In c (map fst groups) ->
  lookup_group (push_to c p groups) c'
  = lookup_group groups c' ++ (if String.eqb c c' then [p] else []).
Proof.
  unfold lookup_group.
  induction groups as [|[k l] rest IH]; intros Hin; [destruct Hin|].
  cbn [push_to]. destruct (String.eqb_spec k c) as [->|Hk].
  - cbn [find fst]. destruct (String.eqb_spec c c') as [->|Hc]; cbn [snd].
    + reflexivity.
    + now rewrite app_nil_r.
  - cbn [find fst]. destruct (String.eqb_spec k c') as [->|Hk'].
    + cbn [snd]. destruct (String.eqb_spec c c') as [->|Hc]; [congruence|].
      now rewrite app_nil_r.
    + apply IH. destruct Hin as [H|H]; [cbn in H; congruence | exact H].
Qed.

Lemma lookup_new (c c' : string) (p : Prompt) (groups : list (string * list Prompt)) :
  ~ In c (map fst groups) ->
  lookup_group (groups ++ [(c, [p])]) c'
  = lookup_group groups c' ++ (if String.eqb c c' then [p] else []).
Proof.
  unfold lookup_group.
  induction groups as [|[k l] rest IH]; intros Hin.
  - cbn [app find fst]. destruct (String.eqb c c'); reflexivity.
  - cbn [app find fst]. destruct (String.eqb_spec k c') as [->|Hk'].
    + cbn [snd]. destruct (String.eqb_spec c c') as [->|Hc].
      * exfalso. apply Hin. now left.
      * now rewrite app_nil_r.
    + apply IH. intros H. apply Hin. now right.
Qed.

Lemma by_category (c : string) (p : Prompt) (ps : list Prompt) :
  filter (fun q => String.eqb (category_of q) c) (p :: ps)
  = (if String.eqb (category_of p) c then [p] else [])
    ++ filter (fun q => String.eqb (category_of q) c) ps.
Proof. cbn [filter]. now destruct (String.eqb (category_of p) c). Qed.

(** The grouping loop, from any object built so far. *)
Lemma promptsByCategory_spec (ps : list Prompt) (g0 : list (string * list Prompt)) :
  NoDup (map fst g0) ->
  Forall (fun k => inherited_member k = false) (map fst g0) ->
  match promptsByCategory ps g0 with
  | None => exists p, In p ps /\ inherited_member (category p) = true
  | Some g =>
      (forall p, In p ps -> inherited_member (category p) = false) /\
      NoDup (map fst g) /\
      Forall (fun k => inherited_member k = false) (map fst g) /\
      (forall c, In c (map fst g) <->
                 In c (map fst g0) \/ exists p, In p ps /\ category_of p = c) /\
      (forall c, lookup_group g c
                 = lookup_group g0 c
                   ++ filter (fun q => String.eqb (category_of q) c) ps)
  end.
Proof.
  revert g0. induction ps as [|p ps IH]; intros g0 Hnd Hni.
  - cbn [promptsByCategory]. repeat split; auto.
    + intros _ [].
    + intros [H|(q & [] & _)]; exact H.
    + intros c. cbn [filter]. now rewrite app_nil_r.
  - cbn [promptsByCategory].
    destruct (existsb (fun g => String.eqb (fst g) (category_of p)) g0) eqn:Ex.
    + apply existsb_fst_In in Ex.
      assert (Hp : inherited_member (category p) = false).
      { rewrite <- category_of_inherited.
        rewrite Forall_forall in Hni. now apply Hni. }
      specialize (IH (push_to (category_of p) p g0)).
      rewrite push_to_keys in IH. specialize (IH Hnd Hni).
      destruct (promptsByCategory ps (push_to (category_of p) p g0)) as [g|].
      * destruct IH as (H1 & H2 & H3 & H4 & H5). repeat split; auto.
        -- intros q [->|Hq]; auto.
        -- intros H. apply H4 in H. destruct H as [H|(q & Hq & E)]; [now left|].
           right. exists q. split; [now right | exact E].
        -- intros [H|(q & [->|Hq] & E)]; apply H4.
           ++ now left.
           ++ left. now rewrite <- E.
           ++ right. now exists q.
        -- intros c. rewrite H5, push_to_lookup by exact Ex.
           rewrite by_category, <- app_assoc. reflexivity.
      * destruct IH as (q & Hq & E). exists q. split; [now right | exact E].
    + destruct (inherited_member (category_of p)) eqn:Hin.
      * exists p. split; [now left|]. now rewrite <- category_of_inherited.
      * assert (Hfresh : ~ In (category_of p) (map fst g0)).
        { intros H. apply existsb_fst_In in H. congruence. }
        specialize (IH (g0 ++ [(category_of p, [p])])).
        rewrite map_app in IH. cbn [map fst] in IH.
        assert (Hnd' : NoDup (map fst g0 ++ [category_of p])).
        { apply NoDup_app; [exact Hnd | repeat constructor; intros [] | ].
          intros x Hx [<-|[]]. now apply Hfresh. }
        assert (Hni' : Forall (fun k => inherited_member k = false)
                              (map fst g0 ++ [category_of p])).
        { apply Forall_app. split; [exact Hni | now repeat constructor]. }
        specialize (IH Hnd' Hni').
        destruct (promptsByCategory ps (g0 ++ [(category_of p, [p])])) as [g|].
        -- destruct IH as (H1 & H2 & H3 & H4 & H5). repeat split; auto.
           ++ intros q [<-|Hq]; auto. now rewrite <- category_of_inherited.
           ++ intros H. apply H4 in H. rewrite in_app_iff in H.
              destruct H as [[H|[<-|[]]]|(q & Hq & E)].
              ** now left.
              ** right. exists p. split; [now left | reflexivity].
              ** right. exists q. split; [now right | exact E].
           ++ intros [H|(q & [->|Hq] & E)]; apply H4; rewrite in_app_iff.
              ** left. now left.
              ** left. right. left. exact E.
              ** right. now exists q.
           ++ intros c. rewrite H5, lookup_new by exact Hfresh.
              rewrite by_category, <- app_assoc. reflexivity.
        -- destruct IH as (q & Hq & E). exists q. split; [now right | exact E].
Qed.

(** X8 -- [renderPromptsByCategory] raises exactly when some prompt has a
    category that names a member every object inherits ([constructor],
    [toString], [__proto__], ...): the lookup [promptsByCategory[category]]
    then finds that member, no array is created, and [push] is no
    function. *)
Theorem render_raises_iff (prompts : list Prompt) (expanded : option string) :
  renderPromptsByCategory prompts expanded = None <->
  exists p, In p prompts /\ inherited_member (category p) = true.
Proof.
  unfold renderPromptsByCategory.
  pose proof (promptsByCategory_spec prompts [] (NoDup_nil _) (Forall_nil _)) as H.
  destruct (promptsByCategory prompts []) as [g|].
  - destruct H as (H1 & _). split; [discriminate|].
    intros (p & Hp & E). rewrite (H1 p Hp) in E. discriminate.
  - split; [intros _; exact H | reflexivity].
Qed.

(* ================================================================== *)
(** * Further properties: property order of an object *)

Lemma insert_index_In (k x : N * string) (l : list (N * string)) :
  In x (Template.insert_index k l) <-> x = k \/ In x l.
Proof.
  induction l as [|h t IH]; cbn [Template.insert_index].
  - simpl. intuition.
  - destruct (fst k <? fst h)%N; simpl; [intuition|].
    rewrite IH. intuition.
Qed.

Lemma insert_index_NoDup (k : N * string) (l : list (N * string)) :
  ~ In (snd k) (map snd l) -> NoDup (map snd l) ->
  NoDup (map snd (Template.insert_index k l)).
Proof.
  induction l as [|h t IH]; cbn [Template.insert_index]; intros Hk Hl.
  - simpl. constructor; [intros [] | constructor].
  - destruct (fst k <? fst h)%N.
    + cbn [map]. constructor; assumption.
    + cbn [map] in *. inversion Hl as [|? ? Hh Ht]; subst.
      constructor.
      * rewrite in_map_iff. intros (x & E & Hx).
        apply insert_index_In in Hx. destruct Hx as [->|Hx].
        -- apply Hk. now left.
        -- apply Hh. rewrite <- E. now apply in_map.
      * apply IH; [|exact Ht]. intros H. apply Hk. now right.
Qed.

Lemma index_fold (keys : list string) (acc : list (N * string)) :
  let r := fold_left (fun acc k => match Template.array_index k with
                                   | Some n => Template.insert_index (n, k) acc
                                   | None => acc
                                   end) keys acc in
  (forall k, In k (map snd r) <->
             In k (map snd acc) \/ (In k keys /\ Template.array_index k <> None)) /\
  (NoDup keys -> NoDup (map snd acc) ->
   (forall k, In k keys -> ~ In k (map snd acc)) -> NoDup (map snd r)).
Proof.
  revert acc. induction keys as [|k keys IH]; intros acc; cbn [fold_left].
  - split; [|auto]. intros k. simpl. tauto.
  - destruct (Template.array_index k) as [n|] eqn:E.
    + destruct (IH (Template.insert_index (n, k) acc)) as [IH1 IH2]. split.
      * intros x. rewrite IH1. clear IH1 IH2.
        assert (Hin : In x (map snd (Template.insert_index (n, k) acc))
                      <-> x = k \/ In x (map snd acc)).
        { rewrite !in_map_iff. split.
          - intros (y & Ey & Hy). apply insert_index_In in Hy.
            destruct Hy as [->|Hy]; [now left|]. right. now exists y.
          - intros [->|(y & Ey & Hy)].
            + exists (n, k). split; [reflexivity|]. apply insert_index_In. now left.
            + exists y. split; [exact Ey|]. apply insert_index_In. now right. }
        rewrite Hin. simpl. split.
        -- intros [[->|H]|[H1 H2]]; auto.
           right. split; [now left | congruence].
        -- intros [H|[[->|H1] H2]]; auto.
      * intros Hnd Hacc Hdis. inversion Hnd as [|? ? Hk Hks]; subst.
        apply IH2; [exact Hks| |].
        -- apply (insert_index_NoDup (n, k)); [|exact Hacc].
           apply Hdis. now left.
        -- intros x Hx H. rewrite in_map_iff in H. destruct H as (y & Ey & Hy).
           apply insert_index_In in Hy. destruct Hy as [->|Hy].
           ++ simpl in Ey. subst x. contradiction.
           ++ apply (Hdis x); [now right|]. rewrite <- Ey. now apply in_map.
    + destruct (IH acc) as [IH1 IH2]. split.
      * intros x. rewrite IH1. simpl. split.
        -- intros [H|[H1 H2]]; auto.
        -- intros [H|[[->|H1] H2]]; auto. congruence.
      * intros Hnd Hacc Hdis. inversion Hnd; subst.
        apply IH2; auto. intros x Hx. apply Hdis. now right.
Qed.

Lemma own_keys_In (keys : list string) (k : string) :
  In k (Template.own_keys keys) <-> In k keys /\ k <> "__proto__".
Proof.
  unfold Template.own_keys, Template.index_keys, Template.named_keys.
  rewrite in_app_iff, filter_In.
  destruct (index_fold keys []) as [H _]. cbv zeta in H. rewrite (H k). simpl.
  destruct (Template.array_index k) as [n|] eqn:E.
  - assert (k <> "__proto__") by (intros ->; discriminate).
    split.
    + intros [[[]|[H1 _]]|[_ H1]]; [auto | discriminate].
    + intros [H1 _]. left. right. split; [exact H1 | discriminate].
  - destruct (String.eqb_spec k "__proto__") as [->|Hk]; simpl.
    + split.
      * intros [[[]|[_ H1]]|[_ H1]]; [congruence | discriminate].
      * intros [_ H1]. congruence.
    + split.
      * intros [[[]|[_ H1]]|[H1 _]]; [congruence | auto].
      * intros [H1 _]. right. auto.
Qed.

Lemma own_keys_NoDup (keys : list string) :
  NoDup keys -> NoDup (Template.own_keys keys).
Proof.
  intros Hnd. unfold Template.own_keys.
  destruct (index_fold keys []) as [H1 H2]. cbv zeta in H1, H2.
  apply NoDup_app.
  - apply H2; [exact Hnd | constructor | intros k _ []].
  - unfold Template.named_keys. now apply NoDup_filter.
  - unfold Template.index_keys. intros k Hk Hn.
    apply H1 in Hk. destruct Hk as [[]|[_ Hk]].
    unfold Template.named_keys in Hn. apply filter_In in Hn.
    destruct Hn as [_ Hn]. destruct (Template.array_index k); [discriminate | congruence].
Qed.

(* ================================================================== *)
(** * Further properties: the rendered list *)

(** X9 -- [renderPromptsByCategory], when it returns: the accordion has
    one item per category in use (the category of a prompt without one is
    [uncategorized]), no category twice; each item shows exactly the
    prompts of its category, in the order of the list, and its badge is
    their number; only the item of the category passed as expanded is
    expanded. *)
Theorem render_partitions (prompts : list Prompt) (expanded : option string)
        (groups : list CategoryGroup) :
  renderPromptsByCategory prompts expanded = Some groups ->
  NoDup (map group_category groups) /\
  (forall c, In c (map group_category groups) <->
             exists p, In p prompts /\ category_of p = c) /\
  Forall (fun g =>
            group_items g
            = map createPromptItemHTML
                  (filter (fun q => String.eqb (category_of q) (group_category g)) prompts)
            /\ group_badge g
               = List.length
                   (filter (fun q => String.eqb (category_of q) (group_category g)) prompts)
            /\ (group_expanded g = true -> expanded = Some (group_category g)))
         groups.
Proof.
  unfold renderPromptsByCategory.
  pose proof (promptsByCategory_spec prompts [] (NoDup_nil _) (Forall_nil _)) as H.
  destruct (promptsByCategory prompts []) as [g|]; [|discriminate].
  destruct H as (_ & Hnd & Hni & Hkeys & Hlook).
  intros E. injection E as <-.
  rewrite map_map. cbn [group_category]. rewrite map_id.
  split; [now apply own_keys_NoDup|]. split.
  - intros c. rewrite own_keys_In, Hkeys. simpl. split.
    + intros [[[]|H] _]. exact H.
    + intros H. split; [now right|]. intros ->.
      assert (Hc : In "__proto__" (map fst g)) by (apply Hkeys; now right).
      rewrite Forall_forall in Hni. apply Hni in Hc. discriminate.
  - apply Forall_forall. intros x Hx. apply in_map_iff in Hx.
    destruct Hx as (c & <- & _). cbn [group_items group_badge group_expanded group_category].
    rewrite Hlook. cbn [lookup_group find app]. repeat split.
    destruct expanded as [x|]; [|discriminate].
    intros H. apply String.eqb_eq in H. now subst.
Qed.

(* ================================================================== *)
(** * Further properties: the search box *)

Lemma startsWith_iff (s p : string) :
  Str.startsWith s p = true <-> exists post, s = (p ++ post)%string.
Proof.
  revert s. induction p as [|b p IH]; intros s.
  - rewrite startsWith_empty. split; [intros _; now exists s | reflexivity].
  - destruct s as [|a s]; cbn [Str.startsWith].
    + split; [discriminate | intros (post & E); discriminate].
    + destruct (Ascii.eqb_spec a b) as [->|Hab].
      * rewrite IH. split; intros (post & E); exists post.
        -- now rewrite E.
        -- now injection E.
      * split; [discriminate|]. intros (post & E). injection E as E1 _. contradiction.
Qed.

Lemma includes_iff (s sub : string) :
  Str.includes s sub = true <-> exists pre post, s = (pre ++ sub ++ post)%string.
Proof.
  induction s as [|a s IH].
  - cbn [Str.includes]. destruct (Str.startsWith "" sub) eqn:E.
    + apply startsWith_iff in E. destruct E as (post & E).
      split; [intros _|reflexivity]. now exists "", post.
    + split; [discriminate|]. intros (pre & post & H).
      destruct pre; [|discriminate].
      assert (Str.startsWith "" sub = true) by (apply startsWith_iff; now exists post).
      congruence.
  - rewrite includes_cons. rewrite Bool.orb_true_iff, IH, startsWith_iff. split.
    + intros [(post & E)|(pre & post & E)].
      * now exists "", post.
      * exists (String a pre), post. now rewrite E.
    + intros ([|c pre] & post & E).
      * left. now exists post.
      * right. injection E as _ E. now exists pre, post.
Qed.

Lemma includes_trans (s m sub : string) :
  Str.includes s m = true -> Str.includes m sub = true -> Str.includes s sub = true.
Proof.
  rewrite !includes_iff. intros (a & b & ->) (c & d & ->).
  exists (a ++ c)%string, (d ++ b)%string. now rewrite !append_assoc.
Qed.


Lemma toLowerCase_nil_iff (s : string) :
  Str.toLowerCase s = EmptyString <-> s = EmptyString.
Proof. destruct s; simpl; split; congruence. Qed.


(** *** White space at the ends of a text *)


Lemma text_of_nil_iff (l : list (bool * ascii)) :
  Str.text_of l = EmptyString <-> l = [].
Proof. destruct l; simpl; split; congruence. Qed.

Lemma drop_white_nil_iff (l : list (bool * ascii)) :
  Str.drop_white l = [] <-> forallb fst l = true.
Proof.
  induction l as [|[[|] c] l IH]; simpl.
  - split; reflexivity.
  - exact IH.
  - split; discriminate.
Qed.

Lemma drop_white_head (l : list (bool * ascii)) :
  Str.drop_white l = [] \/ exists c r, Str.drop_white l = (false, c) :: r.
Proof.
  induction l as [|[[|] c] l IH]; simpl.
  - now left.
  - exact IH.
  - right. now exists c, l.
Qed.




Lemma forallb_rev {A} (f : A -> bool) (l : list A) :
  forallb f (rev l) = forallb f l.
Proof.
  induction l as [|x l IH]; [reflexivity|].
  simpl. rewrite forallb_app, IH. simpl. rewrite Bool.andb_true_r. apply Bool.andb_comm.
Qed.

(** What is left of a list of units once the white space at both ends is
    dropped is empty exactly when all of it is white. *)
Lemma trimmed_nil_iff (l : list (bool * ascii)) :
  rev (Str.drop_white (rev (Str.drop_white l))) = [] <-> forallb fst l = true.
Proof.
  split.
  - intros H.
    assert (H1 : Str.drop_white (rev (Str.drop_white l)) = []).
    { destruct (Str.drop_white (rev (Str.drop_white l))) as [|x r]; [reflexivity|].
      simpl in H. destruct (rev r); discriminate. }
    apply drop_white_nil_iff in H1. rewrite forallb_rev in H1.
    apply drop_white_nil_iff.
    destruct (drop_white_head l) as [E|(c & r & E)]; [exact E|].
    rewrite E in H1. discriminate.
  - intros H. apply drop_white_nil_iff in H. now rewrite H.
Qed.

Lemma trim_nil_iff (s : string) : Text.trim s = EmptyString <-> Str.all_space s = true.
Proof.
  unfold Text.trim, Str.all_space. rewrite text_of_nil_iff. apply trimmed_nil_iff.
Qed.



(** *** Text of ASCII units *)










(** *** The search *)



(** X12 -- [handleSearch] goes back to the full list (it clicks the 'all'
    tag) exactly when the search box holds nothing but white space, that
    of [String.prototype.trim]: the ASCII one, the no-break and the
    ideographic space, the other Unicode spaces, the line and paragraph
    separators and the byte order mark.  Of the browser's lower-casing the
    statement takes that it maps no text but the empty one to the empty
    text. *)
Theorem search_resets_iff_blank (toLowerCase : string -> string) (typed : string)
        (prompts : list Prompt) :
  (forall s, toLowerCase s = EmptyString <-> s = EmptyString) ->
  (handleSearch toLowerCase typed prompts = ShowAll <-> Str.all_space typed = true).
Proof.
  intros Hlow. rewrite <- trim_nil_iff, <- (Hlow (Text.trim typed)).
  unfold handleSearch.
  destruct (toLowerCase (Text.trim typed)) as [|c q]; cbn [Str.truthy].
  - split; reflexivity.
  - split; [|discriminate].
    destruct (filter _ prompts); discriminate.
Qed.


(* ================================================================== *)
(** * Further properties: the prompt store *)

Lemma available_mutate (f : list Prompt -> list Prompt) (s : Store) :
  availablePrompts (mutate f s) = f (availablePrompts s).
Proof. unfold availablePrompts, mutate. now destruct (aliased s). Qed.

Lemma synced_mutate (f : list Prompt -> list Prompt) (s : Store) :
  synced (mutate f s) = synced s.
Proof. unfold mutate. now destruct (aliased s). Qed.

Lemma available_save (c : Chrome) (s : Store) :
  availablePrompts (fst (savePromptsToStorage c (availablePrompts s) s))
  = availablePrompts s.
Proof.
  unfold savePromptsToStorage.
  destruct (runtime_id c); [|reflexivity].
  destruct (set_result c); try reflexivity.
  cbn [fst]. unfold store_prompts. cbv zeta.
  destruct (change_reported c); reflexivity.
Qed.

Lemma defaults_save (c : Chrome) (prompts : list Prompt) (s : Store) :
  DEFAULT_PROMPTS (fst (savePromptsToStorage c prompts s)) = DEFAULT_PROMPTS s.
Proof.
  unfold savePromptsToStorage.
  destruct (runtime_id c); [|reflexivity].
  destruct (set_result c); try reflexivity.
  cbn [fst]. unfold store_prompts. cbv zeta.
  destruct (change_reported c); reflexivity.
Qed.

Lemma save_failed (c : Chrome) (prompts : list Prompt) (s : Store) (e : StoreError) :
  snd (savePromptsToStorage c prompts s) = Failed e ->
  fst (savePromptsToStorage c prompts s) = s /\ (e = LastError \/ e = Thrown).
Proof.
  unfold savePromptsToStorage.
  destruct (runtime_id c); [|discriminate].
  destruct (set_result c) as [| |[]]; cbn [fst snd]; try discriminate;
    intros H; injection H as <-; auto.
Qed.

Lemma findIndex_none_iff (id : string) (l : list Prompt) :
  findIndex id l = None <-> forall p, In p l -> prompt_id p <> id.
Proof.
  induction l as [|q l IH]; cbn [findIndex].
  - split; [intros _ p [] | reflexivity].
  - destruct (String.eqb_spec (prompt_id q) id) as [E|E].
    + split; [discriminate|]. intros H. exfalso. apply (H q); [now left | exact E].
    + destruct (findIndex id l) as [n|]; cbn [option_map].
      * split; [discriminate|]. intros H.
        exfalso. assert (Some n = None); [|discriminate].
        apply IH. intros p Hp. apply H. now right.
      * split; [|reflexivity]. intros _ p [<-|Hp]; [exact E|].
        destruct IH as [IH _]. now apply IH.
Qed.

Lemma findIndex_split (id : string) (l : list Prompt) (i : nat) :
  findIndex id l = Some i ->
  exists before old after,
    l = before ++ old :: after /\ List.length before = i /\
    prompt_id old = id /\ (forall p, In p before -> prompt_id p <> id).
Proof.
  revert i. induction l as [|q l IH]; intros i; cbn [findIndex]; [discriminate|].
  destruct (String.eqb_spec (prompt_id q) id) as [E|E].
  - intros H. injection H as <-. exists [], q, l. repeat split; auto.
  - destruct (findIndex id l) as [n|]; cbn [option_map]; [|discriminate].
    intros H. injection H as <-.
    destruct (IH n eq_refl) as (b & o & a & -> & Hl & Ho & Hb).
    exists (q :: b), o, a. repeat split; auto.
    + simpl. now rewrite Hl.
    + intros p [<-|Hp]; auto.
Qed.

Lemma assign_at_split (f : Prompt -> Prompt) (before after : list Prompt) (old : Prompt) :
  assign_at (List.length before) f (before ++ old :: after) = before ++ f old :: after.
Proof.
  induction before as [|q b IH]; [reflexivity|].
  cbn [List.length app assign_at]. now rewrite IH.
Qed.

(** X14 -- [updatePrompt]: it is rejected with 'not found', and nothing
    changes, exactly when no prompt has the id.  Otherwise only the first
    prompt with that id is replaced, by the old prompt overlaid with the
    fields given and the same id; the ids of the list, and so its length,
    are what they were. *)
Theorem updatePrompt_first_match (c : Chrome) (id : string) (updatedPrompt : Patch)
        (s : Store) :
  ((forall p, In p (availablePrompts s) -> prompt_id p <> id) /\
   updatePrompt c id updatedPrompt s = (s, Failed (PromptNotFound id))) \/
  (exists before old after,
     availablePrompts s = before ++ old :: after /\
     (forall p, In p before -> prompt_id p <> id) /\ prompt_id old = id /\
     availablePrompts (fst (updatePrompt c id updatedPrompt s))
     = before ++ merge old updatedPrompt id :: after /\
     map prompt_id (availablePrompts (fst (updatePrompt c id updatedPrompt s)))
     = map prompt_id (availablePrompts s) /\
     snd (updatePrompt c id updatedPrompt s) <> Failed (PromptNotFound id)).
Proof.
  unfold updatePrompt. destruct (findIndex id (availablePrompts s)) as [i|] eqn:F.
  - right. destruct (findIndex_split _ _ _ F) as (b & o & a & E & Hl & Ho & Hb).
    exists b, o, a. repeat split; auto.
    + rewrite available_save, available_mutate, E, <- Hl. apply assign_at_split.
    + rewrite available_save, available_mutate, E, <- Hl, assign_at_split.
      rewrite !map_app. cbn [map merge prompt_id]. now rewrite Ho.
    + intros H. apply save_failed in H. destruct H as [_ [H|H]]; discriminate.
  - left. split; [|reflexivity]. now apply findIndex_none_iff.
Qed.

Lemma filter_length_all {A} (f : A -> bool) (l : list A) :
  List.length (filter f l) = List.length l <-> forall x, In x l -> f x = true.
Proof.
  induction l as [|a l IH]; cbn [filter].
  - split; [intros _ x [] | reflexivity].
  - pose proof (filter_length_le f l) as Hle. destruct (f a) eqn:E; cbn [List.length].
    + split.
      * intros H x [<-|Hx]; [exact E|]. apply IH; [lia | exact Hx].
      * intros H. f_equal. apply IH. intros x Hx. apply H. now right.
    + split; [lia|]. intros H. specialize (H a (or_introl eq_refl)). congruence.
Qed.

(** X15 -- [deletePrompt]: it is rejected with 'not found', and nothing
    changes, exactly when no prompt has the id.  Otherwise every prompt
    with that id is removed, also when several share it; the others keep
    their order, and the array of the defaults is not touched. *)
Theorem deletePrompt_removes_every_match (c : Chrome) (id : string) (s : Store) :
  ((forall p, In p (availablePrompts s) -> prompt_id p <> id) /\
   deletePrompt c id s = (s, Failed (PromptNotFound id))) \/
  ((exists p, In p (availablePrompts s) /\ prompt_id p = id) /\
   availablePrompts (fst (deletePrompt c id s))
   = filter (fun p => negb (String.eqb (prompt_id p) id)) (availablePrompts s) /\
   (forall p, In p (availablePrompts (fst (deletePrompt c id s))) -> prompt_id p <> id) /\
   DEFAULT_PROMPTS (fst (deletePrompt c id s)) = DEFAULT_PROMPTS s /\
   snd (deletePrompt c id s) <> Failed (PromptNotFound id)).
Proof.
  unfold deletePrompt.
  set (keep := fun p => negb (String.eqb (prompt_id p) id)).
  destruct (List.length (filter keep (availablePrompts s))
            =? List.length (availablePrompts s)) eqn:L.
  - left. split; [|reflexivity]. apply Nat.eqb_eq in L.
    intros p Hp. apply (proj1 (filter_length_all keep _) L) in Hp.
    unfold keep in Hp. apply Bool.negb_true_iff in Hp. now apply String.eqb_neq.
  - right. apply Nat.eqb_neq in L.
    assert (Hav : availablePrompts
                    (fst (savePromptsToStorage c
                            (availablePrompts (bind_fresh (filter keep (availablePrompts s)) s))
                            (bind_fresh (filter keep (availablePrompts s)) s)))
                  = filter keep (availablePrompts s)) by now rewrite available_save.
    repeat split.
    + destruct (existsb (fun p => String.eqb (prompt_id p) id) (availablePrompts s)) eqn:E.
      * apply existsb_exists in E. destruct E as (p & Hp & E).
        apply String.eqb_eq in E. now exists p.
      * exfalso. apply L. apply filter_length_all. intros p Hp.
        unfold keep. apply Bool.negb_true_iff.
        destruct (String.eqb (prompt_id p) id) eqn:E'; [|reflexivity].
        assert (existsb (fun p => String.eqb (prompt_id p) id) (availablePrompts s) = true)
          by (apply existsb_exists; now exists p).
        congruence.
    + exact Hav.
    + intros p. rewrite Hav. intros Hp. apply filter_In in Hp. destruct Hp as [_ Hp].
      unfold keep in Hp. apply Bool.negb_true_iff in Hp. now apply String.eqb_neq.
    + now rewrite defaults_save.
    + intros H. apply save_failed in H. destruct H as [_ [H|H]]; discriminate.
Qed.

Lemma available_run_mutator (c : Chrome) (op : StoreOp) (s : Store) :
  op <> OpLoad ->
  availablePrompts (fst (run_op c op s))
  = match op with
    | OpLoad => availablePrompts s
    | OpAdd p => availablePrompts s ++ [with_id c p]
    | OpUpdate id patch =>
        match findIndex id (availablePrompts s) with
        | Some i => assign_at i (fun old => merge old patch id) (availablePrompts s)
        | None => availablePrompts s
        end
    | OpDelete id =>
        filter (fun p => negb (String.eqb (prompt_id p) id)) (availablePrompts s)
    | OpChanged newValue => match newValue with Some l => l | None => [] end
    end.
Proof.
  intros Hop. destruct op as [|p|id patch|id|nv]; cbn [run_op];
    [congruence| | | |reflexivity].
  - unfold addPrompt. now rewrite available_save, available_mutate.
  - unfold updatePrompt. destruct (findIndex id (availablePrompts s)); [|reflexivity].
    now rewrite available_save, available_mutate.
  - unfold deletePrompt.
    destruct (List.length (filter _ (availablePrompts s))
              =? List.length (availablePrompts s)) eqn:L.
    + apply Nat.eqb_eq in L. cbn [fst]. symmetry.
      pose proof (proj1 (filter_length_all _ _) L) as H.
      clear L. induction (availablePrompts s) as [|q l IH]; [reflexivity|].
      cbn [filter]. rewrite (H q) by now left. f_equal. apply IH.
      intros x Hx. apply H. now right.
    + now rewrite available_save.
Qed.

Lemma synced_run_failed (c : Chrome) (op : StoreOp) (s : Store) (e : StoreError) :
  op <> OpLoad -> snd (run_op c op s) = Failed e -> synced (fst (run_op c op s)) = synced s.
Proof.
  intros Hop. destruct op as [|p|id patch|id|nv]; cbn [run_op];
    [congruence| | | |discriminate].
  - unfold addPrompt. intros H. apply save_failed in H. destruct H as [-> _].
    apply synced_mutate.
  - unfold updatePrompt. destruct (findIndex id (availablePrompts s)); [|reflexivity].
    intros H. apply save_failed in H. destruct H as [-> _]. apply synced_mutate.
  - unfold deletePrompt.
    destruct (List.length (filter _ (availablePrompts s))
              =? List.length (availablePrompts s)); [reflexivity|].
    intros H. apply save_failed in H. destruct H as [-> _]. reflexivity.
Qed.

Lemma available_add (c : Chrome) (p : Prompt) (s : Store) :
  availablePrompts (fst (addPrompt c p s)) = availablePrompts s ++ [with_id c p].
Proof. apply (available_run_mutator c (OpAdd p) s). discriminate. Qed.

Lemma available_delete (c : Chrome) (id : string) (s : Store) :
  availablePrompts (fst (deletePrompt c id s))
  = filter (fun p => negb (String.eqb (prompt_id p) id)) (availablePrompts s).
Proof. apply (available_run_mutator c (OpDelete id) s). discriminate. Qed.

Lemma defaults_delete (c : Chrome) (id : string) (s : Store) :
  DEFAULT_PROMPTS (fst (deletePrompt c id s)) = DEFAULT_PROMPTS s.
Proof.
  unfold deletePrompt.
  destruct (List.length (filter _ (availablePrompts s))
            =? List.length (availablePrompts s)); [reflexivity|].
  now rewrite defaults_save.
Qed.

(** X16 -- [addPrompt], [updatePrompt], [deletePrompt]: the list in
    memory is changed before the write to storage and is not put back when
    the write fails.  Whatever the runtime answers, the list in memory is
    the one of a successful call; and when the call is rejected, storage
    holds what it held. *)
Theorem store_change_is_not_rolled_back (c c' : Chrome) (op : StoreOp) (s : Store) :
  op <> OpLoad -> now c = now c' ->
  availablePrompts (fst (run_op c op s)) = availablePrompts (fst (run_op c' op s)) /\
  (forall e, snd (run_op c op s) = Failed e -> synced (fst (run_op c op s)) = synced s).
Proof.
  intros Hop Hnow. split.
  - rewrite !available_run_mutator by exact Hop.
    destruct op; try reflexivity. unfold with_id. now rewrite Hnow.
  - intros e. now apply synced_run_failed.
Qed.

Lemma defaults_run_op_nonempty (c : Chrome) (op : StoreOp) (s : Store) :
  DEFAULT_PROMPTS s <> [] -> DEFAULT_PROMPTS (fst (run_op c op s)) <> [].
Proof.
  intros H. destruct op as [|p|id patch|id|nv]; cbn [run_op]; [| | | |exact H].
  - unfold loadPrompts. destruct (get_result c); cbn [fst]; try exact H.
    destruct (synced s) as [[|q l]|]; cbn [fst]; try exact H;
      now rewrite defaults_save.
  - unfold addPrompt. rewrite defaults_save. unfold mutate.
    destruct (aliased s); cbn [DEFAULT_PROMPTS]; [|exact H].
    destruct (DEFAULT_PROMPTS s); [congruence | discriminate].
  - unfold updatePrompt. destruct (findIndex id (availablePrompts s)) as [i|]; [|exact H].
    rewrite defaults_save. unfold mutate.
    destruct (aliased s); cbn [DEFAULT_PROMPTS]; [|exact H].
    destruct (DEFAULT_PROMPTS s) as [|q l]; [congruence|].
    destruct i; discriminate.
  - unfold deletePrompt.
    destruct (List.length (filter _ (availablePrompts s))
              =? List.length (availablePrompts s)); [exact H|].
    now rewrite defaults_save.
Qed.

Lemma defaults_run_ops_nonempty (ops : list (Chrome * StoreOp)) (s : Store) :
  DEFAULT_PROMPTS s <> [] -> DEFAULT_PROMPTS (run_ops ops s) <> [].
Proof.
  revert s. induction ops as [|[c op] ops IH]; intros s H; [exact H|].
  cbn [run_ops]. apply IH. now apply defaults_run_op_nonempty.
Qed.

Lemma available_bind_defaults_save (c : Chrome) (s : Store) :
  availablePrompts (fst (savePromptsToStorage c (DEFAULT_PROMPTS (bind_defaults s))
                                              (bind_defaults s)))
  = DEFAULT_PROMPTS s.
Proof. exact (available_save c (bind_defaults s)). Qed.

Lemma loadPrompts_fulfilled (c : Chrome) (s : Store) :
  snd (loadPrompts c s) = Fulfilled ->
  (exists p l, synced s = Some (p :: l) /\ falls_back c s = false /\
               availablePrompts (fst (loadPrompts c s)) = p :: l) \/
  (falls_back c s = true /\
   availablePrompts (fst (loadPrompts c s)) = DEFAULT_PROMPTS s).
Proof.
  unfold loadPrompts, falls_back. destruct (get_result c); cbn [fst snd]; [| |discriminate].
  - intros _. destruct (synced s) as [[|p l]|] eqn:E; cbn [fst].
    + right. split; [reflexivity | apply available_bind_defaults_save].
    + left. exists p, l. auto.
    + right. split; [reflexivity | apply available_bind_defaults_save].
  - intros _. right. auto.
Qed.

Lemma falls_back_fulfilled (c : Chrome) (s : Store) :
  falls_back c s = true -> snd (loadPrompts c s) = Fulfilled.
Proof.
  unfold loadPrompts, falls_back. destruct (get_result c); try discriminate; intros _.
  - destruct (synced s) as [[|? ?]|]; reflexivity.
  - reflexivity.
Qed.

(** X17 -- [loadPrompts] never leaves the list empty.  After any sequence
    of loads, additions, updates, deletions and changes of storage from
    outside, a load that is fulfilled gives at least one prompt: an empty
    array in storage (every prompt deleted) is answered with the defaults,
    and the array of the defaults never shrinks. *)
Theorem load_never_empty (ops : list (Chrome * StoreOp)) (stored : option (list Prompt))
        (c : Chrome) :
  snd (loadPrompts c (run_ops ops (initial_store stored))) = Fulfilled ->
  availablePrompts (fst (loadPrompts c (run_ops ops (initial_store stored)))) <> [].
Proof.
  intros H. apply loadPrompts_fulfilled in H.
  destruct H as [(p & l & _ & _ & ->)|(_ & ->)]; [discriminate|].
  apply defaults_run_ops_nonempty. discriminate.
Qed.

Lemma filter_app_last (f : Prompt -> bool) (l : list Prompt) (p : Prompt) :
  (forall q, In q l -> f q = true) -> f p = false -> filter f (l ++ [p]) = l.
Proof.
  intros Hl Hp. rewrite filter_app. cbn [filter]. rewrite Hp, app_nil_r.
  induction l as [|q l IH]; [reflexivity|].
  cbn [filter]. rewrite (Hl q) by now left. f_equal. apply IH.
  intros x Hx. apply Hl. now right.
Qed.

(** X18 -- [addPrompt] then [deletePrompt]: for a prompt whose id no
    other prompt has, deleting it right after adding it gives back the list
    in memory as it was, whatever the runtime answers to the two writes. *)
Theorem add_then_delete_restores (c1 c2 : Chrome) (newPrompt : Prompt) (s : Store) :
  (forall q, In q (availablePrompts s) -> prompt_id q <> prompt_id (with_id c1 newPrompt)) ->
  availablePrompts
    (fst (deletePrompt c2 (prompt_id (with_id c1 newPrompt))
                       (fst (addPrompt c1 newPrompt s))))
  = availablePrompts s.
Proof.
  intros Hfresh.
  rewrite available_delete, available_add.
  apply filter_app_last.
  - intros q Hq. apply Bool.negb_true_iff. apply String.eqb_neq. now apply Hfresh.
  - now rewrite String.eqb_refl.
Qed.

(** X19 -- The defaults are not constant.  While the list in memory is
    the array of [DEFAULT_PROMPTS] (after a load that could not read
    storage, or whose write of the defaults did not go through),
    [addPrompt] pushes onto that array.  [deletePrompt] then removes the
    prompt from the list in memory only: the next load that falls back to
    the defaults brings the deleted prompt back. *)
Theorem deleted_prompt_returns_with_defaults (c1 c2 c3 : Chrome) (newPrompt : Prompt)
        (s : Store) :
  aliased s = true ->
  falls_back c3 (fst (deletePrompt c2 (prompt_id (with_id c1 newPrompt))
                                   (fst (addPrompt c1 newPrompt s)))) = true ->
  ~ In (with_id c1 newPrompt)
       (availablePrompts (fst (deletePrompt c2 (prompt_id (with_id c1 newPrompt))
                                            (fst (addPrompt c1 newPrompt s))))) /\
  In (with_id c1 newPrompt)
     (availablePrompts
        (fst (loadPrompts c3
                (fst (deletePrompt c2 (prompt_id (with_id c1 newPrompt))
                                   (fst (addPrompt c1 newPrompt s))))))).
Proof.
  intros Ha Hl.
  set (p := with_id c1 newPrompt) in *.
  set (s1 := fst (addPrompt c1 newPrompt s)) in *.
  set (s2 := fst (deletePrompt c2 (prompt_id p) s1)) in *.
  assert (Hd : DEFAULT_PROMPTS s2 = DEFAULT_PROMPTS s ++ [p]).
  { unfold s2. rewrite defaults_delete. unfold s1, addPrompt.
    rewrite defaults_save. unfold mutate. now rewrite Ha. }
  split.
  - unfold s2. rewrite available_delete. intros H. apply filter_In in H.
    destruct H as [_ H]. now rewrite String.eqb_refl in H.
  - pose proof (falls_back_fulfilled c3 s2 Hl) as Hf.
    destruct (loadPrompts_fulfilled c3 s2 Hf) as [(q & l & _ & Hn & _)|(_ & ->)].
    + congruence.
    + rewrite Hd. apply in_or_app. right. now left.
Qed.

(* ================================================================== *)
(** * Further properties: replies, sending and the popup *)






Lemma _performInsertion_raised (env : Env) (text : string) (p : Page) (ta : Element) :
  findAIInput p = Some ta -> focus_throws env = true ->
  clipboard_api env && writeText_ok env = false ->
  _performInsertion env text p
  = {| outcome := Rejected ErrThrown;
       page_after := update_page p ta (clipboard p);
       target := Some ta;
       trace := tagged Inserter
                  ([Log LogStartLowLevel; Log LogInputFound; Log LogErrorInserting]
                   ++ if clipboard_api env
                      then [ClipboardWrite text false; Log LogCopyAlsoFailed;
                            Notify MsgInsertAndCopyFailed SevError 6000%N]
                      else []) |}.
Proof.
  intros Hf Ht Hc. unfold _performInsertion, findChatGPTInput. rewrite Hf, Ht.
  unfold catch_fallback. cbv zeta.
  destruct (clipboard_api env); [|reflexivity].
  cbn [andb] in Hc. rewrite Hc. reflexivity.
Qed.

(** X22 -- The send button's handler when the insertion itself fails: the
    input is located, a DOM call of the insertion raises and the clipboard
    fallback cannot copy.  The input is not written to, nothing reaches
    the clipboard, the promise is rejected and [sendPrompt] is not called;
    the handler's catch, written for a failed send, then shows 'prompt
    inserted, send manually', in place of the inserter's own toast
    'insertion and copy failed' when there was one. *)
Theorem send_manually_toast_after_failed_insertion (env : Env) (user : UserAction)
        (text : string) (p : Page) (ta : Element) :
  findAIInput p = Some ta -> focus_throws env = true ->
  clipboard_api env && writeText_ok env = false ->
  Template.variables text = [] \/ cancels user = false ->
  target (onSendClick env user text p) = Some ta /\
  clipboard (page_after (onSendClick env user text p)) = clipboard p /\
  Forall (fun a => fst a <> Sender) (trace (onSendClick env user text p)) /\
  exists before,
    trace (onSendClick env user text p)
    = before ++ tagged Handler [Log LogErrorSending;
                                Notify MsgInsertedSendManually SevInfo 2500%N;
                                CloseSideMenu; CollapseButton] /\
    existsb is_clipboard_copy before = false /\
    (clipboard_api env = true ->
     In (Inserter, Notify MsgInsertAndCopyFailed SevError 6000%N) before).
Proof.
  intros Hf Ht Hc Hu.
  assert (Hins : exists pre t',
             Forall (fun a => fst a <> Sender) pre /\
             existsb is_clipboard_copy pre = false /\
             insertPromptText env user text p
             = {| outcome := outcome (_performInsertion env t' p);
                  page_after := page_after (_performInsertion env t' p);
                  target := target (_performInsertion env t' p);
                  trace := pre ++ trace (_performInsertion env t' p) |}).
  { unfold insertPromptText.
    destruct (Template.variables text) as [|v vs] eqn:Ev.
    - exists (tagged Resolver [Log LogStartProcess]), text.
      split; [repeat constructor; discriminate|]. split; reflexivity.
    - destruct Hu as [Hu|Hu]; [discriminate|].
      destruct user as [typed| |]; try discriminate Hu.
      cbn [showVariableInputModal snd fst].
      eexists (tagged Resolver [Log LogStartProcess]
               ++ tagged Resolver [Log (LogVariablesDetected (v :: vs))]
               ++ tagged Modal [ShowModal (v :: vs); CloseModal]), _.
      split; [repeat constructor; discriminate|]. split; [reflexivity|].
      rewrite <- !app_assoc. reflexivity. }
  destruct Hins as (pre & t' & Hpre & Hcopy & E).
  unfold onSendClick. rewrite E, (_performInsertion_raised env t' p ta Hf Ht Hc).
  cbn [outcome target page_after trace send_catch app].
  split; [reflexivity|]. split; [reflexivity|]. split.
  - apply Forall_app. split; [apply Forall_app; split; [exact Hpre|]|].
    + eapply Forall_impl; [|apply tagged_origin].
      intros a Ha. unfold origin_is in Ha. rewrite Ha. discriminate.
    + repeat constructor; discriminate.
  - eexists. split; [reflexivity|]. split.
    + rewrite existsb_app. apply Bool.orb_false_iff. split; [exact Hcopy|].
      destruct (clipboard_api env); reflexivity.
    + intros Ha. rewrite Ha. apply in_or_app. right.
      cbn. do 5 right. left. reflexivity.
Qed.

Lemma benign_no_click (o : Origin) (len : nat) (l : list Action) :
  Forall (benign len) l -> existsb is_click (tagged o l) = false.
Proof.
  intro H. induction H as [|a l Ha Hl IH]; cbn; [reflexivity |].
  unfold tagged in IH. rewrite IH.
  destruct a; cbn in *; try reflexivity. contradiction.
Qed.

Lemma existsb_app_false {A} (f : A -> bool) (l1 l2 : list A) :
  existsb f l1 = false -> existsb f l2 = false -> existsb f (l1 ++ l2) = false.
Proof. intros H1 H2. now rewrite existsb_app, H1, H2. Qed.

Lemma _performInsertion_no_click (env : Env) (text : string) (p : Page) :
  existsb is_click (trace (_performInsertion env text p)) = false.
Proof.
  destruct (findAIInput p) as [ta|] eqn:F.
  - destruct (focus_throws env) eqn:T.
    + unfold _performInsertion, findChatGPTInput. rewrite F, T. cbn [trace].
      unfold catch_fallback.
      destruct (clipboard_api env); [destruct (writeText_ok env)|]; reflexivity.
    + rewrite (_performInsertion_located env text p ta F T). cbv zeta. cbn [trace].
      apply (benign_no_click Inserter (String.length text)).
      apply located_cascade_benign.
  - unfold _performInsertion, findChatGPTInput. rewrite F. reflexivity.
Qed.

Lemma insertPromptText_no_click (env : Env) (user : UserAction) (text : string) (p : Page) :
  existsb is_click (trace (insertPromptText env user text p)) = false.
Proof.
  unfold insertPromptText.
  destruct (Template.variables text) as [|v vs].
  - cbn [trace]. apply existsb_app_false; [reflexivity | apply _performInsertion_no_click].
  - destruct user as [typed| |]; cbn [showVariableInputModal snd fst trace];
      try reflexivity.
    repeat (apply existsb_app_false; [reflexivity|]).
    apply _performInsertion_no_click.
Qed.

Lemma insertPromptText_no_sender (env : Env) (user : UserAction) (text : string) (p : Page) :
  Forall (fun a => fst a <> Sender) (trace (insertPromptText env user text p)).
Proof.
  destruct (insertPromptText_stages env user text p) as (res & ins & -> & H1 & H2).
  apply Forall_app. split.
  - eapply Forall_impl; [|exact H1]. intros [o a] H E. cbn in E. subst o. discriminate.
  - eapply Forall_impl; [|exact H2]. intros [o a] H E. unfold origin_is in H.
    cbn in E, H. congruence.
Qed.

(** X23 -- The edit button's handler inserts and never sends: its trace
    holds no action of [sendPrompt] and no click, whatever the page, the
    environment and the user's answer to the modal. *)
Theorem edit_never_sends (env : Env) (user : UserAction) (text : string) (p : Page) :
  Forall (fun a => fst a <> Sender) (trace (onEditClick env user text p)) /\
  existsb is_click (trace (onEditClick env user text p)) = false /\
  page_after (onEditClick env user text p)
  = page_after (insertPromptText env user text p).
Proof.
  unfold onEditClick. cbn [trace page_after]. repeat split.
  - apply Forall_app. split; [apply insertPromptText_no_sender|].
    destruct (outcome (insertPromptText env user text p));
      repeat constructor; discriminate.
  - apply existsb_app_false; [apply insertPromptText_no_click|].
    destruct (outcome (insertPromptText env user text p)); reflexivity.
Qed.

(** X24 -- The popup and the content script classify alike, the Grok
    page on x.com apart.  With the path part of the address: a page the
    content script supports is one the popup supports; a page the popup
    supports is one the content script supports unless the address holds
    [x.com] and [/i/grok] but the path does not hold [/i/grok]. *)
Theorem popup_and_content_classifiers (l : Location) :
  Str.includes (href l) (pathname l) = true ->
  (isSupportedAIPage l = true -> Popup.isSupportedAIPage (href l) = true) /\
  (Popup.isSupportedAIPage (href l) = true ->
   isSupportedAIPage l = true \/
   (Str.includes (href l) "x.com" = true /\ Str.includes (href l) "/i/grok" = true /\
    Str.includes (pathname l) "/i/grok" = false)).
Proof.
  intros Hp.
  unfold isSupportedAIPage, Popup.isSupportedAIPage,
    isChatGPTPage, isClaudePage, isGeminiPage, isGrokPage, isPerplexityPage,
    isDeepSeekPage, isDoubaoPage, isQwenPage,
    Popup.isChatGPTPage, Popup.isClaudePage, Popup.isGeminiPage, Popup.isGrokPage,
    Popup.isPerplexityPage, Popup.isDeepSeekPage, Popup.isDoubaoPage, Popup.isQwenPage.
  destruct (Str.includes (pathname l) "/i/grok") eqn:G.
  - rewrite (includes_trans _ _ _ Hp G). split; [auto|]. intros H. now left.
  - rewrite Bool.andb_false_r, Bool.orb_false_r. split.
    + intros H. repeat (apply Bool.orb_true_iff in H; destruct H as [H|H]);
        rewrite H; repeat rewrite Bool.orb_true_r; reflexivity.
    + destruct (Str.includes (href l) "x.com" && Str.includes (href l) "/i/grok") eqn:X.
      * apply Bool.andb_true_iff in X. destruct X as [X1 X2]. intros _. right. auto.
      * rewrite Bool.orb_false_r. intros H. now left.
Qed.


(** X31 -- A dismissed variable modal runs no insertion.  When the
    template has a placeholder and the user cancels (cancel button or
    overlay), [insertPromptText] is fulfilled without calling
    [_performInsertion]: the modal is shown and closed, the cancellation is
    logged, no element is located or written to, the page is as before and
    no action of the insertion cascade is performed.  The edit button's
    flow adds its own epilogue only. *)
Theorem cancel_runs_no_insertion (env : Env) (user : UserAction) (text : string)
        (p : Page) :
  Template.variables text <> [] -> cancels user = true ->
  insertPromptText env user text p
  = {| outcome := Resolved; page_after := p; target := None;
       trace := [ (Resolver, Log LogStartProcess);
                  (Resolver, Log (LogVariablesDetected (Template.variables text)));
                  (Modal, ShowModal (Template.variables text));
                  (Modal, CloseModal);
                  (Resolver, Log LogUserCancelled) ] |} /\
  Forall (fun a => fst a <> Inserter) (trace (insertPromptText env user text p)) /\
  page_after (onEditClick env user text p) = p /\
  target (onEditClick env user text p) = None /\
  Forall (fun a => fst a <> Inserter) (trace (onEditClick env user text p)).
Proof.
  intros Hv Hc.
  pose proof (insertPromptText_cancelled env user text p Hv Hc) as E.
  cbn [tagged map app] in E.
  assert (Ht : Forall (fun a => fst a <> Inserter)
                      (trace (insertPromptText env user text p))).
  { rewrite E. cbn [trace]. repeat constructor; discriminate. }
  split; [exact E|]. split; [exact Ht|].
  unfold onEditClick. cbn [page_after target trace].
  split; [now rewrite E|]. split; [now rewrite E|].
  apply Forall_app. split; [exact Ht|].
  rewrite E. cbn [outcome]. repeat constructor; discriminate.
Qed.

(* ================================================================== *)
(** * Further properties: the template resolver *)

Lemma replace_all_skip (pat repl : string) (k : nat) (s before : string) :
  Template.replace_all pat repl before k s
  = Template.replace_all pat repl (before ++ Str.take k s) 0 (Str.drop k s).
Proof.
  revert s before. induction k as [|k IH]; intros s before.
  - destruct s; cbn [Str.take Str.drop]; now rewrite append_nil_r.
  - destruct s as [|c s]; cbn [Str.take Str.drop].
    + reflexivity.
    + cbn [Template.replace_all]. rewrite IH. now rewrite append_assoc.
Qed.

Lemma drop_append_length (a b : string) : Str.drop (String.length a) (a ++ b) = b.
Proof.
  induction a as [|c a IH]; [now destruct b|]. exact IH.
Qed.

Lemma replace_all_self (pat : string) (n : nat) :
  pat <> EmptyString ->
  forall s before, String.length s <= n ->
                   Template.replace_all pat "$&" before 0 s = s.
Proof.
  intros Hp. induction n as [|n IH]; intros s before Hn.
  - destruct s; [reflexivity | simpl in Hn; lia].
  - destruct s as [|c s]; [reflexivity|].
    cbn [Template.replace_all].
    destruct (Str.startsWith (String c s) pat) eqn:E.
    + apply startsWith_iff in E. destruct E as (post & E).
      destruct pat as [|d pat]; [congruence|].
      injection E as <- ->.
      cbn [Template.expand Ascii.eqb]. cbn.
      rewrite append_nil_r, Nat.sub_0_r, replace_all_skip, drop_append_length.
      rewrite IH.
      * reflexivity.
      * simpl in Hn. rewrite length_append in Hn. lia.
    + rewrite IH; [reflexivity | simpl in Hn; lia].
Qed.

(** X26 -- The variable modal: a field filled with the two units [$&]
    leaves its placeholder in the text.  [String.prototype.replace] reads
    the typed value as a replacement pattern, in which [$&] stands for the
    match; so the text after the substitution of that field is the text
    before it, for every template and every field name. *)
Theorem dollar_ampersand_keeps_placeholder (text key : string) :
  Template.substitute text (key, "$&") = text.
Proof.
  unfold Template.substitute. cbn [fst snd]. rewrite pattern_of_key.
  apply (replace_all_self _ (String.length text)); [discriminate | apply le_n].
Qed.

Lemma span_name_spec (s : string) :
  s = (fst (Template.span_name s) ++ snd (Template.span_name s))%string /\
  Html.no_unit (fun c => negb (Template.name_char c)) (fst (Template.span_name s)) = true.
Proof.
  induction s as [|c s [IH1 IH2]]; [split; reflexivity|].
  cbn [Template.span_name]. destruct (Template.name_char c) eqn:E; cbn [fst snd].
  - split.
    + cbn [String.append]. now rewrite <- IH1.
    + cbn [Html.no_unit]. now rewrite E, IH2.
  - split; reflexivity.
Qed.

Lemma span_name_prefix (n r : string) (c : ascii) :
  Html.no_unit (fun c => negb (Template.name_char c)) n = true ->
  Template.name_char c = false ->
  Template.span_name (n ++ String c r) = (n, String c r).
Proof.
  intros Hn Hc. induction n as [|a n IH].
  - cbn [String.append Template.span_name]. now rewrite Hc.
  - cbn [Html.no_unit] in Hn. apply Bool.andb_true_iff in Hn. destruct Hn as [Ha Hn].
    rewrite Bool.negb_involutive in Ha.
    cbn [String.append Template.span_name]. rewrite Ha, (IH Hn). reflexivity.
Qed.

Lemma match_after_brace_iff (s n : string) :
  Template.match_after_brace s = Some n <->
  n <> EmptyString /\
  Html.no_unit (fun c => negb (Template.name_char c)) n = true /\
  exists r, s = (n ++ String Template.rbrace r)%string.
Proof.
  unfold Template.match_after_brace. split.
  - destruct (span_name_spec s) as [E P].
    destruct (fst (Template.span_name s)) as [|a m] eqn:F; [discriminate|].
    destruct (snd (Template.span_name s)) as [|c r] eqn:S; [discriminate|].
    destruct (Ascii.eqb_spec c Template.rbrace) as [->|]; [|discriminate].
    intros H. injection H as <-. split; [discriminate|]. split; [exact P|].
    now exists r.
  - intros (Hne & P & r & ->).
    rewrite (span_name_prefix n r Template.rbrace P eq_refl). cbn [fst snd].
    destruct n; [congruence|]. reflexivity.
Qed.

Lemma exec_all_skip_exact (a r : string) :
  Template.exec_all (String.length a) (a ++ r) = Template.exec_all 0 r.
Proof.
  induction a as [|c a IH]; [reflexivity|].
  cbn [String.length String.append Template.exec_all]. exact IH.
Qed.

Lemma exec_all_after_match (n r : string) :
  Template.exec_all (S (String.length n)) (n ++ String Template.rbrace r)
  = Template.exec_all 0 r.
Proof.
  replace (n ++ String Template.rbrace r)%string
    with ((n ++ String Template.rbrace EmptyString) ++ r)%string
    by (rewrite append_assoc; reflexivity).
  replace (S (String.length n))
    with (String.length (n ++ String Template.rbrace EmptyString))
    by (rewrite length_append; simpl; lia).
  apply exec_all_skip_exact.
Qed.

Lemma exec_all_cons (c : ascii) (s : string) :
  Template.exec_all 0 (String c s)
  = if Ascii.eqb c Template.lbrace
    then match Template.match_after_brace s with
         | Some name => name :: Template.exec_all (S (String.length name)) s
         | None => Template.exec_all 0 s
         end
    else Template.exec_all 0 s.
Proof. reflexivity. Qed.

Lemma exec_all_sound (n : nat) (name : string) :
  forall s, String.length s <= n -> In name (Template.exec_all 0 s) ->
  name <> EmptyString /\
  Html.no_unit (fun c => negb (Template.name_char c)) name = true /\
  exists pre post,
    s = (pre ++ String Template.lbrace (name ++ String Template.rbrace post))%string.
Proof.
  induction n as [|n IH]; intros s Hn Hin.
  - destruct s; [destruct Hin | simpl in Hn; lia].
  - destruct s as [|c s]; [destruct Hin|].
    rewrite exec_all_cons in Hin. simpl in Hn.
    assert (Hrest : In name (Template.exec_all 0 s) ->
                    name <> EmptyString /\
                    Html.no_unit (fun c => negb (Template.name_char c)) name = true /\
                    exists pre post,
                      String c s
                      = (pre ++ String Template.lbrace
                                   (name ++ String Template.rbrace post))%string).
    { intros H. destruct (IH s ltac:(lia) H) as (H1 & H2 & pre & post & ->).
      repeat split; auto. now exists (String c pre), post. }
    destruct (Ascii.eqb_spec c Template.lbrace) as [->|Hc]; [|auto].
    destruct (Template.match_after_brace s) as [m|] eqn:M; [|auto].
    apply match_after_brace_iff in M. destruct M as (M1 & M2 & r & ->).
    destruct Hin as [<-|Hin].
    + repeat split; auto. now exists EmptyString, r.
    + rewrite exec_all_after_match in Hin.
      assert (Hr : String.length r <= n).
      { rewrite length_append in Hn. simpl in Hn. lia. }
      destruct (IH r Hr Hin) as (H1 & H2 & pre & post & ->).
      repeat split; auto.
      exists (String Template.lbrace (m ++ String Template.rbrace pre)), post.
      cbn [String.append]. now rewrite append_assoc.
Qed.

Lemma no_brace_prefix (a x b y : string) :
  Text.has_unit Template.lbrace a = false ->
  (a ++ x = b ++ String Template.lbrace y)%string ->
  exists b', b = (a ++ b')%string /\ x = (b' ++ String Template.lbrace y)%string.
Proof.
  revert b. induction a as [|c a IH]; intros b Ha E.
  - now exists b.
  - cbn [Text.has_unit] in Ha. apply Bool.orb_false_iff in Ha. destruct Ha as [Hc Ha].
    destruct b as [|d b].
    + cbn [String.append] in E. injection E as -> _.
      rewrite Ascii.eqb_refl in Hc. discriminate.
    + cbn [String.append] in E. injection E as -> E.
      destruct (IH b Ha E) as (b' & -> & ->). now exists b'.
Qed.

Lemma name_no_lbrace (n : string) :
  Html.no_unit (fun c => negb (Template.name_char c)) n = true ->
  Text.has_unit Template.lbrace n = false.
Proof.
  induction n as [|c n IH]; [reflexivity|].
  cbn [Html.no_unit Text.has_unit]. intros H.
  apply Bool.andb_true_iff in H. destruct H as [Hc Hn].
  rewrite (IH Hn), Bool.orb_false_r.
  rewrite Bool.negb_involutive in Hc. unfold Template.name_char in Hc.
  apply Bool.negb_true_iff in Hc.
  apply Bool.orb_false_iff in Hc. destruct Hc as [Hc _].
  apply Bool.orb_false_iff in Hc. now destruct Hc as [Hc _].
Qed.

Lemma exec_all_complete (name post : string) (n : nat) :
  name <> EmptyString ->
  Html.no_unit (fun c => negb (Template.name_char c)) name = true ->
  forall pre, String.length pre <= n ->
  In name (Template.exec_all 0
             (pre ++ String Template.lbrace (name ++ String Template.rbrace post))).
Proof.
  intros Hne P.
  assert (Hhere : forall r, Template.match_after_brace (name ++ String Template.rbrace r)
                            = Some name).
  { intros r. apply match_after_brace_iff. repeat split; auto. now exists r. }
  induction n as [|n IH]; intros pre Hn.
  - destruct pre; [|simpl in Hn; lia].
    cbn [String.append]. rewrite exec_all_cons, Ascii.eqb_refl, Hhere. now left.
  - destruct pre as [|c pre].
    + cbn [String.append]. rewrite exec_all_cons, Ascii.eqb_refl, Hhere. now left.
    + cbn [String.append]. rewrite exec_all_cons. simpl in Hn.
      destruct (Ascii.eqb c Template.lbrace); [|apply IH; lia].
      destruct (Template.match_after_brace _) as [m|] eqn:M; [|apply IH; lia].
      right. apply match_after_brace_iff in M. destruct M as (M1 & M2 & r & E).
      rewrite E, exec_all_after_match.
      assert (Hm : Text.has_unit Template.lbrace (m ++ String Template.rbrace "") = false).
      { rewrite has_unit_append, (name_no_lbrace m M2). reflexivity. }
      assert (E' : ((m ++ String Template.rbrace "") ++ r
                    = pre ++ String Template.lbrace (name ++ String Template.rbrace post))%string).
      { rewrite append_assoc. cbn [String.append]. now rewrite <- E. }
      destruct (no_brace_prefix _ _ _ _ Hm E') as (b' & -> & ->).
      apply IH. rewrite !length_append in Hn. lia.
Qed.

Lemma variables_fold (l acc : list string) (name : string) :
  In name (fold_left (fun acc name =>
                        if Str.all_space name then acc else Template.set_add name acc)
                     l acc)
  <-> In name acc \/ (In name l /\ Str.all_space name = false).
Proof.
  revert acc. induction l as [|x l IH]; intros acc; cbn [fold_left].
  - simpl. tauto.
  - rewrite IH. destruct (Str.all_space x) eqn:E.
    + simpl. split.
      * intros [H|[H1 H2]]; auto.
      * intros [H|[[->|H1] H2]]; auto. congruence.
    + rewrite set_add_In. simpl. split.
      * intros [[->|H]|[H1 H2]]; auto.
      * intros [H|[[->|H1] H2]]; auto.
Qed.

(** X27 -- The fields of the variable modal: a name is asked for exactly
    when it is not blank (it holds more than the white space that
    [String.prototype.trim] strips, ASCII or not), holds no brace and no
    line feed, and the template holds it between braces; and
    [variables_NoDup] shows that it is asked for once. *)
Theorem variables_characterised (text name : string) :
  In name (Template.variables text) <->
  Str.all_space name = false /\
  Html.no_unit (fun c => negb (Template.name_char c)) name = true /\
  Str.includes text ("{" ++ name ++ "}") = true.
Proof.
  unfold Template.variables. rewrite variables_fold. simpl In. split.
  - intros [[]|[Hin Hs]]. split; [exact Hs|].
    destruct (exec_all_sound (String.length text) name text (le_n _) Hin)
      as (_ & P & pre & post & E).
    split; [exact P|]. apply includes_iff. exists pre, post.
    rewrite E. cbn [String.append]. now rewrite append_assoc.
  - intros (Hs & P & Hinc). right. split; [|exact Hs].
    apply includes_iff in Hinc. destruct Hinc as (pre & post & ->).
    cbn [String.append]. rewrite append_assoc. cbn [String.append].
    apply (exec_all_complete name post (String.length pre)); auto.
    intros ->. discriminate.
Qed.

(* ================================================================== *)
(** * Further properties: the element found again *)

Lemma Node_induction (P : Node -> Prop) :
  (forall e ch, Forall P ch -> P (Nd e ch)) -> forall n, P n.
Proof.
  intros H. fix IH 1. intros [e ch]. apply H.
  induction ch as [|c ch IHch]; constructor; [apply IH | exact IHch].
Qed.

Lemma frame_fields (e1 e2 : Element) :
  frame e1 = frame e2 ->
  nid e1 = nid e2 /\ tagName e1 = tagName e2 /\ attrs e1 = attrs e2 /\
  visible e1 = visible e2.
Proof.
  intros H. repeat split.
  - exact (f_equal nid H).
  - exact (f_equal tagName H).
  - exact (f_equal attrs H).
  - exact (f_equal visible H).
Qed.

Lemma frame_setCursorToEnd (e : Element) (len : nat) :
  frame (setCursorToEnd e len) = frame e.
Proof.
  unfold setCursorToEnd. destruct (is_text_control e); [reflexivity|].
  destruct (isContentEditable e); reflexivity.
Qed.

Lemma frame_insert_at_selection (e : Element) (ins : string) :
  frame (insert_at_selection e ins) = frame e.
Proof.
  unfold insert_at_selection. destruct (is_text_control e); [reflexivity|].
  destruct (isContentEditable e); reflexivity.
Qed.

Lemma frame_select_all (e : Element) : frame (select_all e) = frame e.
Proof. unfold select_all. destruct (is_text_control e); reflexivity. Qed.

Lemma frame_set_value (e : Element) (v : string) : frame (set_value e v) = frame e.
Proof. reflexivity. Qed.

Lemma frame_set_textContent (e : Element) (t : string) :
  frame (set_textContent e t) = frame e.
Proof. reflexivity. Qed.

Ltac frame_steps :=
  cbn [el emit on_el put_clip dispatch cursorToEnd fst snd];
  repeat first [ rewrite frame_setCursorToEnd
               | rewrite frame_insert_at_selection
               | rewrite frame_select_all
               | rewrite frame_set_value
               | rewrite frame_set_textContent ];
  try reflexivity.

Section Frame.

Variable env : Env.
Variable text : string.

Lemma frame_direct_textarea (s : St) :
  frame (el (direct_textarea text s)) = frame (el s).
Proof. unfold direct_textarea. cbv zeta. frame_steps. Qed.

Lemma frame_direct_contenteditable (s : St) :
  frame (el (direct_contenteditable env text s)) = frame (el s).
Proof.
  unfold direct_contenteditable. cbv zeta.
  match goal with |- context [if Str.truthy ?c then _ else _] =>
    destruct (Str.truthy c) end;
    destruct (editor_takes_insertText env); frame_steps.
Qed.

Lemma frame_exec_insertText (s : St) :
  frame (el (fst (exec_insertText env text s))) = frame (el s).
Proof.
  unfold exec_insertText. cbv zeta. destruct (insertText_ok env); frame_steps.
Qed.

Lemma frame_react_onChange (s : St) :
  frame (el (fst (react_onChange text s))) = frame (el s).
Proof.
  unfold react_onChange. cbv zeta.
  match goal with |- context [if reactOnChange ?c then _ else _] =>
    destruct (reactOnChange c) end;
    destruct (is_textarea (el s)); try destruct (isContentEditable (el s));
    frame_steps.
Qed.

Lemma frame_insertWithDirectMethod (s : St) :
  frame (el (fst (insertWithDirectMethod env text s))) = frame (el s).
Proof.
  unfold insertWithDirectMethod. cbv zeta. cbn [fst el emit].
  destruct (is_textarea (el s)); cbn [fst snd].
  - apply frame_direct_textarea.
  - destruct (isContentEditable (el s)); cbn [fst snd].
    + apply frame_direct_contenteditable.
    + destruct (snd (exec_insertText env text s)).
      * apply frame_exec_insertText.
      * rewrite frame_react_onChange. apply frame_exec_insertText.
Qed.

Lemma frame_paste_attempt (s : St) :
  frame (el (paste_attempt env s)) = frame (el s).
Proof.
  unfold paste_attempt, clear_for_paste. cbv zeta.
  destruct (paste_permitted env), (is_textarea (el s)), (isContentEditable (el s));
    frame_steps.
Qed.

Lemma frame_cascade (s : St) :
  frame (el (fst (cascade env text s))) = frame (el s).
Proof.
  unfold cascade. cbv zeta.
  destruct (clipboard_api env); [destruct (writeText_ok env) |]; cbn [fst].
  - match goal with |- context [if hasContent ?c then _ else _] =>
      destruct (hasContent c) end; cbn [fst].
    + cbn [el emit dispatch cursorToEnd on_el]. rewrite frame_setCursorToEnd.
      now rewrite frame_paste_attempt.
    + rewrite frame_insertWithDirectMethod. cbn [el emit].
      now rewrite frame_paste_attempt.
  - now rewrite frame_insertWithDirectMethod.
  - now rewrite frame_insertWithDirectMethod.
Qed.

Lemma frame_catch_fallback (s : St) :
  el (fst (catch_fallback env text s)) = el s.
Proof.
  unfold catch_fallback. cbv zeta.
  destruct (clipboard_api env); [destruct (writeText_ok env)|]; reflexivity.
Qed.

Lemma _performInsertion_target (p : Page) (e' : Element) :
  target (_performInsertion env text p) = Some e' ->
  exists e clip,
    findAIInput p = Some e /\ frame e' = frame e /\
    page_after (_performInsertion env text p) = update_page p e' clip.
Proof.
  unfold _performInsertion, findChatGPTInput.
  destruct (findAIInput p) as [e|]; [|discriminate].
  destruct (focus_throws env); cbn [target page_after]; intros H; injection H as <-.
  - eexists e, _. split; [reflexivity|]. split; [|reflexivity].
    now rewrite frame_catch_fallback.
  - eexists e, _. split; [reflexivity|]. split; [|reflexivity].
    now rewrite frame_cascade.
Qed.

End Frame.

Lemma insertPromptText_target (env : Env) (user : UserAction) (text : string) (p : Page)
      (e' : Element) :
  target (insertPromptText env user text p) = Some e' ->
  exists e clip,
    findAIInput p = Some e /\ frame e' = frame e /\
    page_after (insertPromptText env user text p) = update_page p e' clip.
Proof.
  unfold insertPromptText.
  destruct (Template.variables text) as [|v vs].
  - cbn [target page_after]. apply _performInsertion_target.
  - destruct user as [typed| |]; cbn [showVariableInputModal snd target page_after];
      try discriminate.
    apply _performInsertion_target.
Qed.

Lemma frame_fire (e : Element) (a : Entry) : frame (fire e a) = frame e.
Proof.
  unfold fire. destruct (snd a); try reflexivity.
  destruct what; try reflexivity; apply frame_setCursorToEnd.
Qed.

Lemma frame_after_timers (e : Element) (tr : list Entry) :
  frame (after_timers e tr) = frame e.
Proof.
  unfold after_timers. revert e. induction tr as [|a tr IH]; intros e; [reflexivity|].
  cbn [fold_left]. now rewrite IH, frame_fire.
Qed.

Section Replaced.

Variable el : Element.

Lemma getAttribute_frame (e1 e2 : Element) (a : string) :
  frame e1 = frame e2 -> getAttribute e1 a = getAttribute e2 a.
Proof.
  intros H. unfold getAttribute. apply frame_fields in H.
  destruct H as (_ & _ & -> & _). reflexivity.
Qed.

Lemma test_holds_placed (a : Css.Placed) (t : Css.Simple) :
  keeps el (fst a) -> Css.test_holds (placed el a) t = Css.test_holds a t.
Proof.
  intros H. unfold keeps in H. unfold Css.test_holds, placed. cbn [fst snd].
  destruct t; try reflexivity.
  - apply frame_fields in H. destruct H as (_ & -> & _). reflexivity.
  - now rewrite (getAttribute_frame _ _ "id" H).
  - now rewrite (getAttribute_frame _ _ "class" H).
  - now rewrite (getAttribute_frame _ _ a0 H).
  - now rewrite (getAttribute_frame _ _ a0 H).
Qed.

Lemma compound_holds_placed (a : Css.Placed) (c : Css.Compound) :
  keeps el (fst a) -> Css.compound_holds (placed el a) c = Css.compound_holds a c.
Proof.
  intros H. unfold Css.compound_holds.
  induction c as [|t c IH]; [reflexivity|].
  cbn [forallb]. now rewrite test_holds_placed, IH.
Qed.

Lemma ancestors_hold_placed (outer : list Css.Compound) (anc : list Css.Placed) :
  Forall (fun a => keeps el (fst a)) anc ->
  Css.ancestors_hold outer (map (placed el) anc) = Css.ancestors_hold outer anc.
Proof.
  revert anc. induction outer as [|c outer IH]; intros anc H; [reflexivity|].
  cbn [Css.ancestors_hold].
  induction H as [|a anc Ha Hanc IHanc]; [reflexivity|].
  cbn [map]. rewrite (compound_holds_placed a c Ha).
  destruct (Css.compound_holds a c); [now apply IH | exact IHanc].
Qed.

Lemma matches_lifted (sel : Css.Selector) (h : Css.Placed * list Css.Placed) :
  keeps el (fst (fst h)) -> Forall (fun a => keeps el (fst a)) (snd h) ->
  Css.matches sel (fst (lifted el h)) (snd (lifted el h)) = Css.matches sel (fst h) (snd h).
Proof.
  intros H1 H2. unfold Css.matches, lifted. cbn [fst snd].
  destruct (rev sel) as [|subject outer]; [reflexivity|].
  now rewrite compound_holds_placed, ancestors_hold_placed.
Qed.

Lemma tag_of_update (n : Node) :
  (forall x, In x (node_elements n) -> keeps el x) ->
  Css.tag_of (update_node el n) = Css.tag_of n.
Proof.
  destruct n as [e ch]. intros H. cbn [update_node Css.tag_of].
  assert (He : keeps el e) by (apply H; now left).
  unfold keeps, replaced in He. apply frame_fields in He.
  now destruct He as (_ & He & _).
Qed.

Lemma last_flag_update (c : Node) (r : list Node) :
  (forall x, In x (node_elements c) -> keeps el x) ->
  (forall x, In x (doc_elements r) -> keeps el x) ->
  existsb (fun s => String.eqb (Css.tag_of s) (Css.tag_of (update_node el c)))
          (map (update_node el) r)
  = existsb (fun s => String.eqb (Css.tag_of s) (Css.tag_of c)) r.
Proof.
  intros Hc Hr. rewrite (tag_of_update c Hc).
  induction r as [|d r IH]; [reflexivity|].
  cbn [map existsb]. rewrite tag_of_update.
  - f_equal. apply IH. intros x Hx. apply Hr. unfold doc_elements. cbn [flat_map].
    apply in_or_app. now right.
  - intros x Hx. apply Hr. unfold doc_elements. cbn [flat_map].
    apply in_or_app. now left.
Qed.

Lemma walk_update (n : Node) :
  forall anc last,
    (forall x, In x (node_elements n) -> keeps el x) ->
    Css.walk (map (placed el) anc) last (update_node el n)
    = map (lifted el) (Css.walk anc last n).
Proof.
  induction n as [e ch IH] using Node_induction. intros anc last H.
  cbn [update_node Css.walk map]. f_equal.
  assert (Hch : forall x, In x (doc_elements ch) -> keeps el x).
  { intros x Hx. apply H. now right. }
  clear H.
  change ((if Nat.eqb (nid e) (nid el) then el else e, last) :: map (placed el) anc)
    with (map (placed el) ((e, last) :: anc)).
  generalize ((e, last) :: anc) as anc'. intros anc'.
  induction IH as [|c r Hc Hr IHr]; [reflexivity|].
  cbn [map]. rewrite map_app.
  assert (Hc' : forall x, In x (node_elements c) -> keeps el x).
  { intros x Hx. apply Hch. unfold doc_elements. cbn [flat_map].
    apply in_or_app. now left. }
  assert (Hr' : forall x, In x (doc_elements r) -> keeps el x).
  { intros x Hx. apply Hch. unfold doc_elements. cbn [flat_map].
    apply in_or_app. now right. }
  rewrite (last_flag_update c r Hc' Hr'), (Hc _ _ Hc'). f_equal.
  now apply IHr.
Qed.

Lemma walk_forest_update (doc : list Node) :
  (forall x, In x (doc_elements doc) -> keeps el x) ->
  Css.walk_forest (map (update_node el) doc) = map (lifted el) (Css.walk_forest doc).
Proof.
  induction doc as [|c r IH]; intros H; [reflexivity|].
  cbn [map Css.walk_forest]. rewrite map_app.
  assert (Hc : forall x, In x (node_elements c) -> keeps el x).
  { intros x Hx. apply H. unfold doc_elements. cbn [flat_map].
    apply in_or_app. now left. }
  assert (Hr : forall x, In x (doc_elements r) -> keeps el x).
  { intros x Hx. apply H. unfold doc_elements. cbn [flat_map].
    apply in_or_app. now right. }
  rewrite (last_flag_update c r Hc Hr).
  pose proof (walk_update c []
                (negb (existsb (fun s => String.eqb (Css.tag_of s) (Css.tag_of c)) r)) Hc)
    as W.
  change (map (placed el) []) with (@nil Css.Placed) in W.
  rewrite W. f_equal. now apply IH.
Qed.

(** Every element a walk lists, and every ancestor it lists with it, is
    an element of the subtree or one of the ancestors given. *)
Lemma walk_members (n : Node) :
  forall anc last h, In h (Css.walk anc last n) ->
    In (fst (fst h)) (node_elements n) /\
    Forall (fun a => In a anc \/ In (fst a) (node_elements n)) (snd h).
Proof.
  induction n as [e ch IH] using Node_induction. intros anc last h Hin.
  cbn [Css.walk] in Hin. destruct Hin as [<-|Hin].
  - cbn [fst snd node_elements]. split; [now left|].
    apply Forall_forall. intros a Ha. now left.
  - cbn [node_elements].
    assert (Hgoal : In (fst (fst h)) (flat_map node_elements ch) /\
                    Forall (fun a => In a ((e, last) :: anc)
                                     \/ In (fst a) (flat_map node_elements ch)) (snd h)).
    { revert Hin. generalize ((e, last) :: anc) as anc'. intros anc'.
      induction IH as [|c r Hc Hr IHr]; intros Hin; [destruct Hin|].
      apply in_app_or in Hin. cbn [flat_map]. destruct Hin as [Hin|Hin].
      - destruct (Hc _ _ _ Hin) as [H1 H2]. split; [apply in_or_app; now left|].
        eapply Forall_impl; [|exact H2]. intros a [Ha|Ha]; [now left|].
        right. apply in_or_app. now left.
      - destruct (IHr Hin) as [H1 H2]. split; [apply in_or_app; now right|].
        eapply Forall_impl; [|exact H2]. intros a [Ha|Ha]; [now left|].
        right. apply in_or_app. now right. }
    destruct Hgoal as [H1 H2]. split; [now right|].
    eapply Forall_impl; [|exact H2]. intros a [[<-|Ha]|Ha].
    + right. now left.
    + now left.
    + right. now right.
Qed.

Lemma walk_forest_members (doc : list Node) (h : Css.Placed * list Css.Placed) :
  In h (Css.walk_forest doc) ->
  In (fst (fst h)) (doc_elements doc) /\
  Forall (fun a => In (fst a) (doc_elements doc)) (snd h).
Proof.
  induction doc as [|c r IH]; intros Hin; [destruct Hin|].
  cbn [Css.walk_forest] in Hin. apply in_app_or in Hin.
  unfold doc_elements. cbn [flat_map]. destruct Hin as [Hin|Hin].
  - destruct (walk_members c _ _ _ Hin) as [H1 H2]. split; [apply in_or_app; now left|].
    eapply Forall_impl; [|exact H2]. intros a [[]|Ha]. apply in_or_app. now left.
  - destruct (IH Hin) as [H1 H2]. split; [apply in_or_app; now right|].
    eapply Forall_impl; [|exact H2]. intros a Ha. apply in_or_app. now right.
Qed.

Lemma querySelectorAll_members (doc : list Node) (sel : Css.Selector) (x : Element) :
  In x (querySelectorAll doc sel) -> In x (doc_elements doc).
Proof.
  unfold querySelectorAll. rewrite in_map_iff. intros (h & <- & Hh).
  apply filter_In in Hh. destruct Hh as [Hh _].
  now apply walk_forest_members in Hh.
Qed.

Lemma filter_map_ext {A B} (f : B -> bool) (g : A -> B) (f' : A -> bool) (l : list A) :
  (forall x, In x l -> f (g x) = f' x) ->
  filter f (map g l) = map g (filter f' l).
Proof.
  induction l as [|a l IH]; intros H; [reflexivity|].
  cbn [map filter]. rewrite (H a) by now left.
  destruct (f' a); cbn [map]; [f_equal|]; apply IH; intros x Hx; apply H; now right.
Qed.

Lemma querySelectorAll_update (doc : list Node) (sel : Css.Selector) :
  (forall x, In x (doc_elements doc) -> keeps el x) ->
  querySelectorAll (map (update_node el) doc) sel
  = map (replaced el) (querySelectorAll doc sel).
Proof.
  intros H. unfold querySelectorAll. rewrite (walk_forest_update doc H).
  rewrite (filter_map_ext _ (lifted el)
             (fun h => Css.matches sel (fst h) (snd h))).
  - rewrite !map_map. reflexivity.
  - intros h Hh. apply walk_forest_members in Hh. destruct Hh as [H1 H2].
    apply matches_lifted; [now apply H|].
    eapply Forall_impl; [|exact H2]. intros a Ha. now apply H.
Qed.

Lemma find_visible_update (l : list Element) :
  (forall x, In x l -> keeps el x) ->
  find visible (map (replaced el) l) = option_map (replaced el) (find visible l).
Proof.
  induction l as [|a l IH]; intros H; [reflexivity|].
  cbn [map find].
  assert (Ha : visible (replaced el a) = visible a).
  { assert (K : keeps el a) by (apply H; now left).
    unfold keeps in K. apply frame_fields in K. now destruct K as (_ & _ & _ & K). }
  rewrite Ha. destruct (visible a); [reflexivity|].
  apply IH. intros x Hx. apply H. now right.
Qed.

Lemma first_visible_match_update (doc : list Node) (sels : list Css.Selector) :
  (forall x, In x (doc_elements doc) -> keeps el x) ->
  first_visible_match (map (update_node el) doc) sels
  = option_map (replaced el) (first_visible_match doc sels).
Proof.
  intros H. induction sels as [|sel rest IH]; [reflexivity|].
  cbn [first_visible_match]. rewrite (querySelectorAll_update doc sel H).
  rewrite find_visible_update.
  - destruct (find visible (querySelectorAll doc sel)); [reflexivity | exact IH].
  - intros x Hx. apply H. now apply querySelectorAll_members in Hx.
Qed.

End Replaced.

Lemma first_visible_match_member (doc : list Node) (sels : list Css.Selector) (e : Element) :
  first_visible_match doc sels = Some e -> In e (doc_elements doc).
Proof.
  induction sels as [|sel rest IH]; [discriminate|].
  cbn [first_visible_match].
  destruct (find visible (querySelectorAll doc sel)) as [x|] eqn:F; [|exact IH].
  intros H. injection H as <-. apply find_some in F. destruct F as [F _].
  now apply querySelectorAll_members in F.
Qed.

Lemma doc_elements_update (el : Element) (doc : list Node) :
  doc_elements (map (update_node el) doc) = map (replaced el) (doc_elements doc).
Proof.
  unfold doc_elements.
  assert (Hn : forall n, node_elements (update_node el n)
                         = map (replaced el) (node_elements n)).
  { induction n as [e ch IH] using Node_induction.
    cbn [update_node node_elements map]. f_equal.
    induction IH as [|c r Hc Hr IHr]; [reflexivity|].
    cbn [map flat_map]. now rewrite map_app, Hc, IHr. }
  induction doc as [|c r IH]; [reflexivity|].
  cbn [map flat_map]. now rewrite map_app, Hn, IH.
Qed.

(** Writing the located element back, with any content, does not change
    what the locator finds. *)
Lemma findAIInput_update (p : Page) (e e' : Element) (clip : string) :
  ids_identify (document p) -> findAIInput p = Some e -> frame e' = frame e ->
  findAIInput (update_page p e' clip) = Some e' /\
  ids_identify (document (update_page p e' clip)).
Proof.
  intros Hid Hf Hfr. unfold findAIInput in *. cbn [update_page document location].
  pose proof (first_visible_match_member _ _ _ Hf) as He.
  assert (Hn : nid e' = nid e) by (apply frame_fields in Hfr; tauto).
  assert (Hk : forall x, In x (doc_elements (document p)) ->
                         frame (replaced e' x) = frame x).
  { intros x Hx. unfold replaced. destruct (Nat.eqb_spec (nid x) (nid e')) as [E|E];
      [|reflexivity].
    rewrite (Hid x e Hx He) by congruence. exact Hfr. }
  split.
  - rewrite (first_visible_match_update e' _ _ Hk), Hf. cbn [option_map].
    unfold replaced. now rewrite Hn, Nat.eqb_refl.
  - unfold ids_identify. rewrite doc_elements_update.
    intros x y Hx Hy Hxy. apply in_map_iff in Hx. apply in_map_iff in Hy.
    destruct Hx as (x0 & <- & Hx0). destruct Hy as (y0 & <- & Hy0).
    assert (Hnid : forall z, In z (doc_elements (document p)) ->
                             nid (replaced e' z) = nid z).
    { intros z Hz. specialize (Hk z Hz). apply frame_fields in Hk. tauto. }
    rewrite !Hnid in Hxy by assumption.
    now rewrite (Hid x0 y0 Hx0 Hy0 Hxy).
Qed.

(** X28 -- After an insertion the locator finds the element the text went
    into.  In a document whose elements are told apart by their identity,
    when [insertPromptText] has written to an element, [findAIInput] on
    the page it leaves (its timers fired) returns that element as the
    insertion left it; so the [sendPrompt] that follows in the send
    button's flow is not rejected and sends from that element. *)
Theorem send_finds_the_insertion_target (env : Env) (user : UserAction) (text : string)
        (p : Page) (e' : Element) :
  ids_identify (document p) ->
  target (insertPromptText env user text p) = Some e' ->
  findAIInput (page_after_timers (insertPromptText env user text p))
  = Some (after_timers e' (trace (insertPromptText env user text p))) /\
  outcome (sendPrompt (page_after_timers (insertPromptText env user text p))) = Resolved /\
  target (sendPrompt (page_after_timers (insertPromptText env user text p)))
  = Some (after_timers e' (trace (insertPromptText env user text p))).
Proof.
  intros Hid Ht.
  destruct (insertPromptText_target env user text p e' Ht) as (e & clip & Hf & Hfr & Hp).
  destruct (findAIInput_update p e e' clip Hid Hf Hfr) as [Hf1 Hid1].
  assert (Hfind : findAIInput (page_after_timers (insertPromptText env user text p))
                  = Some (after_timers e' (trace (insertPromptText env user text p)))).
  { unfold page_after_timers. rewrite Ht, Hp.
    apply (findAIInput_update _ e' _ _ Hid1 Hf1). apply frame_after_timers. }
  split; [exact Hfind|].
  unfold sendPrompt, findChatGPTInput. rewrite Hfind.
  destruct (useKeyboardFirst _); [split; reflexivity|].
  destruct (find_send_button _ _) as [b|]; [destruct (negb (disabled b))|];
    split; reflexivity.
Qed.

(* ================================================================== *)
(** * Further properties: category tags *)

(** X29 -- The category tags: clicking the tag of a category in use,
    other than one named [all], shows that category alone, with exactly
    the prompts of the category in the order of the list, and never the
    empty state.  (The tag of a category named [all] shows every
    category, as the 'all' tag does.) *)
Theorem tag_shows_its_category (c : string) (lastExpanded : option string)
        (prompts : list Prompt) :
  In c (getUniqueCategories prompts) -> c <> "all" ->
  filter (has_category c) prompts <> [] /\
  filterPromptsByCategory c lastExpanded prompts
  = SingleCategory (formatCategoryName c)
                   (map createPromptItemHTML (filter (has_category c) prompts)).
Proof.
  intros Hin Hall.
  destruct (unique_categories_fold prompts []) as [_ H].
  apply H in Hin. destruct Hin as [[]|(_ & p & Hp & E)].
  assert (Hne : filter (has_category c) prompts <> []).
  { intros Hnil.
    assert (Hf : In p (filter (has_category c) prompts)).
    { apply filter_In. split; [exact Hp|]. unfold has_category. rewrite E.
      apply String.eqb_refl. }
    rewrite Hnil in Hf. destruct Hf. }
  split; [exact Hne|].
  unfold filterPromptsByCategory.
  destruct (String.eqb_spec c "all") as [->|_]; [congruence|].
  destruct (filter (has_category c) prompts); [congruence | reflexivity].
Qed.

(** X30 -- Tags and accordion: when the list renders, its items are the
    categories of the tags and, if some prompt has no category, the item
    [uncategorized], which has no tag of its own unless a prompt names
    that category. *)
Theorem accordion_items_and_tags (prompts : list Prompt) (expanded : option string)
        (groups : list CategoryGroup) (c : string) :
  renderPromptsByCategory prompts expanded = Some groups ->
  (In c (map group_category groups) <->
   In c (getUniqueCategories prompts) \/
   (c = "uncategorized" /\ exists p, In p prompts /\ category p = EmptyString)).
Proof.
  unfold renderPromptsByCategory.
  pose proof (promptsByCategory_spec prompts [] (NoDup_nil _) (Forall_nil _)) as H.
  destruct (promptsByCategory prompts []) as [g|]; [|discriminate].
  destruct H as (_ & _ & Hni & Hkeys & _).
  intros E. injection E as <-.
  rewrite map_map. cbn [group_category]. rewrite map_id.
  rewrite own_keys_In, Hkeys.
  destruct (unique_categories_fold prompts []) as [_ Hu]. cbv zeta in Hu.
  unfold getUniqueCategories. rewrite (Hu c). simpl. split.
  - intros [[[]|(p & Hp & Ec)] _]. unfold category_of in Ec.
    destruct (category p) eqn:Cp; cbn [Str.truthy] in Ec.
    + right. split; [now symmetry|]. now exists p.
    + left. right. split; [subst c; discriminate|]. exists p. split; [exact Hp|].
      now rewrite Cp.
  - intros H.
    assert (Hex : exists p, In p prompts /\ category_of p = c).
    { destruct H as [[[]|(Hc & p & Hp & Ec)]|(-> & p & Hp & Ec)]; exists p;
        (split; [exact Hp|]); unfold category_of; rewrite Ec.
      - destruct c; [congruence | reflexivity].
      - reflexivity. }
    split; [now right|]. intros ->.
    assert (Hc : In "__proto__" (map fst g)) by (apply Hkeys; now right).
    rewrite Forall_forall in Hni. apply Hni in Hc. discriminate.
Qed.

(* ================================================================== *)
(** * Instances of the further properties *)

Lemma escapeHtml_injective_witness :
  Html.escapeHtml "a<b" = Html.escapeHtml "a<b" /\ "a<b" = "a<b".
Proof.
  split; [reflexivity|].
  apply (escapeHtml_injective "a<b" "a<b"). reflexivity.
Defined.

Lemma render_partitions_witness :
  exists groups,
    renderPromptsByCategory presets (Some "coding") = Some groups /\
    NoDup (map group_category groups).
Proof.
  eexists. split; [vm_compute; reflexivity|].
  refine (proj1 (render_partitions presets (Some "coding") _ _)).
  vm_compute; reflexivity.
Defined.

Lemma search_resets_iff_blank_witness :
  Str.all_space Samples.ideographic_space = true /\
  handleSearch Str.toLowerCase Samples.ideographic_space presets = ShowAll.
Proof.
  split; [reflexivity|].
  apply (search_resets_iff_blank Str.toLowerCase Samples.ideographic_space presets).
  - exact toLowerCase_nil_iff.
  - reflexivity.
Defined.


Lemma store_change_is_not_rolled_back_witness :
  availablePrompts (fst (run_op Samples.refusing (OpAdd Samples.note)
                                Samples.after_failed_read))
  = availablePrompts (fst (run_op Samples.working (OpAdd Samples.note)
                                  Samples.after_failed_read)) /\
  (forall e, snd (run_op Samples.refusing (OpAdd Samples.note) Samples.after_failed_read)
             = Failed e ->
             synced (fst (run_op Samples.refusing (OpAdd Samples.note)
                                 Samples.after_failed_read))
             = synced Samples.after_failed_read).
Proof.
  apply (store_change_is_not_rolled_back Samples.refusing Samples.working
                                         (OpAdd Samples.note) Samples.after_failed_read).
  - discriminate.
  - reflexivity.
Defined.

Lemma load_never_empty_witness :
  availablePrompts
    (fst (loadPrompts Samples.working
            (run_ops [ (Samples.working, OpLoad);
                       (Samples.working, OpDelete "prompt-summary");
                       (Samples.working, OpChanged (Some [])) ]
                     (initial_store None)))) <> [].
Proof.
  apply (load_never_empty [ (Samples.working, OpLoad);
                            (Samples.working, OpDelete "prompt-summary");
                            (Samples.working, OpChanged (Some [])) ]
                          None Samples.working).
  vm_compute; reflexivity.
Defined.

Lemma add_then_delete_restores_witness :
  availablePrompts
    (fst (deletePrompt Samples.working (prompt_id (with_id Samples.refusing Samples.note))
                       (fst (addPrompt Samples.refusing Samples.note
                                       Samples.after_failed_read))))
  = availablePrompts Samples.after_failed_read.
Proof.
  apply (add_then_delete_restores Samples.refusing Samples.working Samples.note
                                  Samples.after_failed_read).
  intros q Hq. vm_compute in Hq.
  repeat (destruct Hq as [<-|Hq]; [vm_compute; discriminate|]). destruct Hq.
Defined.

Lemma deleted_prompt_returns_with_defaults_witness :
  ~ In (with_id Samples.working Samples.note)
       (availablePrompts
          (fst (deletePrompt Samples.refusing
                             (prompt_id (with_id Samples.working Samples.note))
                             (fst (addPrompt Samples.working Samples.note
                                             Samples.after_failed_read))))) /\
  In (with_id Samples.working Samples.note)
     (availablePrompts
        (fst (loadPrompts Samples.unreadable
                (fst (deletePrompt Samples.refusing
                                   (prompt_id (with_id Samples.working Samples.note))
                                   (fst (addPrompt Samples.working Samples.note
                                                   Samples.after_failed_read))))))).
Proof.
  apply (deleted_prompt_returns_with_defaults Samples.working Samples.refusing
                                              Samples.unreadable Samples.note
                                              Samples.after_failed_read).
  - reflexivity.
  - reflexivity.
Defined.


Lemma send_manually_toast_after_failed_insertion_witness :
  findAIInput Fixtures.chatgpt_page = Some Fixtures.textarea /\
  target (onSendClick Fixtures.hostile_env CancelButton "hello" Fixtures.chatgpt_page)
  = Some Fixtures.textarea /\
  In (Handler, Notify MsgInsertedSendManually SevInfo 2500%N)
     (trace (onSendClick Fixtures.hostile_env CancelButton "hello" Fixtures.chatgpt_page)).
Proof.
  assert (Hf : findAIInput Fixtures.chatgpt_page = Some Fixtures.textarea)
    by (vm_compute; reflexivity).
  split; [exact Hf|].
  destruct (send_manually_toast_after_failed_insertion
              Fixtures.hostile_env CancelButton "hello" Fixtures.chatgpt_page
              Fixtures.textarea Hf eq_refl eq_refl (or_introl eq_refl))
    as (H1 & _ & _ & before & E & _).
  split; [exact H1|].
  rewrite E. apply in_or_app. right. right. left. reflexivity.
Defined.

Lemma popup_and_content_classifiers_witness :
  (isSupportedAIPage Samples.grok_on_x = true ->
   Popup.isSupportedAIPage (href Samples.grok_on_x) = true) /\
  (Popup.isSupportedAIPage (href Samples.grok_on_x) = true ->
   isSupportedAIPage Samples.grok_on_x = true \/
   (Str.includes (href Samples.grok_on_x) "x.com" = true /\
    Str.includes (href Samples.grok_on_x) "/i/grok" = true /\
    Str.includes (pathname Samples.grok_on_x) "/i/grok" = false)).
Proof.
  apply (popup_and_content_classifiers Samples.grok_on_x). reflexivity.
Defined.

Lemma send_finds_the_insertion_target_witness :
  exists e',
    target (insertPromptText Fixtures.bare_env CancelButton "hello" Fixtures.chatgpt_page)
    = Some e' /\
    findAIInput (page_after_timers
                   (insertPromptText Fixtures.bare_env CancelButton "hello"
                                     Fixtures.chatgpt_page))
    = Some (after_timers e'
              (trace (insertPromptText Fixtures.bare_env CancelButton "hello"
                                       Fixtures.chatgpt_page))) /\
    value e' = "hello".
Proof.
  eexists. split; [vm_compute; reflexivity|]. split; [|reflexivity].
  refine (proj1 (send_finds_the_insertion_target
                   Fixtures.bare_env CancelButton "hello" Fixtures.chatgpt_page _ _ _)).
  - intros x y Hx Hy E. vm_compute in Hx, Hy.
    destruct Hx as [<-|[<-|[<-|[]]]]; destruct Hy as [<-|[<-|[<-|[]]]];
      first [reflexivity | discriminate E].
  - vm_compute; reflexivity.
Defined.

Lemma tag_shows_its_category_witness :
  filter (has_category "coding") presets <> [] /\
  filterPromptsByCategory "coding" None presets
  = SingleCategory (formatCategoryName "coding")
                   (map createPromptItemHTML (filter (has_category "coding") presets)).
Proof.
  apply (tag_shows_its_category "coding" None presets).
  - vm_compute. right. now left.
  - discriminate.
Defined.

Lemma accordion_items_and_tags_witness :
  exists groups,
    renderPromptsByCategory presets None = Some groups /\
    (In "coding" (map group_category groups) <->
     In "coding" (getUniqueCategories presets) \/
     ("coding" = "uncategorized" /\
      exists p, In p presets /\ category p = EmptyString)).
Proof.
  eexists. split; [vm_compute; reflexivity|].
  apply (accordion_items_and_tags presets None _ "coding").
  vm_compute; reflexivity.
Defined.


Lemma cancel_runs_no_insertion_witness :
  Template.variables "Translate to {lang}: " <> [] /\
  cancels ClickOverlay = true /\
  page_after (onEditClick Fixtures.bare_env ClickOverlay "Translate to {lang}: "
                          Fixtures.chatgpt_page) = Fixtures.chatgpt_page.
Proof.
  assert (Hv : Template.variables "Translate to {lang}: " <> []) by discriminate.
  split; [exact Hv|]. split; [reflexivity|].
  exact (proj1 (proj2 (proj2 (cancel_runs_no_insertion
                                Fixtures.bare_env ClickOverlay "Translate to {lang}: "
                                Fixtures.chatgpt_page Hv eq_refl)))).
Defined.
